(** * FYND feedback pipeline: rate limiting, validation, AI invocation, report

    A shallow embedding of [app/api/review/route.ts] (the submission route and
    the report route) and of the Zod schemas of [lib/types.ts], together with
    the properties the specification states about them.

    Conventions.
    - [Date.now()] yields an integer number of milliseconds: a [Z].
    - Other JavaScript numbers (JSON numbers, [performance.now()]) are
      rationals [Q]; every finite double is one.  The two infinities, which
      [JSON.parse] produces on overflow, are separate constructors.
    - A JavaScript string is a [string], one [ascii] per code unit, so that
      [.length] is [String.length].
    - The module-level [rateLimitStore] is a [gmap string (list Z)] threaded
      through the calls. *)

From Stdlib Require Import ZArith QArith Qround Lia Lqa Ascii DecimalString.
From stdpp Require Import gmap strings list fin_maps.
From stdpp Require Import sorting.

Local Open Scope Z_scope.

(** ** Numbers *)

(** [Math.ceil] and [Math.round] on a finite number.  [Math.round] takes ties
    towards plus infinity, that is, floor (x + 1/2). *)
Definition Math_ceil (x : Q) : Z := Qceiling x.
Definition Math_round (x : Q) : Z := Qfloor (x + (1 # 2)).

(** ** RateLimiter  (route.ts, lines 12-46) *)

Definition RATE_LIMIT_WINDOW_MS : Z := 60000.
Definition RATE_LIMIT_MAX : nat := 5.

Record RateResult := { limited : bool; retryAfterSec : Z }.

(** [rateLimitStore.get(ip) ?? []] *)
Definition history (store : gmap string (list Z)) (ip : string) : list Z :=
  default [] (store !! ip).

(** [history.filter((t) => now - t < RATE_LIMIT_WINDOW_MS)] *)
Definition fresh_of (now : Z) (hist : list Z) : list Z :=
  filter (λ t, now - t < RATE_LIMIT_WINDOW_MS) hist.

(** [isRateLimited(ip)], with the clock reading [now] and the store made
    explicit.  The denied branch returns before [rateLimitStore.set], so the
    store comes back as it was; [filter] builds a new array, so the stored
    array is never mutated in place. *)
Definition isRateLimited (ip : string) (now : Z) (store : gmap string (list Z))
  : RateResult * gmap string (list Z) :=
  let fresh := fresh_of now (history store ip) in
  if decide (RATE_LIMIT_MAX ≤ length fresh)%nat then
    let oldest := default now (head fresh) in
    let retryAfterMs := Z.max 0 (RATE_LIMIT_WINDOW_MS - (now - oldest)) in
    ({| limited := true;
        retryAfterSec := Math_ceil (inject_Z retryAfterMs / inject_Z 1000) |},
     store)
  else
    ({| limited := false; retryAfterSec := 0 |},
     <[ip := fresh ++ [now]]> store).

(** A sequence of admission calls, each with its client id and clock reading,
    run from left to right; the results come back in call order. *)
Fixpoint admit_all (calls : list (string * Z)) (store : gmap string (list Z))
  : list RateResult * gmap string (list Z) :=
  match calls with
  | [] => ([], store)
  | (ip, now) :: rest =>
      let '(r, store1) := isRateLimited ip now store in
      let '(rs, store2) := admit_all rest store1 in
      (r :: rs, store2)
  end.

(** The clock readings of the calls made by [ip], in call order. *)
Definition times_of (ip : string) (calls : list (string * Z)) : list Z :=
  snd <$> filter (λ c, c.1 = ip) calls.

(** Every later reading of the sequence is less than one window after every
    earlier one: all attempts lie within one window. *)
Fixpoint within_one_window (ts : list Z) : Prop :=
  match ts with
  | [] => True
  | a :: rest => Forall (λ b, b - a < RATE_LIMIT_WINDOW_MS) rest ∧ within_one_window rest
  end.

(** Sample clients and a sample call sequence: seven attempts of one client
    within one window, with a call of another client in between. *)
Definition sample_ip : string := "203.0.113.7".
Definition other_ip : string := "198.51.100.2".
Definition sample_calls : list (string * Z) :=
  [ (sample_ip, 1000); (sample_ip, 2000); (other_ip, 2500); (sample_ip, 3000);
    (sample_ip, 4000); (sample_ip, 5000); (sample_ip, 6000); (sample_ip, 60999) ].

(** ** JSON values *)

Inductive jsnum := Finite (q : Q) | PosInfinity | NegInfinity.

(** [Math.round] on a number: the infinities are their own roundings. *)
Definition round_number (n : jsnum) : jsnum :=
  match n with
  | Finite q => Finite (inject_Z (Math_round q))
  | PosInfinity => PosInfinity
  | NegInfinity => NegInfinity
  end.

#[warnings="-register-all"]
Inductive json :=
| JNull
| JBool (b : bool)
| JNum (n : jsnum)
| JStr (s : string)
| JArr (items : list json)
| JObj (fields : list (string * json)).

(** [obj[key]] on the fields of an object, first match; [None] is
    [undefined]. *)
Fixpoint assoc {K A : Type} `{EqDecision K} (key : K) (fields : list (K * A)) : option A :=
  match fields with
  | [] => None
  | (k, v) :: rest => if decide (k = key) then Some v else assoc key rest
  end.

(** JavaScript truthiness of a value that may be [undefined]. *)
Definition truthy (v : option json) : bool :=
  match v with
  | None => false
  | Some JNull => false
  | Some (JBool b) => b
  | Some (JNum (Finite q)) => negb (Qeq_bool q 0)
  | Some (JNum _) => true
  | Some (JStr s) => negb (bool_decide (s = ""))
  | Some (JArr _) => true
  | Some (JObj _) => true
  end.

(** [a || b] *)
Definition js_or (a b : option json) : option json := if truthy a then a else b.

(** Truthiness of [string | null | undefined]: present and not empty. *)
Definition str_truthy (s : option string) : bool :=
  match s with
  | Some t => negb (bool_decide (t = ""))
  | None => false
  end.

(** What a [throw] carries: an [Error] instance with its message and stack,
    or some other value. *)
Inductive Thrown :=
| ErrorObject (message : string) (stack : option string)
| OtherValue.

(** Built-ins of the language run time that the routes call.  They are
    parameters of the model. *)
Class Runtime := {
  (** [JSON.parse(text)]; [inl e] when it throws. *)
  JSON_parse : string → Thrown + json;
  (** [new Date(v).toISOString()]; [inl e] when the date is invalid. *)
  Date_toISOString : option json → Thrown + string;
}.

(** ** Strings *)

(** [String(n)] for an integer. *)
Definition String_of_int (n : Z) : string := NilZero.string_of_int (Z.to_int n).

(** [s.split(sep)[0]]: the part before the first separator. *)
Fixpoint split_head (sep : Ascii.ascii) (s : string) : string :=
  match s with
  | EmptyString => EmptyString
  | String c rest => if decide (c = sep) then EmptyString else String c (split_head sep rest)
  end.

(** White space removed by [trim], among the code units below 256:
    tab, line feed, vertical tab, form feed, carriage return, space and
    no-break space. *)
Definition is_white_space (c : Ascii.ascii) : bool :=
  let n := Ascii.nat_of_ascii c in
  bool_decide (n = 9 ∨ n = 10 ∨ n = 11 ∨ n = 12 ∨ n = 13 ∨ n = 32 ∨ n = 160)%nat.

Fixpoint trim_start (s : string) : string :=
  match s with
  | EmptyString => EmptyString
  | String c rest => if is_white_space c then trim_start rest else s
  end.

Definition trim (s : string) : string :=
  String.rev (trim_start (String.rev (trim_start s))).

(** ** getClientIp  (route.ts, lines 16-30) *)

Record Request := {
  x_forwarded_for : option string;   (* request.headers.get('x-forwarded-for') *)
  x_real_ip : option string;         (* request.headers.get('x-real-ip') *)
  ip : option string;                (* (request as any).ip *)
  json_body : Thrown + json;         (* await request.json() *)
}.

Definition getClientIp (request : Request) : string :=
  let forwardedFor := x_forwarded_for request in
  let realIp := x_real_ip request in
  let maybeIp := ip request in
  let without_forwarded :=
    if str_truthy realIp then trim (default "" realIp)
    else if str_truthy maybeIp then default "" maybeIp
    else "unknown" in
  if str_truthy forwardedFor then
    let first := trim (split_head ","%char (default "" forwardedFor)) in
    if str_truthy (Some first) then first else without_forwarded
  else without_forwarded.

(** ** Zod 3, as far as the two schemas use it  (lib/types.ts) *)

(** [ZodParsedType] of a JSON value or [undefined]. *)
Inductive ParsedType :=
| t_undefined | t_null | t_boolean | t_number | t_string | t_array | t_object.

Definition getParsedType (input : option json) : ParsedType :=
  match input with
  | None => t_undefined
  | Some JNull => t_null
  | Some (JBool _) => t_boolean
  | Some (JNum _) => t_number
  | Some (JStr _) => t_string
  | Some (JArr _) => t_array
  | Some (JObj _) => t_object
  end.

Inductive PathElem := PKey (key : string) | PIdx (index : nat).

#[global] Instance PathElem_eq_dec : EqDecision PathElem.
Proof. solve_decision. Defined.

(** What an enum schema reports as expected is the list of its values. *)
Inductive Expected := ExpType (t : ParsedType) | ExpOneOf (values : list string).

Inductive IssueCode :=
| invalid_type (expected : Expected) (received : ParsedType)
| invalid_enum_value (options : list string) (received : string)
| too_small (type : ParsedType) (minimum : Z)
| too_big (type : ParsedType) (maximum : Z).

(** An issue; [custom] is the message given to the check in the schema, if
    any. *)
Record Issue := { path : list PathElem; code : IssueCode; custom : option string }.

(** The message of an issue: the custom one, or the one the default error
    map renders from the code. *)
Inductive Message := CustomMessage (text : string) | DefaultMessage (c : IssueCode).

Definition issue_message (i : Issue) : Message :=
  match custom i with
  | Some text => CustomMessage text
  | None => DefaultMessage (code i)
  end.

(** The outcome of [safeParse]. *)
Inductive SafeParse (A : Type) :=
| ZOk (data : A)
| ZFail (issues : list Issue).
Arguments ZOk {A} data.
Arguments ZFail {A} issues.

(** A schema parses a value that may be [undefined]. *)
Definition Schema (A : Type) : Type := option json → SafeParse A.

Definition issue_here (c : IssueCode) (msg : option string) : Issue :=
  {| path := []; code := c; custom := msg |}.

(** Issues of a nested value get the key or index of that value in front of
    their path. *)
Definition at_path {A : Type} (p : PathElem) (r : SafeParse A) : SafeParse A :=
  match r with
  | ZOk a => ZOk a
  | ZFail issues =>
      ZFail ((λ i, {| path := p :: path i; code := code i; custom := custom i |}) <$> issues)
  end.

(** Results of sibling values are combined; the issues of all of them are
    kept, in order. *)
Definition zap {A B : Type} (f : SafeParse (A → B)) (x : SafeParse A) : SafeParse B :=
  match f, x with
  | ZOk g, ZOk a => ZOk (g a)
  | ZOk _, ZFail i => ZFail i
  | ZFail i, ZOk _ => ZFail i
  | ZFail i, ZFail j => ZFail (i ++ j)
  end.

(** Comparison of a number with an integer bound. *)
Definition num_lt (n : jsnum) (bound : Z) : bool :=
  match n with
  | Finite q => negb (Qle_bool (inject_Z bound) q)
  | PosInfinity => false
  | NegInfinity => true
  end.

Definition num_gt (n : jsnum) (bound : Z) : bool :=
  match n with
  | Finite q => negb (Qle_bool q (inject_Z bound))
  | PosInfinity => true
  | NegInfinity => false
  end.

(** [.min(value, message)] and [.max(value, message)], both inclusive. *)
Inductive Check := Min (value : Z) (message : option string) | Max (value : Z) (message : option string).

Definition number_check (n : jsnum) (c : Check) : option Issue :=
  match c with
  | Min value msg => if num_lt n value then Some (issue_here (too_small t_number value) msg) else None
  | Max value msg => if num_gt n value then Some (issue_here (too_big t_number value) msg) else None
  end.

Definition string_check (s : string) (c : Check) : option Issue :=
  match c with
  | Min value msg =>
      if decide (Z.of_nat (String.length s) < value)
      then Some (issue_here (too_small t_string value) msg) else None
  | Max value msg =>
      if decide (value < Z.of_nat (String.length s))
      then Some (issue_here (too_big t_string value) msg) else None
  end.

Definition checked {A : Type} (a : A) (issues : list Issue) : SafeParse A :=
  match issues with
  | [] => ZOk a
  | _ => ZFail issues
  end.

(** [z.number()] with its checks: a value that is not a number is reported
    as such and the checks are skipped; otherwise every failing check adds
    its issue. *)
Definition z_number (checks : list Check) : Schema jsnum := λ input,
  match input with
  | Some (JNum n) => checked n (omap (number_check n) checks)
  | _ => ZFail [issue_here (invalid_type (ExpType t_number) (getParsedType input)) None]
  end.

(** [z.string()] with its checks; the length is [.length]. *)
Definition z_string (checks : list Check) : Schema string := λ input,
  match input with
  | Some (JStr s) => checked s (omap (string_check s) checks)
  | _ => ZFail [issue_here (invalid_type (ExpType t_string) (getParsedType input)) None]
  end.

(** [z.enum(values)] *)
Definition z_enum (values : list string) : Schema string := λ input,
  match input with
  | Some (JStr s) =>
      if bool_decide (s ∈ values) then ZOk s
      else ZFail [issue_here (invalid_enum_value values s) None]
  | _ => ZFail [issue_here (invalid_type (ExpOneOf values) (getParsedType input)) None]
  end.

(** The elements of an array, parsed from index [i] on. *)
Fixpoint parse_items {A : Type} (element : Schema A) (i : nat) (items : list json)
  : SafeParse (list A) :=
  match items with
  | [] => ZOk []
  | x :: rest =>
      zap (zap (ZOk cons) (at_path (PIdx i) (element (Some x))))
          (parse_items element (S i) rest)
  end.

(** [z.array(element)], without a length check. *)
Definition z_array {A : Type} (element : Schema A) : Schema (list A) := λ input,
  match input with
  | Some (JArr items) => parse_items element 0 items
  | _ => ZFail [issue_here (invalid_type (ExpType t_array) (getParsedType input)) None]
  end.

(** [inner.default(value)]: [undefined] is replaced by the default before
    [inner] parses it. *)
Definition z_default {A : Type} (inner : Schema A) (value : json) : Schema A := λ input,
  match input with
  | None => inner (Some value)
  | Some _ => inner input
  end.

(** [z.object(shape)]: the input must be an object; then every key of the
    shape is parsed, a missing key as [undefined]. *)
Definition z_object {A : Type} (shape : list (string * json) → SafeParse A) : Schema A := λ input,
  match input with
  | Some (JObj fields) => shape fields
  | _ => ZFail [issue_here (invalid_type (ExpType t_object) (getParsedType input)) None]
  end.

Definition field {A : Type} (key : string) (s : Schema A) (fields : list (string * json))
  : SafeParse A :=
  at_path (PKey key) (s (assoc key fields)).

(** [error.flatten()]: the messages of the issues, those with an empty path
    under [formErrors], the others grouped by the first element of their
    path. *)
Record FlattenedError := {
  formErrors : list Message;
  fieldErrors : list (PathElem * list Message);
}.

Fixpoint push_message (k : PathElem) (m : Message) (groups : list (PathElem * list Message))
  : list (PathElem * list Message) :=
  match groups with
  | [] => [(k, [m])]
  | (k', ms) :: rest =>
      if decide (k' = k) then (k', ms ++ [m]) :: rest
      else (k', ms) :: push_message k m rest
  end.

Definition flatten_add (acc : FlattenedError) (sub : Issue) : FlattenedError :=
  match path sub with
  | [] => {| formErrors := formErrors acc ++ [issue_message sub];
             fieldErrors := fieldErrors acc |}
  | k :: _ => {| formErrors := formErrors acc;
                 fieldErrors := push_message k (issue_message sub) (fieldErrors acc) |}
  end.

Definition flatten (issues : list Issue) : FlattenedError :=
  foldl flatten_add {| formErrors := []; fieldErrors := [] |} issues.

(** The issues of an outcome; none when it is a success. *)
Definition issues_of {A : Type} (r : SafeParse A) : list Issue :=
  match r with
  | ZOk _ => []
  | ZFail issues => issues
  end.

(** The messages [flatten] files under the key [k]: those of the issues
    whose path starts with [k]. *)
Definition messages_under (k : PathElem) (issues : list Issue) : list Message :=
  issue_message <$> filter (λ i, head (path i) = Some k) issues.

(** *** The schemas *)

Record ReviewFormData := { form_rating : jsnum; form_review : string }.

Definition ReviewFormSchema : Schema ReviewFormData :=
  z_object (λ fields,
    zap (zap (ZOk Build_ReviewFormData)
      (field "rating"
         (z_number [Min 1 (Some "Rating must be at least 1");
                    Max 5 (Some "Rating must be at most 5")]) fields))
      (field "review"
         (z_string [Min 5 (Some "Review must be at least 5 characters");
                    Max 1000 (Some "Review must be at most 1000 characters")]) fields)).

Definition AllowedTags : list string :=
  ["Quality"; "Price"; "Service"; "Delivery"; "App Experience"].

Definition AllowedTagSchema : Schema string := z_enum AllowedTags.

Record AIResponse := {
  response : string;
  summary : string;
  action : string;
  sentiment_score : jsnum;
  tags : list string;
}.

Definition AIResponseSchema : Schema AIResponse :=
  z_object (λ fields,
    zap (zap (zap (zap (zap (ZOk Build_AIResponse)
      (field "response" (z_string [Min 1 None]) fields))
      (field "summary" (z_string [Min 1 None]) fields))
      (field "action" (z_string [Min 1 None]) fields))
      (field "sentiment_score" (z_number [Min 0 None; Max 100 None]) fields))
      (field "tags" (z_default (z_array AllowedTagSchema) (JArr [])) fields)).

(** ** The world around a request *)

(** A stored review.  [rating] is the validated number as it came in. *)
Record ReviewDocument := {
  rating : jsnum;
  reviewText : string;
  ai_response : string;
  ai_summary : string;
  ai_action : string;
  ai_sentiment : jsnum;
  ai_tags : list string;
  latency_ms : Z;
  createdAt : Z;
}.

(** The object handed to [push]: the fields of the document, in the order of
    the object literal. *)
Definition document_fields (d : ReviewDocument) : list (string * json) :=
  [ ("rating", JNum (rating d));
    ("reviewText", JStr (reviewText d));
    ("ai_response", JStr (ai_response d));
    ("ai_summary", JStr (ai_summary d));
    ("ai_action", JStr (ai_action d));
    ("ai_sentiment", JNum (ai_sentiment d));
    ("ai_tags", JArr (JStr <$> ai_tags d));
    ("latency_ms", JNum (Finite (inject_Z (latency_ms d))));
    ("createdAt", JNum (Finite (inject_Z (createdAt d)))) ].

(** The entry of the report data set made from one stored record; a field
    the record lacks is [undefined]. *)
Record ReportEntry := {
  entry_rating : option json;
  entry_text : option json;
  entry_date : string;
  entry_sentiment : option json;
  entry_tags : option json;
}.

(** A prompt is a template literal: fixed text around interpolated values.
    It is represented by the interpolated values. *)
Inductive Prompt :=
| AnalyzePrompt (rating : jsnum) (review : string)
| ReportPrompt (count : nat) (dataset : list ReportEntry).

Inductive AIConfig :=
| StructuredOutput (responseMimeType : string) (responseSchema : json)
| FreeForm (temperature : Q) (maxOutputTokens : Z).

(** The argument of [client.models.generateContent]. *)
Record AIRequest := { model : string; contents : Prompt; config : AIConfig }.

(** What [console.error] is called with. *)
Inductive LogEntry :=
| LogParseFailure (text : string) (e : Thrown)
| LogInvalidStructure (details : FlattenedError)
| LogProcessingError (error : Thrown)
| LogReportError (error : Thrown).

(** The state the routes act on: the rate-limit map of the process, the
    children of the [reviews] node of the database in push order (each one
    an object, given by its fields), the console, and the calls made to the
    AI service. *)
Record World := {
  rateLimitStore : gmap string (list Z);
  reviews : list (list (string * json));
  console : list LogEntry;
  ai_calls : list AIRequest;
}.

Definition set_rateLimitStore (store : gmap string (list Z)) (w : World) : World :=
  {| rateLimitStore := store; reviews := reviews w; console := console w; ai_calls := ai_calls w |}.

Definition push_review (r : list (string * json)) (w : World) : World :=
  {| rateLimitStore := rateLimitStore w; reviews := reviews w ++ [r];
     console := console w; ai_calls := ai_calls w |}.

Definition console_error (e : LogEntry) (w : World) : World :=
  {| rateLimitStore := rateLimitStore w; reviews := reviews w;
     console := console w ++ [e]; ai_calls := ai_calls w |}.

Definition record_ai_call (r : AIRequest) (w : World) : World :=
  {| rateLimitStore := rateLimitStore w; reviews := reviews w;
     console := console w; ai_calls := ai_calls w ++ [r] |}.

(** What the outside decides during one request: the clock readings, the
    answer of the AI service ([inl e] when the call throws, otherwise
    [response.text], which may be [undefined]), and whether the database
    calls throw.  Of the two readings of [performance.now()] the route uses
    only their difference, which it computes in floating point: [elapsed] is
    the number that subtraction yields. *)
Record Env := {
  now_admission : Z;                               (* Date.now() in isRateLimited *)
  elapsed : Q;                                     (* performance.now() - start *)
  generateContent : AIRequest → Thrown + option string;
  now_created : Z;                                 (* Date.now() for createdAt *)
  getAdminDatabase_throws : option Thrown;
  push_throws : option Thrown;
  once_throws : option Thrown;
}.

(** ** Responses *)

Inductive BodyValue :=
| VBool (b : bool)
| VStr (s : string)
| VNum (n : Z)
| VFlattened (e : FlattenedError)
| VUndefined.

(** [NextResponse.json(body, {status, headers})]; the status is 200 when
    none is given.  A key whose value is [undefined] is left out when the
    body is serialised. *)
Record Response := {
  status : Z;
  headers : list (string * string);
  body : list (string * BodyValue);
}.

(** ** POST /api/review  (route.ts, lines 48-214) *)

(** The structured-output descriptor sent to the model (lines 87-119). *)
Definition responseSchema : json :=
  JObj [
    ("type", JStr "object");
    ("properties", JObj [
       ("response", JObj [
          ("type", JStr "string");
          ("description", JStr "A polite, empathetic reply to the customer (2-3 sentences)")]);
       ("summary", JObj [
          ("type", JStr "string");
          ("description", JStr "A concise summary in 10 words or fewer")]);
       ("action", JObj [
          ("type", JStr "string");
          ("description", JStr "A concrete, actionable step for the team (1 sentence)")]);
       ("sentiment_score", JObj [
          ("type", JStr "integer");
          ("description", JStr "Sentiment score from 0 (very negative) to 100 (very positive)");
          ("minimum", JNum (Finite 0));
          ("maximum", JNum (Finite 100))]);
       ("tags", JObj [
          ("type", JStr "array");
          ("description", JStr "Up to 3 relevant tags");
          ("items", JObj [
             ("type", JStr "string");
             ("enum", JArr (JStr <$> AllowedTags))]);
          ("maxItems", JNum (Finite 3))])]);
    ("required", JArr [JStr "response"; JStr "summary"; JStr "action";
                       JStr "sentiment_score"; JStr "tags"]) ].

(** The call made for a validated submission (lines 121-136). *)
Definition analysis_request (data : ReviewFormData) : AIRequest :=
  {| model := "gemini-3-flash-preview";
     contents := AnalyzePrompt (form_rating data) (form_review data);
     config := StructuredOutput "application/json" responseSchema |}.

Definition rate_limited_response (rl : RateResult) : Response :=
  {| status := 429;
     headers := [("Retry-After", String_of_int (retryAfterSec rl))];
     body := [ ("success", VBool false);
               ("error", VStr "Rate limit exceeded. Please try again shortly.");
               ("retryAfterSec", VNum (retryAfterSec rl)) ] |}.

Definition invalid_input_response (issues : list Issue) : Response :=
  {| status := 400;
     headers := [];
     body := [ ("success", VBool false);
               ("error", VStr "Invalid input");
               ("details", VFlattened (flatten issues)) ] |}.

Definition parsing_failed_response : Response :=
  {| status := 500;
     headers := [];
     body := [ ("success", VBool false);
               ("error", VStr "AI response parsing failed");
               ("details", VStr "No parsed content or valid text returned") ] |}.

Definition invalid_structure_response : Response :=
  {| status := 500;
     headers := [];
     body := [ ("success", VBool false);
               ("error", VStr "Invalid AI response structure") ] |}.

Definition success_response (aiData : AIResponse) : Response :=
  {| status := 200;
     headers := [];
     body := [ ("success", VBool true); ("message", VStr (response aiData)) ] |}.

(** The response of the [catch] block (lines 201-213). *)
Definition internal_error_response (error : Thrown) : Response :=
  {| status := 500;
     headers := [];
     body := [ ("success", VBool false);
               ("error", VStr "Internal server error");
               ("details", match error with
                           | ErrorObject message _ => VStr message
                           | OtherValue => VStr "Unknown error"
                           end);
               ("stack", match error with
                         | ErrorObject _ (Some stack) => VStr stack
                         | _ => VUndefined
                         end) ] |}.

(** The document built from a validated submission and a validated reply
    (lines 179-189); [aiData.tags ?? []] is [aiData.tags], which the schema
    always defines. *)
Definition review_document (data : ReviewFormData) (aiData : AIResponse)
    (latencyMs : Z) (now : Z) : ReviewDocument :=
  {| rating := form_rating data;
     reviewText := form_review data;
     ai_response := response aiData;
     ai_summary := summary aiData;
     ai_action := action aiData;
     ai_sentiment := round_number (sentiment_score aiData);
     ai_tags := tags aiData;
     latency_ms := latencyMs;
     createdAt := now |}.

Section Routes.
Context `{RT : Runtime}.

(** Lines 141-152: the text of the reply, parsed if there is any; a text
    that does not parse is logged and leaves [aiJson] undefined. *)
Definition parse_ai_text (text : option string) (w : World) : option json * World :=
  match text with
  | Some t =>
      if str_truthy text then
        match JSON_parse t with
        | inr v => (Some v, w)
        | inl e => (None, console_error (LogParseFailure t e) w)
        end
      else (None, w)
  | None => (None, w)
  end.

(** Lines 138-199 of the [try] block: what happens once the AI call has
    returned with [response.text = text]. *)
Definition after_reply (env : Env) (data : ReviewFormData) (text : option string) (w : World)
  : (Thrown + Response) * World :=
  let latencyMs := Z.max 0 (Math_round (elapsed env)) in
  let '(aiJson, w) := parse_ai_text text w in
  if negb (truthy aiJson) then (inr parsing_failed_response, w)
  else
    match AIResponseSchema aiJson with
    | ZFail issues =>
        (inr invalid_structure_response,
         console_error (LogInvalidStructure (flatten issues)) w)
    | ZOk aiData =>
        let reviewData := review_document data aiData latencyMs (now_created env) in
        match getAdminDatabase_throws env with
        | Some e => (inl e, w)
        | None =>
            match push_throws env with
            | Some e => (inl e, w)
            | None =>
                (inr (success_response aiData),
                 push_review (document_fields reviewData) w)
            end
        end
    end.

(** The body of the [try] block; [inl e] is a thrown [e]. *)
Definition POST_try (env : Env) (request : Request) (w : World)
  : (Thrown + Response) * World :=
  let ip := getClientIp request in
  let '(rl, store) := isRateLimited ip (now_admission env) (rateLimitStore w) in
  let w := set_rateLimitStore store w in
  if limited rl then (inr (rate_limited_response rl), w)
  else
    match json_body request with
    | inl e => (inl e, w)
    | inr body =>
        match ReviewFormSchema (Some body) with
        | ZFail issues => (inr (invalid_input_response issues), w)
        | ZOk data =>
            let w := record_ai_call (analysis_request data) w in
            match generateContent env (analysis_request data) with
            | inl e => (inl e, w)
            | inr text => after_reply env data text w
            end
        end
    end.

(** The route handler: the [try] block, and the [catch] block for whatever
    it throws. *)
Definition POST (env : Env) (request : Request) (w : World) : Response * World :=
  match POST_try env request w with
  | (inr resp, w') => (resp, w')
  | (inl error, w') =>
      (internal_error_response error, console_error (LogProcessingError error) w')
  end.

(** ** POST /api/generate-report  (route.ts, lines 223-308) *)

(** [.limitToLast(50)] on the children in key order. *)
Definition limitToLast (n : nat) (children : list (list (string * json)))
  : list (list (string * json)) :=
  drop (length children - n) children.

(** The callback of [.map] (lines 240-246); [inl e] when [toISOString]
    throws. *)
Definition simplify_review (r : list (string * json)) : Thrown + ReportEntry :=
  match Date_toISOString (js_or (assoc "createdAt" r) (assoc "timestamp" r)) with
  | inl e => inl e
  | inr iso =>
      inr {| entry_rating := assoc "rating" r;
             entry_text := js_or (assoc "reviewText" r) (assoc "review" r);
             entry_date := split_head "T"%char iso;
             entry_sentiment := assoc "ai_sentiment" r;
             entry_tags := assoc "ai_tags" r |}
  end.

(** [.map] over the records, stopping at the first callback that throws. *)
Fixpoint simplify_all (rs : list (list (string * json))) : Thrown + list ReportEntry :=
  match rs with
  | [] => inr []
  | r :: rest =>
      match simplify_review r with
      | inl e => inl e
      | inr entry =>
          match simplify_all rest with
          | inl e => inl e
          | inr entries => inr (entry :: entries)
          end
      end
  end.

Definition report_request (reviewsList : list ReportEntry) : AIRequest :=
  {| model := "gemini-3-flash-preview";
     contents := ReportPrompt (length reviewsList) reviewsList;
     config := FreeForm (4 # 10) 1000 |}.

Definition no_reviews_response : Response :=
  {| status := 404; headers := [];
     body := [ ("message", VStr "No reviews found to analyze.") ] |}.

Definition report_response (reportMarkdown : string) : Response :=
  {| status := 200; headers := []; body := [ ("report", VStr reportMarkdown) ] |}.

Definition report_error_response : Response :=
  {| status := 500; headers := []; body := [ ("error", VStr "Internal Server Error") ] |}.

Definition report_try (env : Env) (w : World) : (Thrown + Response) * World :=
  match getAdminDatabase_throws env with
  | Some e => (inl e, w)
  | None =>
      match once_throws env with
      | Some e => (inl e, w)
      | None =>
          let reviewsData := limitToLast 50 (reviews w) in
          match reviewsData with
          | [] => (inr no_reviews_response, w)
          | _ =>
              match simplify_all reviewsData with
              | inl e => (inl e, w)
              | inr reviewsList =>
                  let w := record_ai_call (report_request reviewsList) w in
                  match generateContent env (report_request reviewsList) with
                  | inl e => (inl e, w)
                  | inr text =>
                      let reportMarkdown :=
                        if str_truthy text then default "" text
                        else "Failed to generate report." in
                      (inr (report_response reportMarkdown), w)
                  end
              end
          end
      end
  end.

Definition report_POST (env : Env) (w : World) : Response * World :=
  match report_try env w with
  | (inr resp, w') => (resp, w')
  | (inl error, w') => (report_error_response, console_error (LogReportError error) w')
  end.

End Routes.

(** ** Stages of a submission, as conditions on a run *)

Section Stages.
Context `{RT : Runtime}.

(** The rate limiter lets the request through. *)
Definition admitted (env : Env) (request : Request) (w : World) : Prop :=
  limited (isRateLimited (getClientIp request) (now_admission env) (rateLimitStore w)).1 = false.

(** The request is let through, its body is [body], which validates to
    [data], and the AI call returns with [response.text = reply]. *)
Definition ai_replied (env : Env) (request : Request) (w : World)
    (body : json) (data : ReviewFormData) (reply : option string) : Prop :=
  admitted env request w
  ∧ json_body request = inr body
  ∧ ReviewFormSchema (Some body) = ZOk data
  ∧ generateContent env (analysis_request data) = inr reply.

(** Moreover the reply is a text that parses to the truthy value [aiJson]. *)
Definition reply_parsed (env : Env) (request : Request) (w : World)
    (body : json) (data : ReviewFormData) (text : string) (aiJson : json) : Prop :=
  ai_replied env request w body data (Some text)
  ∧ text ≠ ""
  ∧ JSON_parse text = inr aiJson
  ∧ truthy (Some aiJson) = true.

(** The world in which the AI call of an admitted, valid submission is
    made: the rate-limit map updated, the call recorded. *)
Definition world_at_call (env : Env) (request : Request) (w : World) (data : ReviewFormData)
  : World :=
  record_ai_call (analysis_request data)
    (set_rateLimitStore
       (isRateLimited (getClientIp request) (now_admission env) (rateLimitStore w)).2 w).

End Stages.

(** A number in the closed interval from 0 to 100. *)
Definition in_0_100 (x : jsnum) : Prop :=
  match x with
  | Finite q => (0 <= q)%Q ∧ (q <= 100)%Q
  | _ => False
  end.

(** ** The acceptance condition of the form schema

    A rating that is a finite number from 1 to 5, whole or not, and a review
    that is a string of 5 to 1000 code units. *)
Definition acceptable_rating (fields : list (string * json)) : Prop :=
  ∃ q, assoc "rating" fields = Some (JNum (Finite q)) ∧ (1 <= q)%Q ∧ (q <= 5)%Q.

Definition acceptable_review (fields : list (string * json)) : Prop :=
  ∃ s, assoc "review" fields = Some (JStr s) ∧ (5 ≤ String.length s ≤ 1000)%nat.

(** A body with a rating of two and a half, and one that breaks both
    limits. *)
Definition fractional_body : json :=
  JObj [ ("rating", JNum (Finite (5 # 2))); ("review", JStr "hello") ].

Definition bad_body : json :=
  JObj [ ("rating", JNum (Finite 0)); ("review", JStr "hell") ].

(** ** The acceptance condition as the specification words it

    "rating is an integer in [1,5]; text length in [5,1000]". *)
Definition is_integer (q : Q) : Prop := ∃ n : Z, (q == inject_Z n)%Q.

Definition spec_valid_submission (body : json) : Prop :=
  ∃ fields q s,
    body = JObj fields
    ∧ assoc "rating" fields = Some (JNum (Finite q))
    ∧ is_integer q ∧ (1 <= q)%Q ∧ (q <= 5)%Q
    ∧ assoc "review" fields = Some (JStr s)
    ∧ (5 ≤ String.length s ≤ 1000)%nat.

(** ** The report job as the specification words it

    "Fetch up to 50 most recent records; if none exist, return NoData.
    Normalize each into ReportInput shape": unless no record is stored, the
    AI service receives the normalised entries of the most recent records,
    50 of them at most. *)
Definition spec_report_normalises `{RT : Runtime} (env : Env) (w : World) : Prop :=
  reviews w ≠ [] →
  ∃ entries,
    length entries = (50 `min` length (reviews w))%nat
    ∧ ai_calls (report_POST env w).2 = ai_calls w ++ [report_request entries].

(** ** A run time and data for tests *)

(** [JSON.parse] given by a table of the texts it accepts; it throws on any
    other text. *)
Definition table_JSON_parse (table : list (string * json)) (text : string) : Thrown + json :=
  match assoc text table with
  | Some v => inr v
  | None => inl (ErrorObject "Unexpected token" None)
  end.

(** The last [width] decimal digits of a natural number. *)
Fixpoint padded (width : nat) (n : Z) : string :=
  match width with
  | O => EmptyString
  | S w => padded w (n / 10) +:+ String (Ascii.ascii_of_nat (48 + Z.to_nat (n mod 10))) EmptyString
  end.

(** Year, month and day of a day counted from 1 January 1970, in the
    proleptic Gregorian calendar. *)
Definition civil_from_days (days : Z) : Z * Z * Z :=
  let z := days + 719468 in
  let era := z / 146097 in
  let doe := z - era * 146097 in
  let yoe := (doe - doe / 1460 + doe / 36524 - doe / 146096) / 365 in
  let doy := doe - (365 * yoe + yoe / 4 - yoe / 100) in
  let mp := (5 * doy + 2) / 153 in
  let d := doy - (153 * mp + 2) / 5 + 1 in
  let m := if decide (mp < 10) then mp + 3 else mp - 9 in
  let y := yoe + era * 400 + (if decide (m ≤ 2) then 1 else 0) in
  (y, m, d).

(** [toISOString] of the date with time value [t], in milliseconds:
    [YYYY-MM-DDTHH:mm:ss.sssZ], the year with a sign and six digits outside
    0 to 9999. *)
Definition ISO_of_time (t : Z) : string :=
  let '(y, m, d) := civil_from_days (t / 86400000) in
  let ms := t mod 86400000 in
  let year := if decide (0 ≤ y ≤ 9999) then padded 4 y
              else (if decide (0 ≤ y) then "+" else "-") +:+ padded 6 (Z.abs y) in
  year +:+ "-" +:+ padded 2 m +:+ "-" +:+ padded 2 d
  +:+ "T" +:+ padded 2 (ms / 3600000) +:+ ":" +:+ padded 2 (ms / 60000 mod 60)
  +:+ ":" +:+ padded 2 (ms / 1000 mod 60) +:+ "." +:+ padded 3 (ms mod 1000) +:+ "Z".

(** [new Date(v).toISOString()] for a value that is no string and no
    object: a number is cut to an integer towards zero, [null] and [false]
    count as 0 and [true] as 1; [undefined], an infinity and a number beyond
    8.64e15 in size make an invalid date, on which [toISOString] throws a
    [RangeError].  Strings and objects, which [Date] parses as texts, are
    left out of this run time: it takes them as invalid. *)
Definition test_Date_toISOString (v : option json) : Thrown + string :=
  let invalid := inl (ErrorObject "Invalid time value" None) in
  let of_number (q : Q) :=
    let t := Z.quot (Qnum q) (Z.pos (Qden q)) in
    if decide (Z.abs t ≤ 8640000000000000) then
      if decide (Z.abs t = 8640000000000000 ∧ Z.rem (Qnum q) (Z.pos (Qden q)) ≠ 0)
      then invalid else inr (ISO_of_time t)
    else invalid in
  match v with
  | Some (JNum (Finite q)) => of_number q
  | Some JNull | Some (JBool false) => of_number 0%Q
  | Some (JBool true) => of_number 1%Q
  | _ => invalid
  end.

Definition test_runtime (table : list (string * json)) : Runtime :=
  {| JSON_parse := table_JSON_parse table; Date_toISOString := test_Date_toISOString |}.

Definition reply_with (score : Q) (tag_list : list string) : json :=
  JObj [ ("response", JStr "Thanks!");
         ("summary", JStr "Happy customer");
         ("action", JStr "None needed");
         ("sentiment_score", JNum (Finite score));
         ("tags", JArr (JStr <$> tag_list)) ].

Definition four_tags : list string := ["Quality"; "Price"; "Service"; "Delivery"].

Definition test_table : list (string * json) :=
  [ ("good reply", reply_with (916 # 10) ["Service"]);
    ("four tags", reply_with 92 four_tags);
    ("score 101", reply_with 101 ["Service"]) ].

Definition sample_body : json :=
  JObj [ ("rating", JNum (Finite 5)); ("review", JStr "Great service, very happy!") ].

Definition sample_data : ReviewFormData :=
  {| form_rating := Finite 5; form_review := "Great service, very happy!" |}.

Definition request_with (b : Thrown + json) : Request :=
  {| x_forwarded_for := Some "203.0.113.7, 10.0.0.1";
     x_real_ip := None;
     ip := None;
     json_body := b |}.

Definition sample_request : Request := request_with (inr sample_body).

Definition env_with (reply : Thrown + option string) : Env :=
  {| now_admission := 6000;
     elapsed := 2404 # 10;
     generateContent := λ _, reply;
     now_created := 6300;
     getAdminDatabase_throws := None;
     push_throws := None;
     once_throws := None |}.

Definition empty_world : World :=
  {| rateLimitStore := ∅; reviews := []; console := []; ai_calls := [] |}.

(** A world in which the sample client has used up its window. *)
Definition busy_world : World :=
  {| rateLimitStore := {[ sample_ip := [1000; 2000; 3000; 4000; 5000] ]};
     reviews := []; console := []; ai_calls := [] |}.

Definition sample_stack : string := "Error: upstream failed at generateContent (route.js:129)".

(** An operation of the submission route threw [e]: reading the body, the
    AI call, getting the database handle, or the push. *)
Definition thrown_by (env : Env) (request : Request) (e : Thrown) : Prop :=
  json_body request = inl e
  ∨ (∃ data, generateContent env (analysis_request data) = inl e)
  ∨ getAdminDatabase_throws env = Some e
  ∨ push_throws env = Some e.

(** An AI call that throws. *)
Definition upstream_error : Thrown := ErrorObject "upstream failed" (Some sample_stack).

(** Two stored records, the second with the legacy field names. *)
Definition legacy_world : World :=
  {| rateLimitStore := ∅;
     reviews :=
       [ [ ("rating", JNum (Finite 4)); ("reviewText", JStr "Nice app");
           ("createdAt", JNum (Finite 1736933400000));
           ("ai_sentiment", JNum (Finite 80)); ("ai_tags", JArr [JStr "App Experience"]) ];
         [ ("rating", JNum (Finite 2)); ("review", JStr "Late delivery");
           ("timestamp", JNum (Finite 1736933400000)) ] ];
     console := []; ai_calls := [] |}.

(** One stored record, complete but for its date. *)
Definition dateless_world : World :=
  {| rateLimitStore := ∅;
     reviews :=
       [ [ ("rating", JNum (Finite 3)); ("reviewText", JStr "Average, nothing special");
           ("ai_sentiment", JNum (Finite 50)); ("ai_tags", JArr [JStr "Quality"]) ] ];
     console := []; ai_calls := [] |}.

(** ** What the submission route stores

    The constraints a document meets when it comes out of the two schemas
    and the rounding. *)
Definition well_formed_document (d : ReviewDocument) : Prop :=
  (∃ q, rating d = Finite q ∧ (1 <= q)%Q ∧ (q <= 5)%Q)
  ∧ (5 ≤ String.length (reviewText d) ≤ 1000)%nat
  ∧ ai_response d ≠ "" ∧ ai_summary d ≠ "" ∧ ai_action d ≠ ""
  ∧ (∃ n : Z, ai_sentiment d = Finite (inject_Z n) ∧ 0 ≤ n ≤ 100)
  ∧ Forall (λ t, t ∈ AllowedTags) (ai_tags d)
  ∧ 0 ≤ latency_ms d.

(** Replies that are JSON but falsy, for tests. *)
Definition falsy_table : list (string * json) :=
  [ ("null", JNull); ("0", JNum (Finite 0)); ("false", JBool false) ].

(** A storage failure, and a request whose body cannot be read. *)
Definition storage_error : Thrown := ErrorObject "PERMISSION_DENIED" None.

Definition env_failing_push (reply : Thrown + option string) : Env :=
  {| now_admission := 6000;
     elapsed := 2404 # 10;
     generateContent := λ _, reply;
     now_created := 6300;
     getAdminDatabase_throws := None;
     push_throws := Some storage_error;
     once_throws := None |}.

Definition body_error : Thrown := ErrorObject "Unexpected end of JSON input" None.

(** ** Requests served one after the other *)

Section Serving.
Context `{RT : Runtime}.

(** The route handling a sequence of requests, each with what the outside
    decides for it; the responses come back in order. *)
Fixpoint serve_all (requests : list (Env * Request)) (w : World) : list Response * World :=
  match requests with
  | [] => ([], w)
  | (env, request) :: rest =>
      let '(resp, w1) := POST env request w in
      let '(resps, w2) := serve_all rest w1 in
      (resp :: resps, w2)
  end.

End Serving.

(** The admission call a request gives rise to. *)
Definition admission_call (er : Env * Request) : string * Z :=
  (getClientIp er.2, now_admission er.1).

(** Requests for tests: one that names no client at all, one whose
    [x-real-ip] is blank, and a run of six sample requests a second apart. *)
Definition anonymous_request : Request :=
  {| x_forwarded_for := None; x_real_ip := None; ip := None; json_body := inr sample_body |}.

Definition blank_real_ip_request : Request :=
  {| x_forwarded_for := None; x_real_ip := Some "  "; ip := Some "10.1.2.3";
     json_body := inr sample_body |}.

Definition env_at (now : Z) : Env :=
  {| now_admission := now;
     elapsed := 2404 # 10;
     generateContent := λ _, inr None;
     now_created := now;
     getAdminDatabase_throws := None;
     push_throws := None;
     once_throws := None |}.

Definition six_requests : list (Env * Request) :=
  [ (env_at 1000, request_with (inr bad_body));
    (env_at 2000, request_with (inl body_error));
    (env_at 3000, sample_request);
    (env_at 4000, sample_request);
    (env_at 5000, request_with (inr bad_body));
    (env_at 6000, sample_request) ].

(** ** The messages of the form schema

    What the form reports for a rating that is a finite number and a review
    that is a string. *)
Definition rating_messages (q : Q) : list Message :=
  if Qlt_le_dec q 1 then [CustomMessage "Rating must be at least 1"]
  else if Qlt_le_dec 5 q then [CustomMessage "Rating must be at most 5"]
  else [].

Definition review_messages (s : string) : list Message :=
  if decide (String.length s < 5)%nat then [CustomMessage "Review must be at least 5 characters"]
  else if decide (1000 < String.length s)%nat
       then [CustomMessage "Review must be at most 1000 characters"]
  else [].

(** A key with its messages, if there are any. *)
Definition group (key : string) (ms : list Message) : list (PathElem * list Message) :=
  match ms with
  | [] => []
  | _ => [(PKey key, ms)]
  end.

(** A rating of 7 with a review of 1001 characters. *)
Definition long_body : json :=
  JObj [ ("rating", JNum (Finite 7)); ("review", JStr (String.concat "" (replicate 1001 "x"))) ].

(** A world whose second record has neither [createdAt] nor [timestamp]. *)
Definition undated_world : World :=
  {| rateLimitStore := ∅;
     reviews :=
       [ [ ("rating", JNum (Finite 4)); ("reviewText", JStr "Nice app");
           ("createdAt", JNum (Finite 1736933400000)) ];
         [ ("rating", JNum (Finite 2)); ("reviewText", JStr "Late delivery") ] ];
     console := []; ai_calls := [] |}.

(** A document as the submission route stores it. *)
Definition sample_document : ReviewDocument :=
  {| rating := Finite 5;
     reviewText := "Great service, very happy!";
     ai_response := "Thanks!";
     ai_summary := "Happy customer";
     ai_action := "None needed";
     ai_sentiment := Finite 92;
     ai_tags := ["Service"];
     latency_ms := 240;
     createdAt := 6300 |}.

(** ** The admin page: reading stored reviews  (app/admin/page.tsx, the
    listener [handleData]) *)

Module Admin.

(** A review as the page holds it: the stored fields with the key of the
    record; every number is finite. *)
Record ReviewWithId := {
  id : string;
  rating : Q;
  reviewText : string;
  ai_response : string;
  ai_summary : string;
  ai_action : string;
  ai_sentiment : Q;
  ai_tags : list string;
  latency_ms : Q;
  createdAt : Q;
}.

(** [value && typeof value === 'object' ? value : {}]: objects and arrays
    pass, anything else becomes the empty object. *)
Definition toRecord (value : option json) : json :=
  match value with
  | Some (JObj fields) => JObj fields
  | Some (JArr items) => JArr items
  | _ => JObj []
  end.

(** [v.key] for the keys the page reads; an array has none of them. *)
Definition get (v : json) (key : string) : option json :=
  match v with
  | JObj fields => assoc key fields
  | _ => None
  end.

(** [typeof value === 'number' && Number.isFinite(value) ? value : fallback] *)
Definition getNumber (value : option json) (fallback : Q) : Q :=
  match value with
  | Some (JNum (Finite q)) => q
  | _ => fallback
  end.

(** [typeof value === 'string' ? value : fallback] *)
Definition getString (value : option json) (fallback : string) : string :=
  match value with
  | Some (JStr s) => s
  | _ => fallback
  end.

(** [Array.isArray(value) ? value.filter(v => typeof v === 'string') : []] *)
Definition getStringArray (value : option json) : list string :=
  match value with
  | Some (JArr items) =>
      omap (λ v, match v with JStr s => Some s | _ => None end) items
  | _ => []
  end.

(** The callback of [entries.map]: one stored entry, with its key, made into
    a review of the page. *)
Definition toReview (key : string) (value : json) : ReviewWithId :=
  let v := toRecord (Some value) in
  {| id := key;
     rating := getNumber (get v "rating") 0;
     reviewText := getString (get v "reviewText") (getString (get v "review") "");
     ai_response := getString (get v "ai_response") "";
     ai_summary := getString (get v "ai_summary") "";
     ai_action := getString (get v "ai_action") "";
     ai_sentiment := getNumber (get v "ai_sentiment") 0;
     ai_tags := getStringArray (get v "ai_tags");
     latency_ms := getNumber (get v "latency_ms") 0;
     createdAt := getNumber (get v "createdAt") (getNumber (get v "timestamp") 0) |}.

End Admin.

(** ** The database handle  (lib/firebaseAdmin.ts) *)

Module FirebaseAdmin.

(** What [getFirebaseAdmin] throws: one of its own three errors, or what a
    call inside it threw. *)
Inductive Failure :=
| DatabaseUrlNotSet
| ServiceAccountNotFound
| InvalidServiceAccountKey
| Raised (e : Thrown).

(** The double quote, code unit 34. *)
Definition double_quote : string := String (Ascii.ascii_of_nat 34) EmptyString.

Definition Failure_message (f : Failure) : option string :=
  match f with
  | DatabaseUrlNotSet =>
      Some "FIREBASE_DATABASE_URL is not set in environment variables"
  | ServiceAccountNotFound =>
      Some "Firebase service account not found. Create serviceAccountKey.json or set FIREBASE_SERVICE_ACCOUNT_KEY"
  | InvalidServiceAccountKey =>
      Some ("FIREBASE_SERVICE_ACCOUNT_KEY is invalid. Provide JSON string or base64-encoded JSON (optionally prefixed with "
            +:+ double_quote +:+ "base64:" +:+ double_quote +:+ ").")
  | Raised (ErrorObject message _) => Some message
  | Raised OtherValue => None
  end.

(** An initialised app, by the options it was initialised with: the service
    account its credential was made from, and the database URL. *)
Record App := { credential : json; databaseURL : string }.

(** [getDatabase(app)] *)
Record Database := { database_of : App }.

(** What the function calls outside the language: [cert], [initializeApp]
    and [getDatabase] of the Firebase SDK, each with [Some e] when it throws,
    and [Buffer.from(b64, 'base64').toString('utf8')] of Node, which decodes
    what it can and does not throw. *)
Class AdminSDK := {
  cert_throws : json → option Thrown;
  initializeApp_throws : App → option Thrown;
  getDatabase_throws : App → option Thrown;
  base64_to_utf8 : string → string;
}.

(** The process as the function sees it: the registry of apps ([getApps()]),
    the two environment variables, and the file [serviceAccountKey.json] in
    the working directory ([None] when [existsSync] is false, otherwise what
    [readFileSync] gives or throws). *)
Record Host := {
  apps : list App;
  FIREBASE_DATABASE_URL : option string;
  FIREBASE_SERVICE_ACCOUNT_KEY : option string;
  serviceAccountKey_json : option (Thrown + string);
}.

(** What [initializeApp(options)] does to the registry when it returns. *)
Definition register (a : App) (h : Host) : Host :=
  {| apps := apps h ++ [a];
     FIREBASE_DATABASE_URL := FIREBASE_DATABASE_URL h;
     FIREBASE_SERVICE_ACCOUNT_KEY := FIREBASE_SERVICE_ACCOUNT_KEY h;
     serviceAccountKey_json := serviceAccountKey_json h |}.

(** [s.startsWith(p) ? s.slice(p.length) : undefined] *)
Fixpoint strip_prefix (p s : string) : option string :=
  match p, s with
  | EmptyString, _ => Some s
  | String a p', String b s' => if decide (a = b) then strip_prefix p' s' else None
  | String _ _, EmptyString => None
  end.

(** [value.startsWith('base64:') ? value.slice('base64:'.length).trim() : value] *)
Definition base64_payload (value : string) : string :=
  match strip_prefix "base64:" value with
  | Some rest => trim rest
  | None => value
  end.

Section WithSDK.
Context `{RT : Runtime} `{SDK : AdminSDK}.

(** [parseServiceAccount] (lines 29-51): the trimmed text as JSON, else its
    base64 decoding as JSON, else the function's own error; what
    [JSON.parse] threw is dropped both times. *)
Definition parseServiceAccount (raw : string) : Failure + json :=
  let value := trim raw in
  match JSON_parse value with
  | inr account => inr account
  | inl _ =>
      let decoded := base64_to_utf8 (base64_payload value) in
      match JSON_parse decoded with
      | inr account => inr account
      | inl _ => inl InvalidServiceAccountKey
      end
  end.

(** Lines 53-62: the account from the file if there is one, else from the
    environment variable. *)
Definition load_serviceAccount (h : Host) : Failure + json :=
  match serviceAccountKey_json h with
  | Some (inl e) => inl (Raised e)
  | Some (inr text) =>
      match JSON_parse text with
      | inl e => inl (Raised e)
      | inr account => inr account
      end
  | None =>
      if str_truthy (FIREBASE_SERVICE_ACCOUNT_KEY h)
      then parseServiceAccount (default "" (FIREBASE_SERVICE_ACCOUNT_KEY h))
      else inl ServiceAccountNotFound
  end.

Definition getFirebaseAdmin (h : Host) : (Failure + (App * Database)) * Host :=
  match apps h with
  | app :: _ =>
      match getDatabase_throws app with
      | Some e => (inl (Raised e), h)
      | None => (inr (app, {| database_of := app |}), h)
      end
  | [] =>
      if negb (str_truthy (FIREBASE_DATABASE_URL h)) then (inl DatabaseUrlNotSet, h)
      else
        match load_serviceAccount h with
        | inl f => (inl f, h)
        | inr serviceAccount =>
            match cert_throws serviceAccount with
            | Some e => (inl (Raised e), h)
            | None =>
                let app := {| credential := serviceAccount;
                              databaseURL := default "" (FIREBASE_DATABASE_URL h) |} in
                match initializeApp_throws app with
                | Some e => (inl (Raised e), h)
                | None =>
                    let h := register app h in
                    match getDatabase_throws app with
                    | Some e => (inl (Raised e), h)
                    | None => (inr (app, {| database_of := app |}), h)
                    end
                end
            end
        end
  end.

Definition getAdminDatabase (h : Host) : (Failure + Database) * Host :=
  match getFirebaseAdmin h with
  | (inr (_, database), h') => (inr database, h')
  | (inl f, h') => (inl f, h')
  end.

End WithSDK.

End FirebaseAdmin.

(** The text of a service account with one key, and its base64 form. *)
Definition account_text (project : string) : string :=
  "{" +:+ FirebaseAdmin.double_quote +:+ "project_id" +:+ FirebaseAdmin.double_quote
  +:+ ":" +:+ FirebaseAdmin.double_quote +:+ project +:+ FirebaseAdmin.double_quote +:+ "}".

Definition account_table : list (string * json) :=
  [ (account_text "from-file", JObj [ ("project_id", JStr "from-file") ]);
    (account_text "from-env", JObj [ ("project_id", JStr "from-env") ]) ].

Definition base64_table : list (string * string) :=
  [ ("eyJwcm9qZWN0X2lkIjoiZnJvbS1lbnYifQ==", account_text "from-env");
    ("eyJwcm9qZWN0X2lkIjoiZnJvbS1maWxlIn0=", account_text "from-file") ].

(** An SDK for tests: [cert] takes an account that is an object, the other
    two calls do not throw, and the decoding is given by a table, any other
    text decoding to nothing that parses. *)
Definition test_sdk : FirebaseAdmin.AdminSDK :=
  {| FirebaseAdmin.cert_throws := λ account,
       match account with
       | JObj _ => None
       | _ => Some (ErrorObject "Service account must be an object" None)
       end;
     FirebaseAdmin.initializeApp_throws := λ _, None;
     FirebaseAdmin.getDatabase_throws := λ _, None;
     FirebaseAdmin.base64_to_utf8 := λ b64, default "" (assoc b64 base64_table) |}.

Definition host_with (file : option (Thrown + string)) (key : option string)
  : FirebaseAdmin.Host :=
  {| FirebaseAdmin.apps := [];
     FirebaseAdmin.FIREBASE_DATABASE_URL := Some "https://example.firebaseio.com";
     FirebaseAdmin.FIREBASE_SERVICE_ACCOUNT_KEY := key;
     FirebaseAdmin.serviceAccountKey_json := file |}.

(** ** Admitted attempts over a call sequence *)

(** The clock readings of the calls of [client] that were allowed, in call
    order. *)
Fixpoint admitted_times (client : string) (calls : list (string * Z))
    (store : gmap string (list Z)) : list Z :=
  match calls with
  | [] => []
  | (ip, now) :: rest =>
      let '(r, store1) := isRateLimited ip now store in
      if decide (ip = client) then
        if limited r then admitted_times client rest store1
        else now :: admitted_times client rest store1
      else admitted_times client rest store1
  end.

(** A clock that does not run backwards: no reading is less than an earlier
    one. *)
Fixpoint nondecreasing (ts : list Z) : Prop :=
  match ts with
  | [] => True
  | a :: rest => Forall (λ b, a ≤ b) rest ∧ nondecreasing rest
  end.

(** Eight attempts of the sample client spread over two minutes. *)
Definition spread_calls : list (string * Z) :=
  [ (sample_ip, 0); (sample_ip, 10000); (sample_ip, 20000); (other_ip, 25000);
    (sample_ip, 30000); (sample_ip, 40000); (sample_ip, 50000); (sample_ip, 65000);
    (sample_ip, 119000) ].

(** ** The admin page: tag counts and filters  (app/admin/page.tsx) *)

Module Dashboard.

(** [counts.set(tag, (counts.get(tag) ?? 0) + 1)] on a [Map], whose entries
    stay in the order in which their keys were first set. *)
Fixpoint bump (tag : string) (counts : list (string * nat)) : list (string * nat) :=
  match counts with
  | [] => [(tag, 1%nat)]
  | (k, n) :: rest =>
      if decide (k = tag) then (k, S n) :: rest else (k, n) :: bump tag rest
  end.

(** The body of the inner loop: the tag is trimmed, and skipped when nothing
    is left of it. *)
Definition count_tag (counts : list (string * nat)) (t : string) : list (string * nat) :=
  let tag := trim t in
  if negb (str_truthy (Some tag)) then counts else bump tag counts.

(** The two loops, over the reviews and over the tags of each. *)
Definition tag_counts (reviews : list Admin.ReviewWithId) : list (string * nat) :=
  foldl (λ counts review, foldl count_tag counts (Admin.ai_tags review)) [] reviews.

(** [Array.prototype.sort(compare)], which is stable: [a] stays before a
    later [b] unless [compare(a, b) > 0]. *)
Fixpoint insert_sorted {A : Type} (compare : A → A → Z) (a : A) (sorted : list A) : list A :=
  match sorted with
  | [] => [a]
  | b :: rest =>
      if decide (0 < compare a b) then b :: insert_sorted compare a rest
      else a :: sorted
  end.

Definition sort {A : Type} (compare : A → A → Z) (l : list A) : list A :=
  foldr (insert_sorted compare) [] l.

(** [(a, b) => b[1] - a[1]] *)
Definition by_count (a b : string * nat) : Z := Z.of_nat b.2 - Z.of_nat a.2.

(** [Array.from(counts.entries()).sort((a, b) => b[1] - a[1]).slice(0, 5)] *)
Definition topTags (reviews : list Admin.ReviewWithId) : list (string * nat) :=
  take 5 (sort by_count (tag_counts reviews)).

(** Counts in decreasing order. *)
Definition count_ge (a b : string * nat) : Prop := (b.2 ≤ a.2)%nat.

(** The callback of [reviews.filter]: a filter that is [null], empty or 0
    lets every review through. *)
Definition shown (filterTag : option string) (filterRating : option Q)
    (review : Admin.ReviewWithId) : bool :=
  if str_truthy filterTag
     && negb (bool_decide (default "" filterTag ∈ Admin.ai_tags review)) then false
  else if match filterRating with
          | Some r => negb (Qeq_bool r 0) && negb (Qeq_bool (Admin.rating review) r)
          | None => false
          end then false
  else true.

Definition filteredReviews (filterTag : option string) (filterRating : option Q)
    (reviews : list Admin.ReviewWithId) : list Admin.ReviewWithId :=
  filter (λ review, shown filterTag filterRating review = true) reviews.

(** How often a tag occurs among the tags of all the reviews, white space
    around a tag not counting. *)
Definition occurrences (tag : string) (reviews : list Admin.ReviewWithId) : nat :=
  length (filter (λ t, trim t = tag) (concat (Admin.ai_tags <$> reviews))).

(** The count a map holds for a tag, 0 when it has no such key. *)
Definition count_at (tag : string) (counts : list (string * nat)) : nat :=
  default 0%nat (assoc tag counts).

(** What the map holds at any point of the loops: no key twice, every key
    trimmed and not empty, every count at least 1. *)
Definition counts_ok (counts : list (string * nat)) : Prop :=
  NoDup counts.*1
  ∧ Forall (λ e, e.1 ≠ "" ∧ trim e.1 = e.1 ∧ (1 ≤ e.2)%nat) counts.

End Dashboard.

(** No white space at the start. *)
Definition clean_start (s : string) : Prop :=
  match s with
  | EmptyString => True
  | String c _ => is_white_space c = false
  end.

(** Three reviews for the page, the second with a tag in white space and a
    repeated tag. *)
Definition page_review (key : string) (stars : Q) (tags : list string) : Admin.ReviewWithId :=
  {| Admin.id := key; Admin.rating := stars; Admin.reviewText := "Great service, very happy!";
     Admin.ai_response := "Thank you!"; Admin.ai_summary := "Happy customer";
     Admin.ai_action := "Keep it up"; Admin.ai_sentiment := 92; Admin.ai_tags := tags;
     Admin.latency_ms := 850; Admin.createdAt := 1736933400000 |}.

Definition page_reviews : list Admin.ReviewWithId :=
  [ page_review "-Na" 5 ["Service"; "Price"];
    page_review "-Nb" 4 [" Service "; "Quality"; "Quality"];
    page_review "-Nc" 5 ["Delivery"; ""; "Service"] ].

(** ** The feedback form: handleSubmit  (app/page.tsx) *)

Module UserPage.

(** A text the page displays: a message of the form schema, or a value, be
    it a string of the page's own or what the server's answer held. *)
Inductive Text :=
| IssueMessage (m : Message)
| Value (v : option json).

(** The state [handleSubmit] reads and writes. *)
Record State := {
  rating : Q;                 (* 0 until a star is chosen *)
  review : string;
  isLoading : bool;
  isSuccess : bool;
  isError : bool;
  aiMessage : Text;
  errorMessage : Text;
  loadingText : string;
  displayedResponse : string;
}.

(** "Reset states", the first six setters. *)
Definition reset (s : State) : State :=
  {| rating := rating s; review := review s; isLoading := isLoading s;
     isSuccess := false; isError := false;
     aiMessage := Value (Some (JStr "")); errorMessage := Value (Some (JStr ""));
     loadingText := "Connecting to server..."; displayedResponse := "" |}.

Definition fail_with (message : Text) (s : State) : State :=
  {| rating := rating s; review := review s; isLoading := isLoading s;
     isSuccess := isSuccess s; isError := true;
     aiMessage := aiMessage s; errorMessage := message;
     loadingText := loadingText s; displayedResponse := displayedResponse s |}.

(** The branch of [data.success]: the message is kept and the form reset. *)
Definition succeed_with (message : option json) (s : State) : State :=
  {| rating := 0; review := ""; isLoading := isLoading s;
     isSuccess := true; isError := isError s;
     aiMessage := Value message; errorMessage := errorMessage s;
     loadingText := loadingText s; displayedResponse := displayedResponse s |}.

Definition setIsLoading (b : bool) (s : State) : State :=
  {| rating := rating s; review := review s; isLoading := b;
     isSuccess := isSuccess s; isError := isError s;
     aiMessage := aiMessage s; errorMessage := errorMessage s;
     loadingText := loadingText s; displayedResponse := displayedResponse s |}.

(** [{ rating, review }] *)
Definition formData (s : State) : json :=
  JObj [ ("rating", JNum (Finite (rating s))); ("review", JStr (review s)) ].

(** [data.key] for the keys the page reads, on an answer other than
    [null]; only an object has them. *)
Definition property (data : json) (key : string) : option json :=
  match data with
  | JObj fields => assoc key fields
  | _ => None
  end.

(** The rest of the [try] block once [response.json()] gave [data]; [None]
    when it throws, which [data.success] does on [null]. *)
Definition on_answer (data : json) (s : State) : option State :=
  match data with
  | JNull => None
  | _ =>
      if truthy (property data "success") then
        Some (succeed_with (property data "message") s)
      else
        Some (fail_with
                (Value (js_or (property data "error")
                          (Some (JStr "Failed to submit review")))) s)
  end.

(** [handleSubmit], given what [fetch] and [response.json()] yield for a
    body: the parsed answer, or [None] when either throws.  The result is
    the new state with the body that was sent, if one was; [None] when the
    handler itself throws, which reading [errors[0].message] does if there
    is no issue. *)
Definition handleSubmit (fetch : json → option json) (s : State)
  : option (State * option json) :=
  let s := reset s in
  let data := formData s in
  match ReviewFormSchema (Some data) with
  | ZFail issues =>
      match issues with
      | [] => None
      | first :: _ => Some (fail_with (IssueMessage (issue_message first)) s, None)
      end
  | ZOk _ =>
      let s := setIsLoading true s in
      let s := match fetch data ≫= (λ answer, on_answer answer s) with
               | Some s' => s'
               | None => fail_with (Value (Some (JStr "Network error. Please try again."))) s
               end in
      Some (setIsLoading false s, Some data)
  end.

(** The form is within the bounds of the schema. *)
Definition in_bounds (s : State) : Prop :=
  (1 <= rating s)%Q ∧ (rating s <= 5)%Q ∧ (5 ≤ String.length (review s) ≤ 1000)%nat.

End UserPage.

(** A server for tests: it answers a form of rating 5 with a success, any
    other with an error. *)
Definition test_fetch (body : json) : option json :=
  match body with
  | JObj (("rating", JNum (Finite q)) :: _) =>
      if Qeq_bool q 5
      then Some (JObj [ ("success", JBool true); ("message", JStr "Thank you!") ])
      else Some (JObj [ ("success", JBool false); ("error", JStr "Internal server error") ])
  | _ => None
  end.

Definition form_state (stars : Q) (text : string) : UserPage.State :=
  {| UserPage.rating := stars; UserPage.review := text;
     UserPage.isLoading := false; UserPage.isSuccess := false; UserPage.isError := false;
     UserPage.aiMessage := UserPage.Value (Some (JStr ""));
     UserPage.errorMessage := UserPage.Value (Some (JStr ""));
     UserPage.loadingText := "Connecting to server..."; UserPage.displayedResponse := "" |}.

(** * Properties *)

(** ** Arithmetic of the wait time *)

Lemma Math_ceil_pos (n : Z) : 0 < n → 0 < Math_ceil (inject_Z n / inject_Z 1000).
Proof.
  intros Hn. unfold Math_ceil.
  assert (Hq : (0 < inject_Z n / inject_Z 1000)%Q).
  { apply Qlt_shift_div_l; [reflexivity|].
    rewrite Qmult_0_l. change 0%Q with (inject_Z 0). rewrite <- Zlt_Qlt. exact Hn. }
  destruct (Z_lt_le_dec 0 (Qceiling (inject_Z n / inject_Z 1000))) as [|Hle]; [assumption|].
  exfalso. apply (Qlt_irrefl 0).
  eapply Qlt_le_trans; [exact Hq|].
  eapply Qle_trans; [apply Qle_ceiling|].
  change 0%Q with (inject_Z 0). rewrite <- Zle_Qle. exact Hle.
Qed.

Lemma Math_ceil_nonpos (n : Z) : n ≤ 0 → Math_ceil (inject_Z n / inject_Z 1000) ≤ 0.
Proof.
  intros Hn. unfold Math_ceil.
  rewrite <- (Qceiling_Z 0).
  apply Qceiling_resp_le.
  apply Qle_shift_div_r; [reflexivity|].
  rewrite Qmult_0_l. change 0%Q with (inject_Z 0). rewrite <- Zle_Qle. exact Hn.
Qed.

Lemma Math_ceil_clamp (n : Z) :
  Math_ceil (inject_Z (Z.max 0 n) / inject_Z 1000)
  = Z.max 0 (Math_ceil (inject_Z n / inject_Z 1000)).
Proof.
  destruct (Z_lt_le_dec 0 n) as [Hpos|Hneg].
  - rewrite (Z.max_r 0 n) by lia.
    pose proof (Math_ceil_pos n Hpos). lia.
  - rewrite (Z.max_l 0 n) by lia.
    pose proof (Math_ceil_nonpos n Hneg).
    rewrite Z.max_l by lia. reflexivity.
Qed.

(** ** The sliding window *)

Lemma fresh_of_all_fresh (now : Z) (l : list Z) :
  Forall (λ t, now - t < RATE_LIMIT_WINDOW_MS) l → fresh_of now l = l.
Proof.
  unfold fresh_of. induction 1 as [|t l Ht _ IH]; [done|].
  rewrite filter_cons_True by done. by rewrite IH.
Qed.

Lemma fresh_of_all_stale (now : Z) (l : list Z) :
  Forall (λ t, RATE_LIMIT_WINDOW_MS ≤ now - t) l → fresh_of now l = [].
Proof.
  unfold fresh_of. induction 1 as [|t l Ht _ IH]; [done|].
  rewrite filter_cons_False by lia. exact IH.
Qed.

Lemma fresh_of_app (now : Z) (l1 l2 : list Z) :
  fresh_of now (l1 ++ l2) = fresh_of now l1 ++ fresh_of now l2.
Proof. apply filter_app. Qed.

Lemma fresh_of_Forall (now : Z) (l : list Z) :
  Forall (λ t, now - t < RATE_LIMIT_WINDOW_MS) (fresh_of now l).
Proof.
  apply Forall_forall. intros t Ht.
  apply list_elem_of_filter in Ht. tauto.
Qed.

Lemma fresh_of_length (now : Z) (l : list Z) :
  (length (fresh_of now l) ≤ length l)%nat.
Proof. apply length_filter. Qed.

(** The decision and the effect of one call, read off the code. *)
Lemma isRateLimited_denied (ip : string) (now : Z) (store : gmap string (list Z)) :
  (RATE_LIMIT_MAX ≤ length (fresh_of now (history store ip)))%nat →
  isRateLimited ip now store =
    ({| limited := true;
        retryAfterSec :=
          Math_ceil (inject_Z (Z.max 0 (RATE_LIMIT_WINDOW_MS
             - (now - default now (head (fresh_of now (history store ip))))))
             / inject_Z 1000) |}, store).
Proof. intros H. unfold isRateLimited. by rewrite decide_True. Qed.

Lemma isRateLimited_allowed (ip : string) (now : Z) (store : gmap string (list Z)) :
  (length (fresh_of now (history store ip)) < RATE_LIMIT_MAX)%nat →
  isRateLimited ip now store =
    ({| limited := false; retryAfterSec := 0 |},
     <[ip := fresh_of now (history store ip) ++ [now]]> store).
Proof. intros H. unfold isRateLimited. rewrite decide_False; [done|lia]. Qed.

Lemma isRateLimited_limited_iff (ip : string) (now : Z) (store : gmap string (list Z)) :
  limited (isRateLimited ip now store).1
  = bool_decide (RATE_LIMIT_MAX ≤ length (fresh_of now (history store ip)))%nat.
Proof.
  unfold isRateLimited. case_decide.
  - by rewrite bool_decide_eq_true_2.
  - by rewrite bool_decide_eq_false_2.
Qed.

Lemma isRateLimited_retry_pos (ip : string) (now : Z) (store : gmap string (list Z)) :
  limited (isRateLimited ip now store).1 = true →
  0 < retryAfterSec (isRateLimited ip now store).1.
Proof.
  unfold isRateLimited. case_decide as Hlen; [|done]. intros _. simpl.
  pose proof (fresh_of_Forall now (history store ip)) as Hfresh.
  destruct (fresh_of now (history store ip)) as [|oldest rest]; [simpl in Hlen; unfold RATE_LIMIT_MAX in Hlen; lia|].
  simpl. apply Forall_cons_1 in Hfresh as [Hold _].
  apply Math_ceil_pos. lia.
Qed.

Lemma history_insert_eq (ip : string) (l : list Z) (store : gmap string (list Z)) :
  history (<[ip := l]> store) ip = l.
Proof. unfold history. by rewrite lookup_insert_eq. Qed.

Lemma history_insert_ne (ip ip' : string) (l : list Z) (store : gmap string (list Z)) :
  ip ≠ ip' → history (<[ip := l]> store) ip' = history store ip'.
Proof. intros H. unfold history. by rewrite lookup_insert_ne. Qed.

(** A denial hands the store back as it was given. *)
Lemma isRateLimited_denied_store (ip : string) (now : Z) (store : gmap string (list Z)) :
  limited (isRateLimited ip now store).1 = true → (isRateLimited ip now store).2 = store.
Proof. unfold isRateLimited. by case_decide. Qed.

Lemma isRateLimited_other (ip ip' : string) (now : Z) (store : gmap string (list Z)) :
  ip' ≠ ip → (isRateLimited ip now store).2 !! ip' = store !! ip'.
Proof.
  intros Hne. unfold isRateLimited. case_decide; [done|].
  simpl. by rewrite lookup_insert_ne.
Qed.

Lemma isRateLimited_history_other (ip ip' : string) (now : Z) (store : gmap string (list Z)) :
  ip' ≠ ip → history (isRateLimited ip now store).2 ip' = history store ip'.
Proof. intros Hne. unfold history. by rewrite isRateLimited_other. Qed.

Lemma admit_all_cons (ip : string) (now : Z) (rest : list (string * Z))
    (store : gmap string (list Z)) :
  admit_all ((ip, now) :: rest) store
  = ((isRateLimited ip now store).1 :: (admit_all rest (isRateLimited ip now store).2).1,
     (admit_all rest (isRateLimited ip now store).2).2).
Proof.
  simpl. destruct (isRateLimited ip now store) as [r s1]. simpl.
  by destruct (admit_all rest s1).
Qed.

Lemma times_of_cons_eq (ip : string) (now : Z) (rest : list (string * Z)) :
  times_of ip ((ip, now) :: rest) = now :: times_of ip rest.
Proof. unfold times_of. by rewrite filter_cons_True. Qed.

Lemma times_of_cons_ne (ip ip' : string) (now : Z) (rest : list (string * Z)) :
  ip' ≠ ip → times_of ip ((ip', now) :: rest) = times_of ip rest.
Proof. intros H. unfold times_of. by rewrite filter_cons_False. Qed.

(** The admission decisions along a call sequence.  The stored history of
    [ip] splits into a part that is stale at every later call of [ip] and a
    part that is fresh at every one of them; the decision at call [i] then
    only depends on how many calls [ip] made before it. *)
Lemma admit_all_window (ip : string) (calls : list (string * Z)) :
  ∀ (store : gmap string (list Z)) (stale recent : list Z),
  history store ip = stale ++ recent →
  Forall (λ h, Forall (λ t, RATE_LIMIT_WINDOW_MS ≤ t - h) (times_of ip calls)) stale →
  Forall (λ h, Forall (λ t, t - h < RATE_LIMIT_WINDOW_MS) (times_of ip calls)) recent →
  within_one_window (times_of ip calls) →
  ∀ (i : nat) (now : Z) (r : RateResult),
    calls !! i = Some (ip, now) →
    (admit_all calls store).1 !! i = Some r →
    limited r
    = bool_decide (RATE_LIMIT_MAX ≤ length recent + length (times_of ip (take i calls)))%nat
    ∧ (limited r = true → 0 < retryAfterSec r).
Proof.
  induction calls as [|[ip' now'] rest IH]; intros store stale recent Hh Hst Hre Hw i now r Hi Hr.
  { by rewrite lookup_nil in Hi. }
  rewrite admit_all_cons in Hr. simpl in Hr.
  destruct (decide (ip' = ip)) as [->|Hne].
  - rewrite times_of_cons_eq in Hst, Hre, Hw. destruct Hw as [Hw1 Hw2].
    assert (Hfresh : fresh_of now' (history store ip) = recent).
    { rewrite Hh, fresh_of_app, fresh_of_all_stale, fresh_of_all_fresh; [done| |].
      - eapply Forall_impl; [exact Hre|]. intros h Hf. by apply Forall_cons_1 in Hf as [? _].
      - eapply Forall_impl; [exact Hst|]. intros h Hf. by apply Forall_cons_1 in Hf as [? _]. }
    assert (Hst' : Forall (λ h, Forall (λ t, RATE_LIMIT_WINDOW_MS ≤ t - h) (times_of ip rest)) stale).
    { eapply Forall_impl; [exact Hst|]. intros h Hf. by apply Forall_cons_1 in Hf as [_ ?]. }
    assert (Hre' : Forall (λ h, Forall (λ t, t - h < RATE_LIMIT_WINDOW_MS) (times_of ip rest)) recent).
    { eapply Forall_impl; [exact Hre|]. intros h Hf. by apply Forall_cons_1 in Hf as [_ ?]. }
    destruct i as [|j].
    + simpl in Hi, Hr. injection Hi as ->. injection Hr as <-. split.
      * rewrite isRateLimited_limited_iff, Hfresh. simpl.
        by rewrite Nat.add_0_r.
      * apply isRateLimited_retry_pos.
    + simpl in Hi, Hr.
      change (take (S j) ((ip, now') :: rest)) with ((ip, now') :: take j rest).
      rewrite times_of_cons_eq. simpl length.
      destruct (decide (RATE_LIMIT_MAX ≤ length recent)%nat) as [Hfull|Hroom].
      * rewrite isRateLimited_denied in Hr by (by rewrite Hfresh). simpl in Hr.
        destruct (IH store stale recent Hh Hst' Hre' Hw2 j now r Hi Hr) as [Hl Hp].
        split; [|exact Hp].
        rewrite Hl. rewrite !bool_decide_eq_true_2; [done|lia|lia].
      * rewrite isRateLimited_allowed in Hr by (rewrite Hfresh; lia). simpl in Hr.
        rewrite Hfresh in Hr.
        destruct (IH (<[ip := recent ++ [now']]> store) [] (recent ++ [now'])) with (i := j) (now := now) (r := r)
          as [Hl Hp]; try done.
        { by rewrite history_insert_eq. }
        { apply Forall_app. split; [exact Hre'|]. by apply Forall_singleton. }
        split; [|exact Hp].
        rewrite Hl, length_app. simpl. apply bool_decide_ext. lia.
  - rewrite times_of_cons_ne in Hst, Hre, Hw by done.
    destruct i as [|j]; simpl in Hi, Hr.
    { simplify_eq. }
    change (take (S j) ((ip', now') :: rest)) with ((ip', now') :: take j rest).
    rewrite times_of_cons_ne by done.
    apply (IH (isRateLimited ip' now' store).2 stale recent) with (now := now); try done.
    by rewrite isRateLimited_history_other.
Qed.

(** Every timestamp stored for [ip] after a call sequence was stored before
    it or is the clock reading of one of the calls of [ip]. *)
Lemma admit_all_history_origin (ip : string) (calls : list (string * Z)) :
  ∀ (store : gmap string (list Z)) (t : Z),
  t ∈ history (admit_all calls store).2 ip →
  t ∈ history store ip ∨ t ∈ times_of ip calls.
Proof.
  induction calls as [|[ip' now'] rest IH]; intros store t Ht; [by left|].
  rewrite admit_all_cons in Ht. simpl in Ht.
  apply IH in Ht as [Ht|Ht].
  - destruct (decide (ip' = ip)) as [->|Hne].
    + rewrite times_of_cons_eq. unfold isRateLimited in Ht.
      case_decide; simpl in Ht; [by left|].
      rewrite history_insert_eq in Ht.
      apply elem_of_app in Ht as [Ht|Ht].
      * left. apply list_elem_of_filter in Ht. tauto.
      * right. apply list_elem_of_singleton in Ht. subst. left.
    + left. by rewrite isRateLimited_history_other in Ht.
  - right. destruct (decide (ip' = ip)) as [->|Hne].
    + rewrite times_of_cons_eq. by right.
    + by rewrite times_of_cons_ne.
Qed.

(** A stored history never grows beyond the maximum. *)
Lemma isRateLimited_length (ip ip' : string) (now : Z) (store : gmap string (list Z)) :
  (length (history store ip') ≤ RATE_LIMIT_MAX)%nat →
  (length (history (isRateLimited ip now store).2 ip') ≤ RATE_LIMIT_MAX)%nat.
Proof.
  intros Hlen. destruct (decide (ip' = ip)) as [->|Hne].
  - unfold isRateLimited. case_decide as Hd; simpl; [done|].
    rewrite history_insert_eq, length_app. simpl. lia.
  - by rewrite isRateLimited_history_other.
Qed.

Lemma admit_all_length (ip' : string) (calls : list (string * Z)) :
  ∀ store : gmap string (list Z),
  (length (history store ip') ≤ RATE_LIMIT_MAX)%nat →
  (length (history (admit_all calls store).2 ip') ≤ RATE_LIMIT_MAX)%nat.
Proof.
  induction calls as [|[ip now] rest IH]; intros store Hlen; [done|].
  rewrite admit_all_cons. simpl. apply IH. by apply isRateLimited_length.
Qed.

Lemma admit_all_app (calls1 calls2 : list (string * Z)) :
  ∀ store : gmap string (list Z),
  admit_all (calls1 ++ calls2) store
  = ((admit_all calls1 store).1 ++ (admit_all calls2 (admit_all calls1 store).2).1,
     (admit_all calls2 (admit_all calls1 store).2).2).
Proof.
  induction calls1 as [|[ip now] rest IH]; intros store.
  - simpl. by destruct (admit_all calls2 store).
  - rewrite <- app_comm_cons, !admit_all_cons, IH. reflexivity.
Qed.

Lemma filter_full_length {A} (P : A → Prop) `{!∀ x, Decision (P x)} (l : list A) :
  (length l ≤ length (filter P l))%nat → Forall P l.
Proof.
  induction l as [|x l IH]; intros Hlen; [constructor|].
  destruct (decide (P x)) as [Hx|Hx].
  - rewrite filter_cons_True in Hlen by done. simpl in Hlen.
    constructor; [done|]. apply IH. lia.
  - rewrite filter_cons_False in Hlen by done. simpl in Hlen.
    pose proof (length_filter P l). lia.
Qed.

(** Right after a call, everything stored for the calling client is fresh,
    provided its history was within the maximum before. *)
Lemma isRateLimited_all_fresh (ip : string) (now : Z) (store : gmap string (list Z)) :
  (length (history store ip) ≤ RATE_LIMIT_MAX)%nat →
  Forall (λ t, now - t < RATE_LIMIT_WINDOW_MS) (history (isRateLimited ip now store).2 ip).
Proof.
  intros Hlen. unfold isRateLimited. case_decide as Hd; simpl.
  - apply (filter_full_length (λ t, now - t < RATE_LIMIT_WINDOW_MS)).
    unfold fresh_of in Hd. lia.
  - rewrite history_insert_eq. apply Forall_app. split; [apply fresh_of_Forall|].
    apply Forall_singleton. unfold RATE_LIMIT_WINDOW_MS. lia.
Qed.

(** One call reads and writes the caller's entry only. *)
Lemma isRateLimited_local (ip : string) (now : Z) (s1 s2 : gmap string (list Z)) :
  history s1 ip = history s2 ip →
  (isRateLimited ip now s1).1 = (isRateLimited ip now s2).1
  ∧ history (isRateLimited ip now s1).2 ip = history (isRateLimited ip now s2).2 ip.
Proof.
  intros Heq. unfold isRateLimited. rewrite Heq.
  case_decide; simpl; [done|]. by rewrite !history_insert_eq.
Qed.

Lemma admit_all_project (ip : string) (calls : list (string * Z)) :
  ∀ s1 s2 : gmap string (list Z),
  history s1 ip = history s2 ip →
  history (admit_all calls s1).2 ip
  = history (admit_all (filter (λ c, c.1 = ip) calls) s2).2 ip.
Proof.
  induction calls as [|[ip' now] rest IH]; intros s1 s2 Heq; [done|].
  rewrite admit_all_cons. simpl.
  destruct (decide (ip' = ip)) as [->|Hne].
  - rewrite filter_cons_True by done. rewrite admit_all_cons. simpl.
    apply IH. by apply isRateLimited_local.
  - rewrite filter_cons_False by done.
    apply IH. by rewrite isRateLimited_history_other.
Qed.

(** ** Admission control *)

(** C1.  Let a client have only stale timestamps stored (or none), and let
    its attempts in a call sequence, possibly interleaved with calls of
    other clients, all lie within one 60,000 ms window.  Then the attempt
    that has k earlier attempts of the client before it is allowed when
    k < 5 and denied when k >= 5, and a denial carries a wait of at least one
    second.  Afterwards a call at a time by which the window has elapsed for
    every recorded timestamp is allowed again; elapsed includes the boundary
    [later - t = 60000], and a client whose oldest stored timestamp is
    exactly at the boundary is allowed. *)
Theorem admission_within_window (client : string) (calls : list (string * Z))
    (store : gmap string (list Z)) :
  Forall (λ h, Forall (λ t, RATE_LIMIT_WINDOW_MS ≤ t - h) (times_of client calls))
         (history store client) →
  within_one_window (times_of client calls) →
  (length (history store client) ≤ RATE_LIMIT_MAX)%nat →
  (∀ (i : nat) (now : Z) (r : RateResult),
      calls !! i = Some (client, now) →
      (admit_all calls store).1 !! i = Some r →
      limited r = bool_decide (5 ≤ length (times_of client (take i calls)))%nat
      ∧ (limited r = true → 0 < retryAfterSec r))
  ∧ (∀ later : Z,
      Forall (λ t, RATE_LIMIT_WINDOW_MS ≤ later - t)
             (history store client ++ times_of client calls) →
      (isRateLimited client later (admit_all calls store).2).1
      = {| limited := false; retryAfterSec := 0 |})
  ∧ (∀ later oldest : Z,
      head (history (admit_all calls store).2 client) = Some oldest →
      later - oldest = RATE_LIMIT_WINDOW_MS →
      (isRateLimited client later (admit_all calls store).2).1
      = {| limited := false; retryAfterSec := 0 |}).
Proof.
  intros Hstale Hwin Hlen. split; [|split].
  - intros i now r Hi Hr.
    destruct (admit_all_window client calls store (history store client) [])
      with (i := i) (now := now) (r := r) as [Hl Hp]; try done.
    { by rewrite app_nil_r. }
  - intros later Hlater.
    rewrite isRateLimited_allowed; [done|].
    rewrite fresh_of_all_stale; [simpl; unfold RATE_LIMIT_MAX; lia|].
    apply Forall_forall. intros t Ht.
    rewrite Forall_forall in Hlater. apply Hlater.
    apply elem_of_app. by apply admit_all_history_origin.
  - intros later oldest Hhead Hb.
    pose proof (admit_all_length client calls store Hlen) as Hlen'.
    rewrite isRateLimited_allowed; [done|].
    destruct (history (admit_all calls store).2 client) as [|t rest]; [done|].
    simpl in Hhead. injection Hhead as ->.
    unfold fresh_of. rewrite filter_cons_False by lia.
    pose proof (length_filter (λ t, later - t < RATE_LIMIT_WINDOW_MS) rest).
    simpl in Hlen'. lia.
Qed.

(** The sample sequence: attempts one to five of the sample client pass, the
    sixth and seventh do not, and at 61,000 ms, exactly one window after the
    first attempt, the client is let in again. *)
Lemma admission_within_window_witness :
  (admit_all sample_calls ∅).1 !! 5%nat = Some {| limited := false; retryAfterSec := 0 |}
  ∧ (∀ r, (admit_all sample_calls ∅).1 !! 6%nat = Some r →
       limited r = true ∧ 0 < retryAfterSec r)
  ∧ (isRateLimited sample_ip 61000 (admit_all sample_calls ∅).2).1
    = {| limited := false; retryAfterSec := 0 |}.
Proof.
  assert (H1 : Forall (λ h, Forall (λ t, RATE_LIMIT_WINDOW_MS ≤ t - h)
                         (times_of sample_ip sample_calls)) (history ∅ sample_ip))
    by constructor.
  assert (H2 : within_one_window (times_of sample_ip sample_calls)).
  { assert (Ht : times_of sample_ip sample_calls
                 = [1000; 2000; 3000; 4000; 5000; 6000; 60999])
      by (vm_compute; reflexivity).
    rewrite Ht. cbn [within_one_window]. unfold RATE_LIMIT_WINDOW_MS.
    split_and!; repeat (constructor; [lia|]); constructor. }
  assert (H3 : (length (history ∅ sample_ip) ≤ RATE_LIMIT_MAX)%nat).
  { vm_compute. lia. }
  destruct (admission_within_window sample_ip sample_calls ∅ H1 H2 H3) as (Ha & _ & Hc).
  split; [reflexivity|]. split.
  - intros r Hr.
    destruct (Ha 6%nat 6000 r eq_refl Hr) as [Hl Hp].
    split; [exact Hl | apply Hp, Hl].
  - apply (Hc 61000 1000); reflexivity.
Defined.

(** C9.  In every store the process can reach (any sequence of admission
    calls from the empty map), every client's stored sequence has at most 5
    timestamps, before and after one more call; and right after a call at
    time [now], both the pruned sequence and the sequence stored for the
    calling client hold only timestamps [t] with [now - t < 60000]. *)
Theorem window_invariant (calls : list (string * Z)) (client : string) (now : Z) :
  let store := (admit_all calls ∅).2 in
  let store' := (isRateLimited client now store).2 in
  (∀ any : string, (length (history store any) ≤ 5)%nat)
  ∧ (∀ any : string, (length (history store' any) ≤ 5)%nat)
  ∧ Forall (λ t, now - t < 60000) (fresh_of now (history store client))
  ∧ Forall (λ t, now - t < 60000) (history store' client)
  ∧ store' = (admit_all (calls ++ [(client, now)]) ∅).2.
Proof.
  intros store store'.
  assert (Hinv : ∀ any : string, (length (history store any) ≤ RATE_LIMIT_MAX)%nat).
  { intros any. apply admit_all_length. unfold history. rewrite lookup_empty. simpl. lia. }
  split; [exact Hinv|]. split; [|split; [|split]].
  - intros any. apply isRateLimited_length, Hinv.
  - apply fresh_of_Forall.
  - apply isRateLimited_all_fresh, Hinv.
  - rewrite admit_all_app. simpl.
    unfold store', store. by destruct (isRateLimited client now (admit_all calls ∅).2).
Qed.

(** C10.  A denied call returns the store it was given, so nothing stored
    for any client changes and the pruned view is not written back (an
    allowed call writes the pruned view with the new timestamp appended, for
    the calling client); a call of one client,
    allowed or denied, leaves the entry of every other client as it was; and
    over a whole call sequence what is stored for a client is what its own
    calls alone would have stored. *)
Theorem admission_frame (client : string) (now : Z) (store : gmap string (list Z)) :
  (isRateLimited client now store).2
  = (if limited (isRateLimited client now store).1 then store
     else <[client := fresh_of now (history store client) ++ [now]]> store)
  ∧ (∀ other : string, other ≠ client →
       (isRateLimited client now store).2 !! other = store !! other)
  ∧ (∀ (calls : list (string * Z)) (any : string),
       history (admit_all calls store).2 any
       = history (admit_all (filter (λ c, c.1 = any) calls) store).2 any).
Proof.
  split; [|split].
  - unfold isRateLimited. by case_decide.
  - intros other Hne. by apply isRateLimited_other.
  - intros calls any. by apply admit_all_project.
Qed.

(** ** The submission route *)

Lemma set_rateLimitStore_same (w : World) : set_rateLimitStore (rateLimitStore w) w = w.
Proof. by destruct w. Qed.

Section RouteFacts.
Context `{RT : Runtime}.

Lemma POST_try_limited (env : Env) (request : Request) (w : World) :
  limited (isRateLimited (getClientIp request) (now_admission env) (rateLimitStore w)).1 = true →
  POST_try env request w
  = (inr (rate_limited_response
            (isRateLimited (getClientIp request) (now_admission env) (rateLimitStore w)).1),
     w).
Proof.
  intros Hl. unfold POST_try.
  pose proof (isRateLimited_denied_store _ _ _ Hl) as Hs.
  destruct (isRateLimited (getClientIp request) (now_admission env) (rateLimitStore w)) as [rl store].
  simpl in *. rewrite Hl. subst store. by rewrite set_rateLimitStore_same.
Qed.

Lemma POST_try_unlimited (env : Env) (request : Request) (w : World) :
  admitted env request w →
  POST_try env request w
  = let w1 := set_rateLimitStore
                (isRateLimited (getClientIp request) (now_admission env) (rateLimitStore w)).2 w in
    match json_body request with
    | inl e => (inl e, w1)
    | inr body =>
        match ReviewFormSchema (Some body) with
        | ZFail issues => (inr (invalid_input_response issues), w1)
        | ZOk data =>
            match generateContent env (analysis_request data) with
            | inl e => (inl e, record_ai_call (analysis_request data) w1)
            | inr text => after_reply env data text (record_ai_call (analysis_request data) w1)
            end
        end
    end.
Proof.
  unfold admitted, POST_try. intros Hl.
  destruct (isRateLimited (getClientIp request) (now_admission env) (rateLimitStore w)) as [rl store].
  simpl in *. by rewrite Hl.
Qed.

Lemma POST_try_ai_replied (env : Env) (request : Request) (w : World)
    (body : json) (data : ReviewFormData) (reply : option string) :
  ai_replied env request w body data reply →
  POST_try env request w = after_reply env data reply (world_at_call env request w data).
Proof.
  intros (Hadm & Hbody & Hvalid & Hai).
  rewrite POST_try_unlimited by done. cbv zeta.
  by rewrite Hbody, Hvalid, Hai.
Qed.

End RouteFacts.

(** C2.  Whenever the pruned timestamp count of the calling client is at
    least 5, there is an oldest remaining timestamp, the wait returned is
    ceil((60000 - (now - oldestRemaining)) / 1000) clamped to at least 0, the
    rate-limit store and the rest of the world are left as they were (the
    attempt is not recorded), and the response has status 429, the wait
    under [retryAfterSec] in its body, and a [Retry-After] header that is
    the decimal text of the same number. *)
Theorem denied_response `{RT : Runtime} (env : Env) (request : Request) (w : World) :
  (RATE_LIMIT_MAX
   ≤ length (fresh_of (now_admission env)
               (history (rateLimitStore w) (getClientIp request))))%nat →
  ∃ oldestRemaining wait : Z,
    head (fresh_of (now_admission env) (history (rateLimitStore w) (getClientIp request)))
    = Some oldestRemaining
    ∧ wait = Z.max 0 (Math_ceil (inject_Z (60000 - (now_admission env - oldestRemaining))
                                 / inject_Z 1000))
    ∧ isRateLimited (getClientIp request) (now_admission env) (rateLimitStore w)
      = ({| limited := true; retryAfterSec := wait |}, rateLimitStore w)
    ∧ (POST env request w).1
      = {| status := 429;
           headers := [("Retry-After", String_of_int wait)];
           body := [ ("success", VBool false);
                     ("error", VStr "Rate limit exceeded. Please try again shortly.");
                     ("retryAfterSec", VNum wait) ] |}
    ∧ (POST env request w).2 = w.
Proof.
  intros Hfull.
  pose proof (isRateLimited_denied _ _ _ Hfull) as Hd.
  destruct (fresh_of (now_admission env) (history (rateLimitStore w) (getClientIp request)))
    as [|oldest rest] eqn:Hfresh.
  { simpl in Hfull. unfold RATE_LIMIT_MAX in Hfull. lia. }
  simpl in Hd. rewrite Math_ceil_clamp in Hd.
  exists oldest, (Z.max 0 (Math_ceil (inject_Z (60000 - (now_admission env - oldest))
                                       / inject_Z 1000))).
  split; [done|]. split; [done|]. split; [exact Hd|].
  unfold POST. rewrite POST_try_limited by (by rewrite Hd).
  by rewrite Hd.
Qed.

(** The sample client has five timestamps from 1000 to 5000 stored and asks
    again at 6000: it is told to wait 55 seconds. *)
Lemma denied_response_witness :
  (POST (RT := test_runtime test_table) (env_with (inr None)) sample_request busy_world).1
  = {| status := 429;
       headers := [("Retry-After", "55")];
       body := [ ("success", VBool false);
                 ("error", VStr "Rate limit exceeded. Please try again shortly.");
                 ("retryAfterSec", VNum 55) ] |}
  ∧ (POST (RT := test_runtime test_table) (env_with (inr None)) sample_request busy_world).2
    = busy_world.
Proof.
  assert (Hfull : (RATE_LIMIT_MAX
            ≤ length (fresh_of (now_admission (env_with (inr None)))
                (history (rateLimitStore busy_world) (getClientIp sample_request))))%nat).
  { vm_compute. lia. }
  destruct (denied_response (RT := test_runtime test_table)
              (env_with (inr None)) sample_request busy_world Hfull)
    as (oldest & wait & Hhead & Hwait & _ & Hresp & Hworld).
  split; [|exact Hworld].
  rewrite Hresp. vm_compute in Hhead. injection Hhead as <-.
  subst wait. reflexivity.
Defined.

(** ** Zod outcomes *)

Lemma zap_ok {A B : Type} (f : SafeParse (A → B)) (x : SafeParse A) (b : B) :
  zap f x = ZOk b ↔ ∃ g a, f = ZOk g ∧ x = ZOk a ∧ b = g a.
Proof.
  split.
  - destruct f as [g|i], x as [a|j]; simpl; intros H; try discriminate.
    injection H as <-. by exists g, a.
  - intros (g & a & -> & -> & ->). reflexivity.
Qed.

Lemma zap_fail {A B : Type} (f : SafeParse (A → B)) (x : SafeParse A) (issues : list Issue) :
  zap f x = ZFail issues → issues = issues_of f ++ issues_of x.
Proof.
  destruct f as [g|i], x as [a|j]; simpl; intros H; try discriminate;
    injection H as <-; by rewrite ?app_nil_r.
Qed.

Lemma at_path_ok {A : Type} (p : PathElem) (r : SafeParse A) (a : A) :
  at_path p r = ZOk a ↔ r = ZOk a.
Proof. destruct r; simpl; split; congruence. Qed.

Lemma at_path_issues {A : Type} (p : PathElem) (r : SafeParse A) :
  issues_of (at_path p r)
  = (λ i, {| path := p :: path i; code := code i; custom := custom i |}) <$> issues_of r.
Proof. by destruct r. Qed.

Lemma checked_fail {A : Type} (a : A) (issues found : list Issue) :
  checked a issues = ZFail found → found = issues ∧ issues ≠ [].
Proof. destruct issues; simpl; [discriminate|]. intros H. by injection H as <-. Qed.

Lemma checked_ok {A : Type} (a b : A) (issues : list Issue) :
  checked a issues = ZOk b ↔ a = b ∧ issues = [].
Proof.
  destruct issues; simpl; split.
  - intros H. by injection H as ->.
  - by intros [-> _].
  - discriminate.
  - by intros [_ ?].
Qed.

(** A number schema with an inclusive minimum and maximum accepts exactly
    the finite numbers between the two. *)
Lemma z_number_range_ok (lo hi : Z) (m1 m2 : option string) (input : option json) (n : jsnum) :
  z_number [Min lo m1; Max hi m2] input = ZOk n
  ↔ ∃ q, input = Some (JNum (Finite q)) ∧ n = Finite q
         ∧ (inject_Z lo <= q)%Q ∧ (q <= inject_Z hi)%Q.
Proof.
  unfold z_number. split.
  - destruct input as [[| |x| | |]|]; try discriminate.
    intros H. apply checked_ok in H as [<- H].
    destruct x as [q| |]; simpl in H.
    + exists q. split; [done|]. split; [done|].
      destruct (Qle_bool (inject_Z lo) q) eqn:H1; simpl in H; [|discriminate].
      destruct (Qle_bool q (inject_Z hi)) eqn:H2; simpl in H; [|discriminate].
      split; by apply Qle_bool_iff.
    + discriminate.
    + discriminate.
  - intros (q & -> & -> & H1 & H2). apply checked_ok. split; [done|]. simpl.
    apply Qle_bool_iff in H1, H2. by rewrite H1, H2.
Qed.

(** A string schema with an inclusive minimum and maximum accepts exactly
    the strings whose length is between the two. *)
Lemma z_string_range_ok (lo hi : Z) (m1 m2 : option string) (input : option json) (s : string) :
  z_string [Min lo m1; Max hi m2] input = ZOk s
  ↔ input = Some (JStr s) ∧ lo ≤ Z.of_nat (String.length s) ≤ hi.
Proof.
  unfold z_string. split.
  - destruct input as [[| | |x| |]|]; try discriminate.
    intros H. apply checked_ok in H as [<- H]. simpl in H.
    split; [done|]. repeat case_decide; simpl in H; try discriminate. lia.
  - intros [-> H]. apply checked_ok. split; [done|]. simpl.
    rewrite !decide_False by lia. reflexivity.
Qed.

(** A schema of a scalar reports its issues at the value itself, and at
    least one when it fails. *)
Lemma z_number_fail (checks : list Check) (input : option json) (issues : list Issue) :
  z_number checks input = ZFail issues →
  issues ≠ [] ∧ Forall (λ i, path i = []) issues.
Proof.
  unfold z_number. intros H.
  assert (Hc : ∀ n, Forall (λ i, path i = []) (omap (number_check n) checks)).
  { intros n. apply Forall_forall. intros i Hi.
    apply list_elem_of_omap in Hi as (c & _ & Hc).
    destruct c; simpl in Hc; case_match; by simplify_eq. }
  destruct input as [[| |x| | |]|];
    try (injection H as <-; split; [done|by repeat constructor]).
  apply checked_fail in H as [-> Hne]. split; [done|apply Hc].
Qed.

Lemma z_string_fail (checks : list Check) (input : option json) (issues : list Issue) :
  z_string checks input = ZFail issues →
  issues ≠ [] ∧ Forall (λ i, path i = []) issues.
Proof.
  unfold z_string. intros H.
  assert (Hc : ∀ s, Forall (λ i, path i = []) (omap (string_check s) checks)).
  { intros s. apply Forall_forall. intros i Hi.
    apply list_elem_of_omap in Hi as (c & _ & Hc).
    destruct c; simpl in Hc; case_decide; by simplify_eq. }
  destruct input as [[| | |x| |]|];
    try (injection H as <-; split; [done|by repeat constructor]).
  apply checked_fail in H as [-> Hne]. split; [done|apply Hc].
Qed.

Lemma assoc_push_message_eq (k : PathElem) (m : Message) (groups : list (PathElem * list Message)) :
  assoc k (push_message k m groups) = Some (default [] (assoc k groups) ++ [m]).
Proof.
  induction groups as [|[k' ms] rest IH]; simpl.
  - by rewrite decide_True.
  - destruct (decide (k' = k)) as [->|Hne]; simpl.
    + by rewrite decide_True.
    + by rewrite decide_False.
Qed.

Lemma assoc_push_message_ne (k k' : PathElem) (m : Message)
    (groups : list (PathElem * list Message)) :
  k' ≠ k → assoc k (push_message k' m groups) = assoc k groups.
Proof.
  intros Hne. induction groups as [|[k'' ms] rest IH]; simpl.
  - by rewrite decide_False.
  - destruct (decide (k'' = k')) as [->|Hne']; simpl.
    + by rewrite !decide_False.
    + destruct (decide (k'' = k)); [done|exact IH].
Qed.

Lemma flatten_add_fields (k : PathElem) (issues : list Issue) :
  ∀ acc : FlattenedError,
  assoc k (fieldErrors (foldl flatten_add acc issues))
  = match messages_under k issues with
    | [] => assoc k (fieldErrors acc)
    | ms => Some (default [] (assoc k (fieldErrors acc)) ++ ms)
    end.
Proof.
  unfold messages_under.
  induction issues as [|sub rest IH]; intros acc; [done|].
  simpl foldl. rewrite IH. clear IH. unfold flatten_add.
  destruct (path sub) as [|k' p] eqn:Hp.
  - rewrite filter_cons_False by (by rewrite Hp). done.
  - destruct (decide (k' = k)) as [->|Hne].
    + rewrite (filter_cons_True _ sub) by (by rewrite Hp).
      rewrite fmap_cons.
      set (ms := issue_message <$> filter (λ i, head (path i) = Some k) rest).
      cbn [fieldErrors]. rewrite assoc_push_message_eq.
      destruct ms as [|m ms]; cbn [default id]; [done|].
      by rewrite <- app_assoc.
    + rewrite filter_cons_False by (rewrite Hp; simpl; congruence).
      cbn [fieldErrors]. by rewrite assoc_push_message_ne.
Qed.

(** What [flatten] files under a key: the messages of the issues whose path
    starts with the key, if there are any. *)
Lemma flatten_field (k : PathElem) (issues : list Issue) :
  assoc k (fieldErrors (flatten issues))
  = match messages_under k issues with
    | [] => None
    | ms => Some ms
    end.
Proof. unfold flatten. rewrite flatten_add_fields. simpl. by destruct (messages_under k issues). Qed.

Lemma messages_under_app (k : PathElem) (l1 l2 : list Issue) :
  messages_under k (l1 ++ l2) = messages_under k l1 ++ messages_under k l2.
Proof. unfold messages_under. by rewrite filter_app, fmap_app. Qed.

(** The issues of a nested value count under its key and under no other. *)
Lemma at_path_messages_same {A : Type} (p : PathElem) (r : SafeParse A) :
  messages_under p (issues_of (at_path p r)) = issue_message <$> issues_of r.
Proof.
  rewrite at_path_issues. unfold messages_under.
  induction (issues_of r) as [|i l IH]; [done|].
  rewrite !fmap_cons. rewrite filter_cons_True by done.
  rewrite fmap_cons, IH. done.
Qed.

Lemma at_path_messages_other {A : Type} (p p' : PathElem) (r : SafeParse A) :
  p ≠ p' → messages_under p (issues_of (at_path p' r)) = [].
Proof.
  intros Hne. rewrite at_path_issues. unfold messages_under.
  induction (issues_of r) as [|i l IH]; [done|].
  rewrite fmap_cons. rewrite filter_cons_False by (simpl; congruence).
  exact IH.
Qed.

(** ** Input validation *)

Lemma ReviewFormSchema_ok (body : json) (data : ReviewFormData) :
  ReviewFormSchema (Some body) = ZOk data
  ↔ ∃ fields q,
      body = JObj fields
      ∧ assoc "rating" fields = Some (JNum (Finite q)) ∧ (1 <= q)%Q ∧ (q <= 5)%Q
      ∧ assoc "review" fields = Some (JStr (form_review data))
      ∧ (5 ≤ String.length (form_review data) ≤ 1000)%nat
      ∧ form_rating data = Finite q.
Proof.
  split.
  - destruct body as [| | | | |fields]; try discriminate.
    unfold ReviewFormSchema, z_object. intros H.
    apply zap_ok in H as (g & s & Hg & Hs & ->).
    apply zap_ok in Hg as (mk & n & Hmk & Hn & ->).
    injection Hmk as <-.
    apply at_path_ok, z_number_range_ok in Hn as (q & Hq & -> & H1 & H2).
    apply at_path_ok, z_string_range_ok in Hs as [Hs Hlen].
    exists fields, q. simpl. repeat split; try done; lia.
  - intros (fields & q & -> & Hr & H1 & H2 & Hs & Hlen & Hq).
    unfold ReviewFormSchema, z_object.
    apply zap_ok. exists (Build_ReviewFormData (Finite q)), (form_review data).
    split; [|split].
    + apply zap_ok. exists Build_ReviewFormData, (Finite q).
      split; [done|]. split; [|done].
      apply at_path_ok, z_number_range_ok. by exists q.
    + apply at_path_ok, z_string_range_ok. split; [done|lia].
    + destruct data. simpl in *. by subst.
Qed.

Lemma ReviewFormSchema_fail (fields : list (string * json)) (issues : list Issue) :
  ReviewFormSchema (Some (JObj fields)) = ZFail issues →
  (¬ acceptable_rating fields → messages_under (PKey "rating") issues ≠ [])
  ∧ (¬ acceptable_review fields → messages_under (PKey "review") issues ≠ []).
Proof.
  unfold ReviewFormSchema, z_object. intros H.
  apply zap_fail in H as ->.
  set (R := z_number [Min 1 (Some "Rating must be at least 1");
                      Max 5 (Some "Rating must be at most 5")] (assoc "rating" fields)).
  set (V := z_string [Min 5 (Some "Review must be at least 5 characters");
                      Max 1000 (Some "Review must be at most 1000 characters")]
              (assoc "review" fields)).
  assert (Hi : issues_of (zap (ZOk Build_ReviewFormData) (at_path (PKey "rating") R))
               = issues_of (at_path (PKey "rating") R)).
  { by destruct R. }
  unfold field. fold R V. rewrite Hi, !messages_under_app.
  rewrite !at_path_messages_same.
  rewrite (at_path_messages_other (PKey "rating") (PKey "review")) by done.
  rewrite (at_path_messages_other (PKey "review") (PKey "rating")) by done.
  rewrite app_nil_r, app_nil_l. split.
  - intros Hbad. destruct R as [n|found] eqn:HR.
    + exfalso. apply Hbad. apply z_number_range_ok in HR as (q & ? & _ & ? & ?). by exists q.
    + apply z_number_fail in HR as [Hne _]. simpl. by destruct found.
  - intros Hbad. destruct V as [s|found] eqn:HV.
    + exfalso. apply Hbad. apply z_string_range_ok in HV as [? ?]. exists s. split; [done|lia].
    + apply z_string_fail in HV as [Hne _]. simpl. by destruct found.
Qed.

(** C3, as stated, fails: a rating of 2.5 is not an integer, yet the form
    schema accepts the submission. *)
Lemma fractional_rating_accepted :
  ReviewFormSchema (Some fractional_body)
  = ZOk {| form_rating := Finite (5 # 2); form_review := "hello" |}
  ∧ ¬ spec_valid_submission fractional_body.
Proof.
  split; [reflexivity|].
  intros (fields & q & s & Hb & Hr & [n Hn] & _).
  injection Hb as <-. simpl in Hr. injection Hr as <-.
  unfold Qeq in Hn. simpl in Hn. lia.
Qed.

(** C3, amended.  For an admitted request with a readable body: the
    submission is accepted if and only if the body is an object whose rating
    is a finite number from 1 to 5, whole or not, and whose review is a
    string of 5 to 1000 characters, all bounds included.  When it is
    rejected, the response is 400 with the flattened issues as details; for
    an object body these hold at least one message under [rating] if the
    rating is not acceptable and at least one under [review] if the review
    is not, both when both are violated; no AI call is made and nothing is
    stored. *)
Theorem input_validation `{RT : Runtime} (env : Env) (request : Request) (w : World)
    (body : json) :
  admitted env request w →
  json_body request = inr body →
  ((∃ data, ReviewFormSchema (Some body) = ZOk data)
   ↔ ∃ fields, body = JObj fields ∧ acceptable_rating fields ∧ acceptable_review fields)
  ∧ (∀ issues, ReviewFormSchema (Some body) = ZFail issues →
       (POST env request w).1 = invalid_input_response issues
       ∧ ai_calls (POST env request w).2 = ai_calls w
       ∧ reviews (POST env request w).2 = reviews w
       ∧ ∀ fields, body = JObj fields →
           (¬ acceptable_rating fields →
              ∃ m ms, assoc (PKey "rating") (fieldErrors (flatten issues)) = Some (m :: ms))
           ∧ (¬ acceptable_review fields →
              ∃ m ms, assoc (PKey "review") (fieldErrors (flatten issues)) = Some (m :: ms))).
Proof.
  intros Hadm Hbody. split.
  - split.
    + intros [data Hd]. apply ReviewFormSchema_ok in Hd
        as (fields & q & -> & Hr & H1 & H2 & Hs & Hlen & _).
      exists fields. split; [done|]. split.
      * by exists q.
      * by exists (form_review data).
    + intros (fields & -> & (q & Hr & H1 & H2) & (s & Hs & Hlen)).
      exists {| form_rating := Finite q; form_review := s |}.
      apply ReviewFormSchema_ok. exists fields, q. simpl. split_and!; try done; lia.
  - intros issues Hfail.
    unfold POST. rewrite POST_try_unlimited by done. cbv zeta.
    rewrite Hbody, Hfail. cbn [fst snd ai_calls reviews set_rateLimitStore].
    repeat split; try done.
    + intros Hbad. subst body.
      pose proof (proj1 (ReviewFormSchema_fail fields issues Hfail) Hbad) as Hne.
      rewrite flatten_field.
      destruct (messages_under (PKey "rating") issues) as [|m ms]; [done|]. by exists m, ms.
    + intros Hbad. subst body.
      pose proof (proj2 (ReviewFormSchema_fail fields issues Hfail) Hbad) as Hne.
      rewrite flatten_field.
      destruct (messages_under (PKey "review") issues) as [|m ms]; [done|]. by exists m, ms.
Qed.

(** A rating of 0 with a review of four characters: both fields are
    reported, and the AI service is not called. *)
Lemma input_validation_witness :
  (POST (RT := test_runtime test_table) (env_with (inr None)) (request_with (inr bad_body))
        empty_world).1
  = {| status := 400; headers := [];
       body := [ ("success", VBool false);
                 ("error", VStr "Invalid input");
                 ("details", VFlattened
                    {| formErrors := [];
                       fieldErrors :=
                         [ (PKey "rating", [CustomMessage "Rating must be at least 1"]);
                           (PKey "review",
                            [CustomMessage "Review must be at least 5 characters"]) ] |}) ] |}
  ∧ ai_calls (POST (RT := test_runtime test_table) (env_with (inr None))
                (request_with (inr bad_body)) empty_world).2 = [].
Proof.
  assert (Hadm : admitted (env_with (inr None)) (request_with (inr bad_body)) empty_world)
    by reflexivity.
  destruct (input_validation (RT := test_runtime test_table) (env_with (inr None))
              (request_with (inr bad_body)) empty_world bad_body Hadm eq_refl)
    as [_ Hrej].
  destruct (Hrej _ eq_refl) as (Hresp & Hcalls & _).
  split; [exact Hresp | exact Hcalls].
Defined.

(** ** Response validation *)

Section ReplyFacts.
Context `{RT : Runtime}.

Lemma parse_ai_text_parsed (text : string) (aiJson : json) (w : World) :
  text ≠ "" → JSON_parse text = inr aiJson →
  parse_ai_text (Some text) w = (Some aiJson, w).
Proof.
  intros Hne Hp. unfold parse_ai_text, str_truthy.
  rewrite bool_decide_eq_false_2 by done. simpl. by rewrite Hp.
Qed.

(** The run of a request whose reply parsed to a truthy value: the rest is
    decided by the response schema and by the database. *)
Lemma POST_reply_parsed (env : Env) (request : Request) (w : World)
    (body : json) (data : ReviewFormData) (text : string) (aiJson : json) :
  reply_parsed env request w body data text aiJson →
  POST env request w
  = match AIResponseSchema (Some aiJson) with
    | ZFail issues =>
        (invalid_structure_response,
         console_error (LogInvalidStructure (flatten issues))
           (world_at_call env request w data))
    | ZOk aiData =>
        match getAdminDatabase_throws env, push_throws env with
        | Some e, _ | None, Some e =>
            (internal_error_response e,
             console_error (LogProcessingError e) (world_at_call env request w data))
        | None, None =>
            (success_response aiData,
             push_review
               (document_fields
                  (review_document data aiData
                     (Z.max 0 (Math_round (elapsed env)))
                     (now_created env)))
               (world_at_call env request w data))
        end
    end.
Proof.
  intros (Hreplied & Hne & Hparse & Htruthy).
  unfold POST. rewrite (POST_try_ai_replied _ _ _ _ _ _ Hreplied).
  unfold after_reply. rewrite (parse_ai_text_parsed _ _ _ Hne Hparse).
  rewrite Htruthy. cbn [negb].
  destruct (AIResponseSchema (Some aiJson)) as [aiData|issues]; [|done].
  destruct (getAdminDatabase_throws env); [done|].
  by destruct (push_throws env).
Qed.

End ReplyFacts.

Lemma z_string_min_ok (lo : Z) (m : option string) (input : option json) (s : string) :
  z_string [Min lo m] input = ZOk s
  ↔ input = Some (JStr s) ∧ lo ≤ Z.of_nat (String.length s).
Proof.
  unfold z_string. split.
  - destruct input as [[| | |x| |]|]; try discriminate.
    intros H. apply checked_ok in H as [<- H]. simpl in H.
    split; [done|]. case_decide; simpl in H; [discriminate|lia].
  - intros [-> H]. apply checked_ok. split; [done|]. simpl.
    by rewrite decide_False by lia.
Qed.

(** An array of tags is accepted exactly when every element is a string of
    the vocabulary; its length is not looked at. *)
Lemma parse_items_tags_ok (items : list json) :
  ∀ (i : nat) (l : list string),
  parse_items AllowedTagSchema i items = ZOk l
  ↔ items = JStr <$> l ∧ Forall (λ t, t ∈ AllowedTags) l.
Proof.
  induction items as [|x rest IH]; intros i l; cbn [parse_items].
  - split.
    + intros H. injection H as <-. by split.
    + intros [H _]. by destruct l.
  - split.
    + intros H. apply zap_ok in H as (g & tl & Hg & Htl & ->).
      apply zap_ok in Hg as (c & t & Hc & Ht & ->). injection Hc as <-.
      apply at_path_ok in Ht. apply IH in Htl as [-> Hall].
      unfold AllowedTagSchema, z_enum in Ht.
      destruct x as [| | |s| |]; try discriminate.
      case_bool_decide; [|discriminate]. injection Ht as ->.
      split; [done|]. by constructor.
    + intros [Hx Hall]. destruct l as [|t tl]; [discriminate|].
      injection Hx as -> ->. apply Forall_cons_1 in Hall as [Ht Htl].
      apply zap_ok. exists (cons t), tl. split; [|split; [|done]].
      * apply zap_ok. exists cons, t. split; [done|]. split; [|done].
        apply at_path_ok. unfold AllowedTagSchema, z_enum.
        by rewrite bool_decide_eq_true_2.
      * by apply IH.
Qed.

(** An array with an element outside the vocabulary is rejected. *)
Lemma parse_items_tags_outside (items : list json) (t : string) (i : nat) :
  JStr t ∈ items → t ∉ AllowedTags →
  ∃ issues, parse_items AllowedTagSchema i items = ZFail issues.
Proof.
  intros Hin Hout.
  destruct (parse_items AllowedTagSchema i items) as [l|issues] eqn:Hp; [|by exists issues].
  apply parse_items_tags_ok in Hp as [-> Hall].
  apply list_elem_of_fmap in Hin as (t' & Heq & Hin). injection Heq as ->.
  rewrite Forall_forall in Hall. exfalso. by apply Hout, Hall.
Qed.

(** The value of the [tags] key: absent, it is the empty sequence; present,
    it must be an array of vocabulary strings, of any length. *)
Lemma tags_field_ok (input : option json) (l : list string) :
  z_default (z_array AllowedTagSchema) (JArr []) input = ZOk l
  ↔ (input = None ∧ l = [])
    ∨ (input = Some (JArr (JStr <$> l)) ∧ Forall (λ t, t ∈ AllowedTags) l).
Proof.
  unfold z_default, z_array. destruct input as [v|].
  - destruct v as [| | | |items|]; try (split; [discriminate|by intros [[? _]|[? _]]]).
    rewrite parse_items_tags_ok. split.
    + intros [-> H]. by right.
    + intros [[? _]|[H ?]]; [done|]. by injection H as ->.
  - simpl. split.
    + intros H. injection H as <-. by left.
    + intros [[_ ->]|[? _]]; done.
Qed.

Lemma zap_issues {A B : Type} (f : SafeParse (A → B)) (x : SafeParse A) :
  issues_of (zap f x) = issues_of f ++ issues_of x.
Proof. destruct f, x; simpl; by rewrite ?app_nil_r. Qed.

Lemma issues_of_fail {A : Type} (r : SafeParse A) :
  issues_of r ≠ [] → r = ZFail (issues_of r).
Proof. by destruct r. Qed.

(** A reply object that passes the response schema has passed the check of
    its score and of its tags. *)
Lemma AIResponseSchema_ok_fields (fields : list (string * json)) (aiData : AIResponse) :
  AIResponseSchema (Some (JObj fields)) = ZOk aiData →
  z_number [Min 0 None; Max 100 None] (assoc "sentiment_score" fields)
  = ZOk (sentiment_score aiData)
  ∧ z_default (z_array AllowedTagSchema) (JArr []) (assoc "tags" fields)
    = ZOk (tags aiData).
Proof.
  unfold AIResponseSchema, z_object, field. intros H.
  apply zap_ok in H as (g5 & tg & H & Htg & ->).
  apply zap_ok in H as (g4 & sc & H & Hsc & ->).
  apply zap_ok in H as (g3 & a & H & _ & ->).
  apply zap_ok in H as (g2 & s & H & _ & ->).
  apply zap_ok in H as (g1 & r & H & _ & ->).
  injection H as <-. simpl.
  apply at_path_ok in Htg, Hsc. by split.
Qed.

(** A reply object whose score fails its check fails the response schema,
    with a message filed under [sentiment_score]. *)
Lemma AIResponseSchema_score_fail (fields : list (string * json)) (found : list Issue) :
  z_number [Min 0 None; Max 100 None] (assoc "sentiment_score" fields) = ZFail found →
  ∃ issues,
    AIResponseSchema (Some (JObj fields)) = ZFail issues
    ∧ messages_under (PKey "sentiment_score") issues ≠ [].
Proof.
  intros Hsc.
  assert (Hm : messages_under (PKey "sentiment_score")
                 (issues_of (AIResponseSchema (Some (JObj fields)))) ≠ []).
  { unfold AIResponseSchema, z_object. rewrite !zap_issues, !messages_under_app.
    unfold field at 4. rewrite at_path_messages_same, Hsc.
    apply z_number_fail in Hsc as [Hne _].
    destruct found as [|i l]; [done|]. simpl.
    intros Happ. apply app_eq_nil in Happ as [Happ _].
    by apply app_eq_nil in Happ as [_ Happ]. }
  exists (issues_of (AIResponseSchema (Some (JObj fields)))). split; [|done].
  apply issues_of_fail. intros Hnil. by rewrite Hnil in Hm.
Qed.

(** C4.  What the code does with four tags: a reply whose [tags] holds the
    four vocabulary values Quality, Price, Service, Delivery passes the
    response schema, the request is answered with 200, and the record is
    stored with all four tags.  The response schema has no limit on the
    number of tags; the limit of 3 stands in the descriptor sent to the model
    only ([maxItems] in [responseSchema]).  That an element outside the
    vocabulary is rejected and that absent tags become the empty sequence is
    [parse_items_tags_outside] and [tags_field_ok]. *)
Theorem four_tags_accepted :
  AIResponseSchema (Some (reply_with 92 four_tags))
  = ZOk {| response := "Thanks!"; summary := "Happy customer"; action := "None needed";
           sentiment_score := Finite 92; tags := four_tags |}
  ∧ status (POST (RT := test_runtime test_table) (env_with (inr (Some "four tags")))
              sample_request empty_world).1 = 200
  ∧ (λ r, assoc "ai_tags" r)
      <$> reviews (POST (RT := test_runtime test_table) (env_with (inr (Some "four tags")))
                     sample_request empty_world).2
    = [Some (JArr [JStr "Quality"; JStr "Price"; JStr "Service"; JStr "Delivery"])].
Proof. split; [reflexivity|]. split; reflexivity. Qed.

(** [Math.round] yields the nearest integer, a tie going up. *)
Lemma Math_round_nearest (q : Q) :
  (inject_Z (Math_round q) - (1 # 2) <= q)%Q ∧ (q < inject_Z (Math_round q) + (1 # 2))%Q.
Proof.
  unfold Math_round.
  pose proof (Qfloor_le (q + (1 # 2))) as Hlow.
  pose proof (Qlt_floor (q + (1 # 2))) as Hhigh.
  rewrite inject_Z_plus in Hhigh. change (inject_Z 1) with 1%Q in Hhigh.
  split; lra.
Qed.

(** C5.  Let the reply of the AI service parse to an object whose
    [sentiment_score] is the number [x].  If [x] lies in [0,100], whole or
    not, the score passes its check, and whenever the reply as a whole passes
    the response schema and the database calls succeed, the request is
    answered with 200 and exactly one record is appended, whose
    [ai_sentiment] is [x] rounded to the nearest integer: the integer [n]
    with [n - 1/2 <= x < n + 1/2], a tie going up.  If [x] lies outside
    [0,100], the reply fails the response schema with a message under
    [sentiment_score], the answer is the 500 for an invalid structure, and
    nothing is stored.  91.6 rounds to 92. *)
Theorem sentiment_score_validation `{RT : Runtime} (env : Env) (request : Request)
    (w : World) (body : json) (data : ReviewFormData) (text : string)
    (fields : list (string * json)) (x : jsnum) :
  reply_parsed env request w body data text (JObj fields) →
  assoc "sentiment_score" fields = Some (JNum x) →
  (in_0_100 x →
     z_number [Min 0 None; Max 100 None] (assoc "sentiment_score" fields) = ZOk x
     ∧ ∀ aiData, AIResponseSchema (Some (JObj fields)) = ZOk aiData →
         getAdminDatabase_throws env = None → push_throws env = None →
         status (POST env request w).1 = 200
         ∧ ∃ d q n, reviews (POST env request w).2 = reviews w ++ [document_fields d]
                    ∧ x = Finite q
                    ∧ ai_sentiment d = Finite (inject_Z n)
                    ∧ (inject_Z n - (1 # 2) <= q)%Q ∧ (q < inject_Z n + (1 # 2))%Q
                    ∧ n = Math_round q)
  ∧ (¬ in_0_100 x →
     ∃ issues, AIResponseSchema (Some (JObj fields)) = ZFail issues
               ∧ messages_under (PKey "sentiment_score") issues ≠ []
               ∧ (POST env request w).1 = invalid_structure_response
               ∧ reviews (POST env request w).2 = reviews w)
  ∧ Math_round (916 # 10) = 92.
Proof.
  intros Hparsed Hx. split; [|split; [|reflexivity]].
  - intros Hin. destruct x as [q| |]; try done. destruct Hin as [H0 H100].
    assert (Hok : z_number [Min 0 None; Max 100 None] (assoc "sentiment_score" fields)
                  = ZOk (Finite q)).
    { apply z_number_range_ok. by exists q. }
    split; [exact Hok|].
    intros aiData Hvalid Hdb Hpush.
    rewrite (POST_reply_parsed _ _ _ _ _ _ _ Hparsed), Hvalid, Hdb, Hpush.
    split; [done|]. eexists _, q, (Math_round q). split; [reflexivity|]. split; [done|].
    apply AIResponseSchema_ok_fields in Hvalid as [Hsc _].
    rewrite Hok in Hsc. injection Hsc as Hsc.
    cbn [ai_sentiment review_document]. rewrite <- Hsc.
    split; [done|]. by destruct (Math_round_nearest q).
  - intros Hout.
    destruct (z_number [Min 0 None; Max 100 None] (assoc "sentiment_score" fields))
      as [n|found] eqn:Hsc.
    + exfalso. apply Hout.
      apply z_number_range_ok in Hsc as (q & Hq & _ & H0 & H100).
      rewrite Hx in Hq. injection Hq as ->. by split.
    + destruct (AIResponseSchema_score_fail fields found Hsc) as (issues & Hfail & Hm).
      exists issues. split; [done|]. split; [done|].
      by rewrite (POST_reply_parsed _ _ _ _ _ _ _ Hparsed), Hfail.
Qed.

(** The sample submission with a reply that scores 91.6: one record is
    stored, with [ai_sentiment] 92. *)
Lemma sentiment_score_validation_witness :
  (λ r, assoc "ai_sentiment" r)
    <$> reviews (POST (RT := test_runtime test_table) (env_with (inr (Some "good reply")))
                   sample_request empty_world).2
  = [Some (JNum (Finite 92))].
Proof.
  assert (Hp : reply_parsed (RT := test_runtime test_table)
                 (env_with (inr (Some "good reply"))) sample_request empty_world
                 sample_body sample_data "good reply"
                 (JObj [ ("response", JStr "Thanks!");
                         ("summary", JStr "Happy customer");
                         ("action", JStr "None needed");
                         ("sentiment_score", JNum (Finite (916 # 10)));
                         ("tags", JArr [JStr "Service"]) ])).
  { repeat split; try reflexivity. discriminate. }
  destruct (sentiment_score_validation (RT := test_runtime test_table) _ _ _ _ _ _ _
              (Finite (916 # 10)) Hp eq_refl) as (Hin & _ & _).
  destruct Hin as [_ Hstore].
  { split; discriminate. }
  destruct (Hstore _ eq_refl eq_refl eq_refl)
    as (_ & d & q & n & Hrev & Hq & Hs & Hlow & Hhigh & _).
  rewrite Hrev. injection Hq as <-.
  assert (Hn : n = 92).
  { unfold Qle, Qlt in Hlow, Hhigh. simpl in Hlow, Hhigh. lia. }
  simpl. rewrite Hs, Hn. reflexivity.
Defined.

(** ** Failures of the submission route *)

Section FailureFacts.
Context `{RT : Runtime}.

Lemma parse_ai_text_reviews (text : option string) (w : World) :
  reviews (parse_ai_text text w).2 = reviews w
  ∧ ai_calls (parse_ai_text text w).2 = ai_calls w
  ∧ rateLimitStore (parse_ai_text text w).2 = rateLimitStore w.
Proof.
  unfold parse_ai_text. destruct text as [t|]; [|done].
  destruct (str_truthy (Some t)); [|done]. by destruct (JSON_parse t).
Qed.

(** A reply that is empty or does not parse leaves [aiJson] undefined. *)
Lemma parse_ai_text_none (reply : option string) (w : World) :
  (str_truthy reply = false ∨ ∃ t e, reply = Some t ∧ JSON_parse t = inl e) →
  (parse_ai_text reply w).1 = None.
Proof.
  unfold parse_ai_text. intros [Hempty|(t & e & -> & Hp)].
  - destruct reply as [t|]; [|done]. by rewrite Hempty.
  - destruct (str_truthy (Some t)); [|done]. by rewrite Hp.
Qed.

(** Every way the [try] block can end. *)
Lemma POST_try_cases (env : Env) (request : Request) (w : World) :
  (∃ rl, (POST_try env request w).1 = inr (rate_limited_response rl))
  ∨ (∃ issues, (POST_try env request w).1 = inr (invalid_input_response issues))
  ∨ (POST_try env request w).1 = inr parsing_failed_response
  ∨ (POST_try env request w).1 = inr invalid_structure_response
  ∨ (∃ aiData, (POST_try env request w).1 = inr (success_response aiData))
  ∨ (∃ e, thrown_by env request e ∧ (POST_try env request w).1 = inl e).
Proof.
  unfold POST_try, thrown_by.
  destruct (isRateLimited _ _ _) as [rl store].
  destruct (limited rl); [left; by exists rl|].
  destruct (json_body request) as [e|body].
  { do 5 right. exists e. by split; [left|]. }
  destruct (ReviewFormSchema (Some body)) as [data|issues]; [|right; left; by exists issues].
  destruct (generateContent env (analysis_request data)) as [e|text] eqn:Hai.
  { do 5 right. exists e. split; [right; left; by exists data|done]. }
  unfold after_reply. destruct (parse_ai_text text _) as [aiJson w2].
  destruct (negb (truthy aiJson)); [by do 2 right; left|].
  destruct (AIResponseSchema aiJson) as [aiData|issues]; [|by do 3 right; left].
  destruct (getAdminDatabase_throws env) as [e|] eqn:Hdb.
  { do 5 right. exists e. split; [do 2 right; by left|done]. }
  destruct (push_throws env) as [e|] eqn:Hpush.
  { do 5 right. exists e. split; [by do 3 right|done]. }
  do 4 right. left. by exists aiData.
Qed.

End FailureFacts.

(** C6, as stated, fails: with no text at all and with a text that does not
    parse, the route gives one and the same response, so the two are not
    distinct outcomes for the caller. *)
Lemma empty_and_unparseable_same_response :
  JSON_parse (Runtime := test_runtime test_table) "not json"
  = inl (ErrorObject "Unexpected token" None)
  ∧ (POST (RT := test_runtime test_table) (env_with (inr None)) sample_request empty_world).1
    = (POST (RT := test_runtime test_table) (env_with (inr (Some "not json")))
         sample_request empty_world).1.
Proof. split; reflexivity. Qed.

(** C6, amended.  When the AI call of an admitted, valid submission returns
    no text (undefined or empty) or a text that does not parse, the request
    ends with the same 500 response, error "AI response parsing failed", and
    no record is stored.  The two cases differ on the server console only:
    nothing is logged for a missing text, the text and the parse error are
    logged for an unparseable one. *)
Theorem empty_or_unparseable_reply `{RT : Runtime} (env : Env) (request : Request)
    (w : World) (body : json) (data : ReviewFormData) (reply : option string) :
  ai_replied env request w body data reply →
  str_truthy reply = false ∨ (∃ t e, reply = Some t ∧ JSON_parse t = inl e) →
  (POST env request w).1 = parsing_failed_response
  ∧ status (POST env request w).1 = 500
  ∧ reviews (POST env request w).2 = reviews w
  ∧ (str_truthy reply = false → console (POST env request w).2 = console w)
  ∧ (∀ t e, reply = Some t → t ≠ "" → JSON_parse t = inl e →
       console (POST env request w).2 = console w ++ [LogParseFailure t e]).
Proof.
  intros Hreplied Hbad.
  unfold POST. rewrite (POST_try_ai_replied _ _ _ _ _ _ Hreplied).
  unfold after_reply.
  pose proof (parse_ai_text_none reply (world_at_call env request w data) Hbad) as Hnone.
  pose proof (parse_ai_text_reviews reply (world_at_call env request w data)) as (Hrev & _ & _).
  destruct (parse_ai_text reply (world_at_call env request w data)) as [aiJson w2] eqn:Hparse.
  simpl in Hnone, Hrev. subst aiJson. cbn [truthy negb fst snd].
  split; [done|]. split; [done|]. split; [by rewrite Hrev|]. split.
  - intros Hempty. unfold parse_ai_text in Hparse.
    destruct reply as [t|]; [rewrite Hempty in Hparse|]; by injection Hparse as <-.
  - intros t e -> Hne Hp. unfold parse_ai_text, str_truthy in Hparse.
    rewrite bool_decide_eq_false_2 in Hparse by done. cbn [negb] in Hparse.
    rewrite Hp in Hparse. by injection Hparse as <-.
Qed.

(** The sample submission with a reply that is not JSON: the 500 for a
    failed parse, nothing stored, the text on the console. *)
Lemma empty_or_unparseable_reply_witness :
  (POST (RT := test_runtime test_table) (env_with (inr (Some "not json")))
     sample_request empty_world).1 = parsing_failed_response
  ∧ reviews (POST (RT := test_runtime test_table) (env_with (inr (Some "not json")))
               sample_request empty_world).2 = []
  ∧ console (POST (RT := test_runtime test_table) (env_with (inr (Some "not json")))
               sample_request empty_world).2
    = [LogParseFailure "not json" (ErrorObject "Unexpected token" None)].
Proof.
  assert (Hr : ai_replied
                 (env_with (inr (Some "not json"))) sample_request empty_world
                 sample_body sample_data (Some "not json")).
  { repeat split; reflexivity. }
  assert (Hbad : str_truthy (Some "not json") = false
                 ∨ ∃ t e, Some "not json" = Some t
                          ∧ JSON_parse (Runtime := test_runtime test_table) t = inl e).
  { right. by exists "not json", (ErrorObject "Unexpected token" None). }
  destruct (empty_or_unparseable_reply (RT := test_runtime test_table) _ _ _ _ _ _ Hr Hbad)
    as (Hresp & _ & Hrev & _ & Hlog).
  split; [exact Hresp|]. split; [exact Hrev|].
  apply (Hlog "not json" (ErrorObject "Unexpected token" None)); [reflexivity|discriminate|reflexivity].
Defined.

(** C7, as stated, fails: when the AI call throws, the response carries the
    message and the stack of the exception. *)
Lemma stack_in_response :
  status (POST (RT := test_runtime test_table) (env_with (inl upstream_error))
            sample_request empty_world).1 = 500
  ∧ assoc "stack"
      (body (POST (RT := test_runtime test_table) (env_with (inl upstream_error))
               sample_request empty_world).1)
    = Some (VStr sample_stack)
  ∧ assoc "details"
      (body (POST (RT := test_runtime test_table) (env_with (inl upstream_error))
               sample_request empty_world).1)
    = Some (VStr "upstream failed").
Proof. split; [reflexivity|]. split; reflexivity. Qed.

(** C7, amended.  A 500 response of the submission route is one of three.
    For a reply that is empty or does not parse, and for a reply that fails
    the response schema, it is a fixed response holding generic strings only,
    whatever the AI text was.  Otherwise an operation threw (reading the
    body, the AI call, the database handle or the push), and the response
    holds the error "Internal server error" together with the message of the
    exception under [details] and its stack under [stack]. *)
Theorem failure_responses `{RT : Runtime} (env : Env) (request : Request) (w : World) :
  status (POST env request w).1 = 500 →
  (POST env request w).1 = parsing_failed_response
  ∨ (POST env request w).1 = invalid_structure_response
  ∨ ∃ e, thrown_by env request e
         ∧ (POST env request w).1
           = {| status := 500; headers := [];
                body := [ ("success", VBool false);
                          ("error", VStr "Internal server error");
                          ("details", match e with
                                      | ErrorObject message _ => VStr message
                                      | OtherValue => VStr "Unknown error"
                                      end);
                          ("stack", match e with
                                    | ErrorObject _ (Some stack) => VStr stack
                                    | _ => VUndefined
                                    end) ] |}.
Proof.
  unfold POST. intros Hst.
  destruct (POST_try_cases env request w)
    as [[rl H]|[[issues H]|[H|[H|[[aiData H]|(e & Hthrown & H)]]]]];
    destruct (POST_try env request w) as [[e'|resp] w']; simpl in *;
    simplify_eq; try discriminate.
  - by left.
  - right. by left.
  - right. right. by exists e.
Qed.

(** The AI call throws: the third case, with the stack in the response. *)
Lemma failure_responses_witness :
  (POST (RT := test_runtime test_table) (env_with (inl upstream_error))
     sample_request empty_world).1
  = internal_error_response upstream_error.
Proof.
  destruct (failure_responses (RT := test_runtime test_table) (env_with (inl upstream_error))
              sample_request empty_world eq_refl) as [H|[H|(e & _ & H)]].
  - discriminate H.
  - discriminate H.
  - reflexivity.
Defined.

(** ** The report route *)

Lemma limitToLast_length (n : nat) (children : list (list (string * json))) :
  length (limitToLast n children) = (n `min` length children)%nat.
Proof. unfold limitToLast. rewrite length_drop. lia. Qed.

Lemma limitToLast_nil (children : list (list (string * json))) :
  limitToLast 50 children = [] ↔ children = [].
Proof.
  split; [|by intros ->].
  intros H. apply (f_equal length) in H. rewrite limitToLast_length in H.
  destruct children; [done|]. simpl in H. lia.
Qed.

(** The records handed on are the most recent ones: a suffix of the stored
    sequence. *)
Lemma limitToLast_suffix (n : nat) (children : list (list (string * json))) :
  limitToLast n children `suffix_of` children.
Proof. apply suffix_drop. Qed.

Section ReportFacts.
Context `{RT : Runtime}.

Lemma simplify_all_each (rs : list (list (string * json))) :
  ∀ entries, simplify_all rs = inr entries →
  Forall2 (λ r entry, simplify_review r = inr entry) rs entries.
Proof.
  induction rs as [|r rest IH]; intros entries H; simpl in H.
  - injection H as <-. constructor.
  - destruct (simplify_review r) as [e|entry] eqn:Hr; [discriminate|].
    destruct (simplify_all rest) as [e|es]; [discriminate|].
    injection H as <-. constructor; [done|]. by apply IH.
Qed.

(** A record with the legacy field names only: the text is taken from
    [review] and the date from [timestamp]. *)
Lemma simplify_review_legacy (r : list (string * json)) :
  assoc "reviewText" r = None → assoc "createdAt" r = None →
  simplify_review r
  = match Date_toISOString (assoc "timestamp" r) with
    | inl e => inl e
    | inr iso =>
        inr {| entry_rating := assoc "rating" r;
               entry_text := assoc "review" r;
               entry_date := split_head "T"%char iso;
               entry_sentiment := assoc "ai_sentiment" r;
               entry_tags := assoc "ai_tags" r |}
    end.
Proof. intros Ht Hc. unfold simplify_review, js_or. by rewrite Ht, Hc. Qed.

End ReportFacts.

Section ReportShape.
Context `{RT : Runtime}.

(** The entry made from a record whose date converts. *)
Lemma simplify_review_dated (r : list (string * json)) (iso : string) :
  Date_toISOString (if truthy (assoc "createdAt" r) then assoc "createdAt" r
                    else assoc "timestamp" r) = inr iso →
  simplify_review r
  = inr {| entry_rating := assoc "rating" r;
           entry_text := if truthy (assoc "reviewText" r) then assoc "reviewText" r
                         else assoc "review" r;
           entry_date := split_head "T"%char iso;
           entry_sentiment := assoc "ai_sentiment" r;
           entry_tags := assoc "ai_tags" r |}.
Proof. intros Hdate. unfold simplify_review, js_or. by rewrite Hdate. Qed.

Lemma simplify_review_undated (r : list (string * json)) (e : Thrown) :
  Date_toISOString (if truthy (assoc "createdAt" r) then assoc "createdAt" r
                    else assoc "timestamp" r) = inl e →
  simplify_review r = inl e.
Proof. intros Hdate. unfold simplify_review, js_or. by rewrite Hdate. Qed.

(** When every date converts, every record is simplified. *)
Lemma simplify_all_dated (rs : list (list (string * json))) :
  Forall (λ r, ∃ iso,
            Date_toISOString (if truthy (assoc "createdAt" r) then assoc "createdAt" r
                              else assoc "timestamp" r) = inr iso) rs →
  ∃ entries, simplify_all rs = inr entries.
Proof.
  induction rs as [|r rest IH]; intros Hall; [by exists []|].
  apply Forall_cons_1 in Hall as [[iso Hdate] Hrest].
  destruct (IH Hrest) as [entries Hentries].
  simpl. rewrite (simplify_review_dated _ _ Hdate), Hentries. by eexists.
Qed.

(** When one date does not convert, no list of entries is made. *)
Lemma simplify_all_undated (rs : list (list (string * json))) :
  Exists (λ r, ∃ e,
            Date_toISOString (if truthy (assoc "createdAt" r) then assoc "createdAt" r
                              else assoc "timestamp" r) = inl e) rs →
  ∃ e, simplify_all rs = inl e.
Proof.
  induction 1 as [r rest [e Hdate]|r rest _ [e IH]]; simpl.
  - rewrite (simplify_review_undated _ _ Hdate). by exists e.
  - destruct (simplify_review r) as [e'|entry]; [by exists e'|].
    rewrite IH. by exists e.
Qed.

End ReportShape.

(** C8, as stated, fails: with one record stored, complete but for its
    date, the report route neither answers 404 nor hands a normalised input
    set to the AI service; it answers 500 and makes no AI call. *)
Lemma dateless_record_not_normalised :
  reviews dateless_world ≠ []
  ∧ (report_POST (RT := test_runtime test_table) (env_with (inr (Some "report")))
       dateless_world).1 = report_error_response
  ∧ ai_calls (report_POST (RT := test_runtime test_table) (env_with (inr (Some "report")))
                dateless_world).2 = []
  ∧ ¬ spec_report_normalises (RT := test_runtime test_table)
        (env_with (inr (Some "report"))) dateless_world.
Proof.
  split; [discriminate|]. split; [reflexivity|]. split; [reflexivity|].
  intros Hspec. destruct Hspec as (entries & _ & Hcalls); [discriminate|].
  change ([] = [] ++ [report_request entries]) in Hcalls. discriminate Hcalls.
Qed.

(** C8, amended.  With a database that answers: the report route responds
    404, the no-data response, exactly when no record is stored.  It looks at
    the last 50 records, all of them if there are fewer.  When each of them
    has a date that converts, the date being taken from [createdAt] or, if
    that is missing or falsy, from [timestamp], the AI service is called
    once, with one entry for each record, in order: the entry has the
    record's [rating], [ai_sentiment] and [ai_tags] as they are, its text
    from [reviewText] or, if that is missing or falsy, from [review], and the
    day of its date.  When the service then returns no text, the response is
    200 with the report "Failed to generate report.".  When one of these
    records has a date that does not convert, the response is the 500 and the
    AI service is not called. *)
Theorem report_job `{RT : Runtime} (env : Env) (w : World) :
  getAdminDatabase_throws env = None →
  once_throws env = None →
  let recent := limitToLast 50 (reviews w) in
  let date_of (r : list (string * json)) :=
    Date_toISOString (if truthy (assoc "createdAt" r) then assoc "createdAt" r
                      else assoc "timestamp" r) in
  (status (report_POST env w).1 = 404 ↔ reviews w = [])
  ∧ ((report_POST env w).1 = no_reviews_response ↔ reviews w = [])
  ∧ recent `suffix_of` reviews w
  ∧ length recent = (50 `min` length (reviews w))%nat
  ∧ (reviews w ≠ [] →
     Forall (λ r, ∃ iso, date_of r = inr iso) recent →
     ∃ entries,
       ai_calls (report_POST env w).2 = ai_calls w ++ [report_request entries]
       ∧ length entries = (50 `min` length (reviews w))%nat
       ∧ Forall2 (λ r entry,
                    entry_rating entry = assoc "rating" r
                    ∧ entry_sentiment entry = assoc "ai_sentiment" r
                    ∧ entry_tags entry = assoc "ai_tags" r
                    ∧ entry_text entry
                      = (if truthy (assoc "reviewText" r) then assoc "reviewText" r
                         else assoc "review" r)
                    ∧ ∃ iso, date_of r = inr iso
                             ∧ entry_date entry = split_head "T"%char iso)
                 recent entries
       ∧ (∀ text, generateContent env (report_request entries) = inr text →
            str_truthy text = false →
            (report_POST env w).1
            = {| status := 200; headers := [];
                 body := [ ("report", VStr "Failed to generate report.") ] |})
       ∧ (∀ text, generateContent env (report_request entries) = inr (Some text) →
            text ≠ "" →
            (report_POST env w).1
            = {| status := 200; headers := []; body := [ ("report", VStr text) ] |}))
  ∧ (Exists (λ r, ∃ e, date_of r = inl e) recent →
     (report_POST env w).1 = report_error_response
     ∧ ai_calls (report_POST env w).2 = ai_calls w).
Proof.
  intros Hdb Honce recent date_of. subst recent.
  assert (Hrun : report_POST env w
    = match limitToLast 50 (reviews w) with
      | [] => (no_reviews_response, w)
      | _ =>
          match simplify_all (limitToLast 50 (reviews w)) with
          | inl e => (report_error_response, console_error (LogReportError e) w)
          | inr reviewsList =>
              match generateContent env (report_request reviewsList) with
              | inl e => (report_error_response,
                          console_error (LogReportError e)
                            (record_ai_call (report_request reviewsList) w))
              | inr text =>
                  (report_response (if str_truthy text then default "" text
                                    else "Failed to generate report."),
                   record_ai_call (report_request reviewsList) w)
              end
          end
      end).
  { unfold report_POST, report_try. rewrite Hdb, Honce.
    destruct (limitToLast 50 (reviews w)) as [|r rs]; [done|].
    destruct (simplify_all (r :: rs)) as [e|reviewsList]; [done|].
    by destruct (generateContent env (report_request reviewsList)). }
  assert (H404 : ∀ P : Response → Prop,
            P no_reviews_response → ¬ P report_error_response →
            (∀ m, ¬ P (report_response m)) →
            (P (report_POST env w).1 ↔ reviews w = [])).
  { intros P Hyes Hno1 Hno2. rewrite Hrun, <- limitToLast_nil.
    destruct (limitToLast 50 (reviews w)) as [|r rs]; [done|].
    destruct (simplify_all (r :: rs)) as [e|reviewsList]; [done|].
    destruct (generateContent env (report_request reviewsList)); simpl; [done|].
    split; [|done]. intros HP. by apply Hno2 in HP. }
  split_and!.
  - by apply (H404 (λ resp, status resp = 404)).
  - by apply (H404 (λ resp, resp = no_reviews_response)).
  - apply limitToLast_suffix.
  - apply limitToLast_length.
  - intros Hne Hdated.
    destruct (simplify_all_dated _ Hdated) as [entries Hsimp].
    exists entries. rewrite Hrun, Hsimp.
    pose proof (simplify_all_each _ _ Hsimp) as Heach.
    destruct (limitToLast 50 (reviews w)) as [|r rs] eqn:Hlast.
    { exfalso. apply Hne. by apply limitToLast_nil. }
    rewrite <- Hlast in *.
    split_and!.
    + by destruct (generateContent env (report_request entries)).
    + rewrite <- (Forall2_length _ _ _ Heach). apply limitToLast_length.
    + apply Forall2_same_length_lookup. split; [by eapply Forall2_length|].
      intros i r' entry Hr Hentry.
      rewrite Forall_forall in Hdated.
      destruct (Hdated r') as [iso Hiso]; [by eapply list_elem_of_lookup_2|].
      destruct (Forall2_lookup_l _ _ _ _ _ Heach Hr) as (entry' & Hentry' & Hmade).
      rewrite Hentry in Hentry'. injection Hentry' as <-.
      rewrite (simplify_review_dated _ _ Hiso) in Hmade. injection Hmade as <-.
      cbn. split_and!; try done. by exists iso.
    + intros text Hai Hempty. by rewrite Hai, Hempty.
    + intros text Hai Htext. rewrite Hai. unfold str_truthy.
      by rewrite bool_decide_eq_false_2.
  - intros Hundated.
    destruct (simplify_all_undated _ Hundated) as [e Hsimp].
    rewrite Hrun, Hsimp.
    destruct (limitToLast 50 (reviews w)) as [|r rs]; [by apply Exists_nil in Hundated|done].
Qed.

(** Two stored records, the second with [review] and [timestamp] in place of
    [reviewText] and [createdAt], and an AI service that returns nothing:
    both records reach the service in the simplified shape, and the report is
    the fallback text. *)
Lemma report_job_witness :
  (report_POST (RT := test_runtime test_table) (env_with (inr None)) legacy_world).1
  = {| status := 200; headers := [];
       body := [ ("report", VStr "Failed to generate report.") ] |}
  ∧ ai_calls (report_POST (RT := test_runtime test_table) (env_with (inr None))
                legacy_world).2
    = [ report_request
          [ {| entry_rating := Some (JNum (Finite 4));
               entry_text := Some (JStr "Nice app");
               entry_date := "2025-01-15";
               entry_sentiment := Some (JNum (Finite 80));
               entry_tags := Some (JArr [JStr "App Experience"]) |};
            {| entry_rating := Some (JNum (Finite 2));
               entry_text := Some (JStr "Late delivery");
               entry_date := "2025-01-15";
               entry_sentiment := None;
               entry_tags := None |} ] ].
Proof.
  destruct (report_job (RT := test_runtime test_table) (env_with (inr None)) legacy_world
              eq_refl eq_refl) as (_ & _ & _ & _ & Hdated & _).
  destruct Hdated as (entries & Hcalls & _ & Hshape & Hfallback & _).
  { discriminate. }
  { repeat constructor; by exists "2025-01-15T09:30:00.000Z". }
  split; [exact (Hfallback None eq_refl eq_refl)|].
  rewrite Hcalls.
  change (limitToLast 50 (reviews legacy_world)) with (reviews legacy_world) in Hshape.
  apply Forall2_cons_inv_l in Hshape as (e1 & rest1 & H1 & Hshape & ->).
  apply Forall2_cons_inv_l in Hshape as (e2 & rest2 & H2 & Hshape & ->).
  apply Forall2_nil_inv_l in Hshape as ->.
  destruct e1 as [r1 t1 d1 s1 g1], e2 as [r2 t2 d2 s2 g2].
  cbn [entry_rating entry_text entry_date entry_sentiment entry_tags] in H1, H2.
  destruct H1 as (-> & -> & -> & -> & iso1 & Hiso1 & ->).
  destruct H2 as (-> & -> & -> & -> & iso2 & Hiso2 & ->).
  vm_compute in Hiso1, Hiso2. injection Hiso1 as <-. injection Hiso2 as <-.
  reflexivity.
Defined.

(** * Further properties of the code *)

(** ** The response schema, in full *)

Lemma z_string_nonempty_ok (m : option string) (input : option json) (s : string) :
  z_string [Min 1 m] input = ZOk s ↔ input = Some (JStr s) ∧ s ≠ "".
Proof.
  rewrite z_string_min_ok. split; intros [-> H]; (split; [done|]).
  - intros ->. simpl in H. lia.
  - destruct s; [done|]. simpl. lia.
Qed.

(** The values the response schema accepts, with what it makes of them. *)
Lemma AIResponseSchema_ok_iff (input : option json) (aiData : AIResponse) :
  AIResponseSchema input = ZOk aiData
  ↔ ∃ fields,
      input = Some (JObj fields)
      ∧ assoc "response" fields = Some (JStr (response aiData)) ∧ response aiData ≠ ""
      ∧ assoc "summary" fields = Some (JStr (summary aiData)) ∧ summary aiData ≠ ""
      ∧ assoc "action" fields = Some (JStr (action aiData)) ∧ action aiData ≠ ""
      ∧ (∃ q, assoc "sentiment_score" fields = Some (JNum (Finite q))
              ∧ sentiment_score aiData = Finite q ∧ (0 <= q)%Q ∧ (q <= 100)%Q)
      ∧ ((assoc "tags" fields = None ∧ tags aiData = [])
         ∨ (assoc "tags" fields = Some (JArr (JStr <$> tags aiData))
            ∧ Forall (λ t, t ∈ AllowedTags) (tags aiData))).
Proof.
  split.
  - destruct input as [[| | | | |fields]|]; try discriminate.
    unfold AIResponseSchema, z_object, field. intros H.
    apply zap_ok in H as (g5 & tg & H & Htg & ->).
    apply zap_ok in H as (g4 & sc & H & Hsc & ->).
    apply zap_ok in H as (g3 & a & H & Ha & ->).
    apply zap_ok in H as (g2 & s & H & Hs & ->).
    apply zap_ok in H as (g1 & r & H & Hr & ->).
    injection H as <-. simpl.
    apply at_path_ok, z_string_nonempty_ok in Hr as [Hr Hr'].
    apply at_path_ok, z_string_nonempty_ok in Hs as [Hs Hs'].
    apply at_path_ok, z_string_nonempty_ok in Ha as [Ha Ha'].
    apply at_path_ok, z_number_range_ok in Hsc as (q & Hq & -> & H0 & H100).
    apply at_path_ok, tags_field_ok in Htg.
    exists fields. split_and!; try done. by exists q.
  - intros (fields & -> & Hr & Hr' & Hs & Hs' & Ha & Ha' & (q & Hq & Hsc & H0 & H100) & Htg).
    unfold AIResponseSchema, z_object, field.
    assert (Er : z_string [Min 1 None] (assoc "response" fields) = ZOk (response aiData))
      by by apply z_string_nonempty_ok.
    assert (Es : z_string [Min 1 None] (assoc "summary" fields) = ZOk (summary aiData))
      by by apply z_string_nonempty_ok.
    assert (Ea : z_string [Min 1 None] (assoc "action" fields) = ZOk (action aiData))
      by by apply z_string_nonempty_ok.
    assert (Eq : z_number [Min 0 None; Max 100 None] (assoc "sentiment_score" fields)
                 = ZOk (sentiment_score aiData)).
    { apply z_number_range_ok. by exists q. }
    assert (Et : z_default (z_array AllowedTagSchema) (JArr []) (assoc "tags" fields)
                 = ZOk (tags aiData)) by by apply tags_field_ok.
    rewrite Er, Es, Ea, Eq, Et. simpl. by destruct aiData.
Qed.

(** X12.  The response schema accepts a value exactly when it is an object
    whose [response], [summary] and [action] are non-empty strings, whose
    [sentiment_score] is a finite number from 0 to 100, and whose [tags] is
    either missing (the parsed tags are then empty) or an array of strings of
    the vocabulary, of any length.  A key the schema does not name plays no
    part: with or without it the outcome is the same. *)
Theorem AIResponseSchema_accepts_iff (input : option json) (aiData : AIResponse) :
  (AIResponseSchema input = ZOk aiData
   ↔ ∃ fields,
       input = Some (JObj fields)
       ∧ assoc "response" fields = Some (JStr (response aiData)) ∧ response aiData ≠ ""
       ∧ assoc "summary" fields = Some (JStr (summary aiData)) ∧ summary aiData ≠ ""
       ∧ assoc "action" fields = Some (JStr (action aiData)) ∧ action aiData ≠ ""
       ∧ (∃ q, assoc "sentiment_score" fields = Some (JNum (Finite q))
               ∧ sentiment_score aiData = Finite q ∧ (0 <= q)%Q ∧ (q <= 100)%Q)
       ∧ ((assoc "tags" fields = None ∧ tags aiData = [])
          ∨ (assoc "tags" fields = Some (JArr (JStr <$> tags aiData))
             ∧ Forall (λ t, t ∈ AllowedTags) (tags aiData))))
  ∧ (∀ (key : string) (v : json) (fields : list (string * json)),
       key ∉ ["response"; "summary"; "action"; "sentiment_score"; "tags"] →
       AIResponseSchema (Some (JObj ((key, v) :: fields)))
       = AIResponseSchema (Some (JObj fields))).
Proof.
  split; [apply AIResponseSchema_ok_iff|].
  intros key v fields Hkey.
  unfold AIResponseSchema, z_object, field. cbn [assoc].
  rewrite !decide_False; [done|..]; intros ->; apply Hkey; set_solver.
Qed.

(** ** The submission route, path by path *)

Lemma Math_round_range (q : Q) :
  (0 <= q)%Q → (q <= 100)%Q → 0 ≤ Math_round q ≤ 100.
Proof.
  intros H0 H100. unfold Math_round. split.
  - change 0 with (Qfloor 0). apply Qfloor_resp_le.
    apply Qle_trans with q; [done|].
    rewrite <- (Qplus_0_r q) at 1. by apply Qplus_le_r.
  - change 100 with (Qfloor (100 + (1 # 2))). apply Qfloor_resp_le.
    by apply Qplus_le_l.
Qed.

(** Every path through the route handler, one goal each: limited; body not
    readable; input invalid; AI call throws; reply empty, not parseable or
    falsy; reply of invalid structure; database handle throws; push throws;
    success. *)
Ltac POST_paths env request w :=
  unfold POST, POST_try;
  destruct (isRateLimited (getClientIp request) (now_admission env) (rateLimitStore w))
    as [?rl ?store] eqn:?Hrl;
  destruct (limited _) eqn:?Hlim;
  [| destruct (json_body request) as [?e|?body] eqn:?Hbody;
     [| destruct (ReviewFormSchema (Some _)) as [?data|?issues] eqn:?Hform;
        [ destruct (generateContent env (analysis_request _)) as [?e|?reply] eqn:?Hai;
          [| unfold after_reply;
             destruct (parse_ai_text _ _) as [?aiJson ?w3] eqn:?Hparse;
             destruct (truthy _) eqn:?Htruthy; cbn [negb];
             [ destruct (AIResponseSchema _) as [?aiData|?issues] eqn:?Hschema;
               [ destruct (getAdminDatabase_throws env) as [?e|] eqn:?Hdb;
                 [| destruct (push_throws env) as [?e|] eqn:?Hpush ] |] |] ] |] ] ].

(** Projections of the worlds and responses the paths end in. *)
Ltac path_simpl :=
  cbn [fst snd reviews console ai_calls rateLimitStore status body headers
       push_review console_error set_rateLimitStore record_ai_call
       rate_limited_response invalid_input_response parsing_failed_response
       invalid_structure_response success_response internal_error_response] in *.

Section SubmissionPaths.
Context `{RT : Runtime}.

Lemma parse_ai_text_console_prefix (text : option string) (w : World) :
  console w `prefix_of` console (parse_ai_text text w).2.
Proof.
  unfold parse_ai_text. destruct text as [t|]; [|done].
  destruct (str_truthy (Some t)); [|done].
  destruct (JSON_parse t); simpl; [by apply prefix_app_r|done].
Qed.

(** A document built from the outcomes of the two schemas is well formed. *)
Lemma review_document_well_formed (body : json) (data : ReviewFormData)
    (aiJson : option json) (aiData : AIResponse) (perf : Q) (now : Z) :
  ReviewFormSchema (Some body) = ZOk data →
  AIResponseSchema aiJson = ZOk aiData →
  well_formed_document (review_document data aiData (Z.max 0 (Math_round perf)) now).
Proof.
  intros Hform Hschema.
  apply ReviewFormSchema_ok in Hform as (fields & q & _ & _ & H1 & H5 & _ & Hlen & Hq).
  apply AIResponseSchema_ok_iff in Hschema
    as (fs & _ & _ & Hr & _ & Hs & _ & Ha & (x & _ & Hx & H0 & H100) & Htags).
  unfold well_formed_document, review_document.
  cbn [rating reviewText ai_response ai_summary ai_action ai_sentiment ai_tags latency_ms].
  rewrite Hx. cbn [round_number].
  split_and!; try done.
  - by exists q.
  - lia.
  - lia.
  - exists (Math_round x). split; [done|]. by apply Math_round_range.
  - by destruct Htags as [[_ ->]|[_ ?]].
  - lia.
Qed.

End SubmissionPaths.

(** X1.  Whatever the request, the clock, the AI service and the database
    do: after the route has run, the stored reviews are the ones before, or
    the ones before with one document appended, and such a document has a
    rating from 1 to 5, a review text of 5 to 1000 characters, a non-empty
    reply, summary and action, a whole-number sentiment from 0 to 100, tags
    of the vocabulary only, and a latency that is not negative. *)
Theorem stored_record_well_formed `{RT : Runtime} (env : Env) (request : Request)
    (w : World) :
  reviews (POST env request w).2 = reviews w
  ∨ ∃ d, reviews (POST env request w).2 = reviews w ++ [document_fields d]
         ∧ well_formed_document d.
Proof.
  POST_paths env request w; path_simpl;
    try (pose proof (parse_ai_text_reviews reply
           (record_ai_call (analysis_request data) (set_rateLimitStore store w))) as (Hrev & _);
         rewrite Hparse in Hrev; path_simpl);
    try (by left).
  right. eexists. rewrite Hrev. split; [reflexivity|].
  by eapply review_document_well_formed.
Qed.

(** X2.  The status of the response is 200, 400, 429 or 500, and a record is
    stored exactly when it is 200: with 200 exactly one record is appended,
    with any other status the stored reviews are untouched. *)
Theorem record_stored_iff_200 `{RT : Runtime} (env : Env) (request : Request) (w : World) :
  status (POST env request w).1 ∈ [200; 400; 429; 500]
  ∧ if decide (status (POST env request w).1 = 200)
    then ∃ r, reviews (POST env request w).2 = reviews w ++ [r]
    else reviews (POST env request w).2 = reviews w.
Proof.
  POST_paths env request w; path_simpl;
    try (pose proof (parse_ai_text_reviews reply
           (record_ai_call (analysis_request data) (set_rateLimitStore store w))) as (Hrev & _);
         rewrite Hparse in Hrev; path_simpl);
    (split; [set_solver|]); try done.
  rewrite Hrev. by eexists.
Qed.

(** The rate-limit map after the route has run is the one the admission
    check returned. *)
Lemma POST_rateLimitStore `{RT : Runtime} (env : Env) (request : Request) (w : World) :
  rateLimitStore (POST env request w).2
  = (isRateLimited (getClientIp request) (now_admission env) (rateLimitStore w)).2.
Proof.
  POST_paths env request w; path_simpl;
    try (pose proof (parse_ai_text_reviews reply
           (record_ai_call (analysis_request data) (set_rateLimitStore store w)))
           as (_ & _ & Hst);
         rewrite Hparse in Hst; path_simpl);
    done.
Qed.

(** The response is 429 exactly when the admission check denies. *)
Lemma POST_status_429 `{RT : Runtime} (env : Env) (request : Request) (w : World) :
  status (POST env request w).1 = 429
  ↔ limited (isRateLimited (getClientIp request) (now_admission env) (rateLimitStore w)).1
    = true.
Proof. POST_paths env request w; path_simpl; done. Qed.

(** X3.  The whole successful run.  When the request is admitted, its body
    validates, the reply of the AI service parses to a value that passes the
    response schema, and the database calls succeed, then the response is 200
    with the reply text of the AI as message, exactly one document is
    appended, built from the submission, the reply, the latency and the
    clock, exactly one AI call was made, for this submission, nothing was
    logged, and the client's window holds its pruned timestamps followed by
    the time of this request.  The latency is the elapsed time as the route
    measured it, [performance.now() - start], rounded to the nearest integer,
    a tie going up, and 0 if that is negative. *)
Theorem successful_submission `{RT : Runtime} (env : Env) (request : Request) (w : World)
    (body : json) (data : ReviewFormData) (text : string) (aiJson : json)
    (aiData : AIResponse) :
  reply_parsed env request w body data text aiJson →
  AIResponseSchema (Some aiJson) = ZOk aiData →
  getAdminDatabase_throws env = None →
  push_throws env = None →
  (POST env request w).1
  = {| status := 200; headers := [];
       body := [ ("success", VBool true); ("message", VStr (response aiData)) ] |}
  ∧ reviews (POST env request w).2
    = reviews w
      ++ [ document_fields
             {| rating := form_rating data;
                reviewText := form_review data;
                ai_response := response aiData;
                ai_summary := summary aiData;
                ai_action := action aiData;
                ai_sentiment := round_number (sentiment_score aiData);
                ai_tags := tags aiData;
                latency_ms := Z.max 0 (Math_round (elapsed env));
                createdAt := now_created env |} ]
  ∧ ai_calls (POST env request w).2 = ai_calls w ++ [analysis_request data]
  ∧ console (POST env request w).2 = console w
  ∧ history (rateLimitStore (POST env request w).2) (getClientIp request)
    = fresh_of (now_admission env) (history (rateLimitStore w) (getClientIp request))
      ++ [now_admission env]
  ∧ (inject_Z (Math_round (elapsed env)) - (1 # 2) <= elapsed env)%Q
  ∧ (elapsed env < inject_Z (Math_round (elapsed env)) + (1 # 2))%Q.
Proof.
  intros Hparsed Hschema Hdb Hpush.
  rewrite (POST_reply_parsed _ _ _ _ _ _ _ Hparsed), Hschema, Hdb, Hpush.
  unfold world_at_call. path_simpl.
  split_and!; try done; try (by destruct (Math_round_nearest (elapsed env))).
  destruct Hparsed as ((Hadm & _) & _). unfold admitted in Hadm.
  rewrite isRateLimited_limited_iff in Hadm. apply bool_decide_eq_false in Hadm.
  rewrite isRateLimited_allowed by lia. cbn [snd]. by rewrite history_insert_eq.
Qed.

(** The sample submission with the reply "Thanks!", measured at 240.4 ms:
    200 with that message, and a latency of 240 in the stored document. *)
Lemma successful_submission_witness :
  (POST (RT := test_runtime test_table) (env_with (inr (Some "good reply")))
     sample_request empty_world).1
  = {| status := 200; headers := [];
       body := [ ("success", VBool true); ("message", VStr "Thanks!") ] |}
  ∧ (λ r, assoc "latency_ms" r)
      <$> reviews (POST (RT := test_runtime test_table) (env_with (inr (Some "good reply")))
                     sample_request empty_world).2
    = [Some (JNum (Finite 240))]
  ∧ history (rateLimitStore
               (POST (RT := test_runtime test_table) (env_with (inr (Some "good reply")))
                  sample_request empty_world).2) sample_ip
    = [6000].
Proof.
  assert (Hp : reply_parsed (RT := test_runtime test_table)
                 (env_with (inr (Some "good reply"))) sample_request empty_world
                 sample_body sample_data "good reply"
                 (reply_with (916 # 10) ["Service"])).
  { repeat split; try reflexivity. discriminate. }
  destruct (successful_submission (RT := test_runtime test_table) _ _ _ _ _ _ _ _
              Hp eq_refl eq_refl eq_refl) as (Hresp & Hrev & _ & _ & Hhist & _).
  split; [exact Hresp|]. split; [|exact Hhist].
  rewrite Hrev. reflexivity.
Defined.

(** X4.  The route changes the rate-limit map exactly as its one admission
    check does, whatever happens afterwards.  So an admitted request uses up
    one place in its client's window also when its body is invalid, when the
    AI call or the database fails: the client's entry becomes the pruned
    timestamps followed by the time of the request. *)
Theorem admitted_request_counts `{RT : Runtime} (env : Env) (request : Request) (w : World) :
  admitted env request w →
  rateLimitStore (POST env request w).2
  = (isRateLimited (getClientIp request) (now_admission env) (rateLimitStore w)).2
  ∧ rateLimitStore (POST env request w).2
    = <[ getClientIp request :=
           fresh_of (now_admission env) (history (rateLimitStore w) (getClientIp request))
           ++ [now_admission env] ]> (rateLimitStore w).
Proof.
  intros Hadm.
  pose proof (POST_rateLimitStore env request w) as Hstore.
  split; [exact Hstore|]. rewrite Hstore.
  unfold admitted in Hadm. rewrite isRateLimited_limited_iff in Hadm.
  apply bool_decide_eq_false in Hadm.
  by rewrite isRateLimited_allowed by lia.
Qed.

(** A first request with a rating of 0 is answered 400 and still takes a
    place in the window. *)
Lemma admitted_request_counts_witness :
  history (rateLimitStore
             (POST (RT := test_runtime test_table) (env_with (inr None))
                (request_with (inr bad_body)) empty_world).2) sample_ip
  = [6000].
Proof.
  assert (Hadm : admitted (env_with (inr None)) (request_with (inr bad_body)) empty_world)
    by reflexivity.
  destruct (admitted_request_counts (RT := test_runtime test_table) _ _ _ Hadm) as [_ Hst].
  rewrite Hst. reflexivity.
Defined.

(** X5.  A reply that is valid JSON but a falsy value (null, 0, false, the
    empty string) is answered like a reply that does not parse: the 500 for a
    failed parse, with nothing stored; since the text did parse, nothing is
    logged either. *)
Theorem falsy_reply_rejected `{RT : Runtime} (env : Env) (request : Request) (w : World)
    (body : json) (data : ReviewFormData) (text : string) (v : json) :
  ai_replied env request w body data (Some text) →
  JSON_parse text = inr v →
  truthy (Some v) = false →
  (POST env request w).1 = parsing_failed_response
  ∧ reviews (POST env request w).2 = reviews w
  ∧ console (POST env request w).2 = console w.
Proof.
  intros Hreplied Hparse Hfalsy.
  unfold POST. rewrite (POST_try_ai_replied _ _ _ _ _ _ Hreplied).
  unfold after_reply, parse_ai_text.
  destruct (str_truthy (Some text)); [rewrite Hparse, Hfalsy|]; done.
Qed.

Lemma falsy_reply_rejected_witness :
  (POST (RT := test_runtime falsy_table) (env_with (inr (Some "null")))
     sample_request empty_world).1 = parsing_failed_response
  ∧ console (POST (RT := test_runtime falsy_table) (env_with (inr (Some "null")))
               sample_request empty_world).2 = [].
Proof.
  assert (Hr : ai_replied (env_with (inr (Some "null"))) sample_request empty_world
                 sample_body sample_data (Some "null")).
  { repeat split; reflexivity. }
  destruct (falsy_reply_rejected (RT := test_runtime falsy_table) _ _ _ _ _ "null" JNull
              Hr eq_refl eq_refl) as (Hresp & _ & Hlog).
  split; [exact Hresp | exact Hlog].
Defined.

(** X6.  When the body of an admitted request cannot be read, the response is
    the 500 of the catch block with the message of the exception, the
    exception is logged, the AI service is not called and nothing is
    stored. *)
Theorem unreadable_body `{RT : Runtime} (env : Env) (request : Request) (w : World)
    (e : Thrown) :
  admitted env request w →
  json_body request = inl e →
  (POST env request w).1 = internal_error_response e
  ∧ ai_calls (POST env request w).2 = ai_calls w
  ∧ reviews (POST env request w).2 = reviews w
  ∧ console (POST env request w).2 = console w ++ [LogProcessingError e].
Proof.
  intros Hadm Hbody. unfold POST.
  rewrite POST_try_unlimited by done. cbv zeta. by rewrite Hbody.
Qed.

Lemma unreadable_body_witness :
  (POST (RT := test_runtime test_table) (env_with (inr None))
     (request_with (inl body_error)) empty_world).1
  = internal_error_response body_error
  ∧ ai_calls (POST (RT := test_runtime test_table) (env_with (inr None))
                (request_with (inl body_error)) empty_world).2 = [].
Proof.
  assert (Hadm : admitted (env_with (inr None)) (request_with (inl body_error)) empty_world)
    by reflexivity.
  destruct (unreadable_body (RT := test_runtime test_table) _ _ _ body_error Hadm eq_refl)
    as (Hresp & Hcalls & _).
  split; [exact Hresp | exact Hcalls].
Defined.

(** X7.  When the reply is valid but getting the database or the push
    throws, the response is the 500 of the catch block for that exception,
    which is logged; nothing is stored, although the AI call was made. *)
Theorem storage_failure `{RT : Runtime} (env : Env) (request : Request) (w : World)
    (body : json) (data : ReviewFormData) (text : string) (aiJson : json)
    (aiData : AIResponse) (e : Thrown) :
  reply_parsed env request w body data text aiJson →
  AIResponseSchema (Some aiJson) = ZOk aiData →
  getAdminDatabase_throws env = Some e
  ∨ (getAdminDatabase_throws env = None ∧ push_throws env = Some e) →
  (POST env request w).1 = internal_error_response e
  ∧ reviews (POST env request w).2 = reviews w
  ∧ ai_calls (POST env request w).2 = ai_calls w ++ [analysis_request data]
  ∧ console (POST env request w).2 = console w ++ [LogProcessingError e].
Proof.
  intros Hparsed Hschema Hthrow.
  rewrite (POST_reply_parsed _ _ _ _ _ _ _ Hparsed), Hschema.
  destruct Hthrow as [Hdb|[Hdb Hpush]]; rewrite Hdb; [|rewrite Hpush]; done.
Qed.

Lemma storage_failure_witness :
  (POST (RT := test_runtime test_table) (env_failing_push (inr (Some "good reply")))
     sample_request empty_world).1
  = internal_error_response storage_error
  ∧ reviews (POST (RT := test_runtime test_table)
               (env_failing_push (inr (Some "good reply"))) sample_request empty_world).2
    = [].
Proof.
  assert (Hp : reply_parsed (RT := test_runtime test_table)
                 (env_failing_push (inr (Some "good reply"))) sample_request empty_world
                 sample_body sample_data "good reply"
                 (reply_with (916 # 10) ["Service"])).
  { repeat split; try reflexivity. discriminate. }
  destruct (storage_failure (RT := test_runtime test_table) _ _ _ _ _ _ _ _ storage_error
              Hp eq_refl (or_intror (conj eq_refl eq_refl))) as (Hresp & Hrev & _).
  split; [exact Hresp | exact Hrev].
Defined.

(** X8.  The route calls the AI service at most once, and only for an
    admitted request whose body passed the form schema: the call carries the
    validated rating and review, the model name and the descriptor.  A
    limited request, an unreadable body and an invalid submission cause no
    call. *)
Theorem ai_called_for_valid_input_only `{RT : Runtime} (env : Env) (request : Request)
    (w : World) :
  ai_calls (POST env request w).2 = ai_calls w
  ∨ ∃ bdy data,
      admitted env request w
      ∧ json_body request = inr bdy
      ∧ ReviewFormSchema (Some bdy) = ZOk data
      ∧ ai_calls (POST env request w).2
        = ai_calls w
          ++ [ {| model := "gemini-3-flash-preview";
                  contents := AnalyzePrompt (form_rating data) (form_review data);
                  config := StructuredOutput "application/json" responseSchema |} ].
Proof.
  unfold admitted.
  POST_paths env request w; path_simpl;
    try (pose proof (parse_ai_text_reviews reply
           (record_ai_call (analysis_request data) (set_rateLimitStore store w)))
           as (_ & Hcalls & _);
         rewrite Hparse in Hcalls; path_simpl);
    try (by left);
    right; eexists _, data; rewrite ?Hcalls; by split_and!.
Qed.

(** ** The client identifier *)

Lemma split_head_app (sep : Ascii.ascii) (entry rest : string) :
  Forall (λ c, c ≠ sep) (String.list_ascii_of_string entry) →
  split_head sep (entry +:+ String sep rest) = entry.
Proof.
  induction entry as [|c entry IH]; simpl; intros Hno.
  - by rewrite decide_True.
  - apply Forall_cons_1 in Hno as [Hc Hno].
    rewrite decide_False by done. by rewrite IH.
Qed.

Lemma split_head_no_sep (sep : Ascii.ascii) (entry : string) :
  Forall (λ c, c ≠ sep) (String.list_ascii_of_string entry) →
  split_head sep entry = entry.
Proof.
  induction entry as [|c entry IH]; simpl; intros Hno; [done|].
  apply Forall_cons_1 in Hno as [Hc Hno].
  rewrite decide_False by done. by rewrite IH.
Qed.

(** X9.  When [x-forwarded-for] is a single address, or a list of addresses
    separated by commas, and its first entry is not blank, the client
    identifier is that first entry without the white space around it: the
    later entries of the list, [x-real-ip] and the address of the transport
    play no part. *)
Theorem first_forwarded_address (request : Request) (entry : string) :
  Forall (λ c, c ≠ ","%char) (String.list_ascii_of_string entry) →
  trim entry ≠ "" →
  x_forwarded_for request = Some entry
  ∨ (∃ rest, x_forwarded_for request = Some (entry +:+ String ","%char rest)) →
  getClientIp request = trim entry.
Proof.
  intros Hno Hne Hfwd. unfold getClientIp.
  assert (Hsplit : ∃ f, x_forwarded_for request = Some f ∧ f ≠ ""
                        ∧ split_head ","%char f = entry).
  { destruct Hfwd as [Hf|[rest Hf]].
    - exists entry. split; [done|]. split; [|by apply split_head_no_sep].
      intros ->. by apply Hne.
    - exists (entry +:+ String ","%char rest). split; [done|].
      split; [|by apply split_head_app]. by destruct entry. }
  destruct Hsplit as (f & -> & Hf & Hsplit).
  change (default "" (Some f)) with f. rewrite Hsplit. unfold str_truthy.
  by rewrite !bool_decide_eq_false_2.
Qed.

Lemma first_forwarded_address_witness :
  getClientIp sample_request = "203.0.113.7".
Proof.
  apply (first_forwarded_address sample_request "203.0.113.7").
  - repeat constructor; discriminate.
  - discriminate.
  - right. by exists " 10.0.0.1".
Defined.

(** X10.  The client identifier is the empty string in one case only: no
    usable first entry in [x-forwarded-for], and an [x-real-ip] that is
    present, not empty, and all white space.  In every other case it is not
    empty; with no header and no transport address it is "unknown". *)
Theorem empty_client_id (request : Request) :
  (getClientIp request = ""
   ↔ (∀ f, x_forwarded_for request = Some f → trim (split_head ","%char f) = "")
     ∧ ∃ r, x_real_ip request = Some r ∧ r ≠ "" ∧ trim r = "")
  ∧ (x_forwarded_for request = None → x_real_ip request = None → ip request = None →
     getClientIp request = "unknown").
Proof.
  split; [|by intros Hf Hr Hi; unfold getClientIp; rewrite Hf, Hr, Hi].
  unfold getClientIp, str_truthy.
  destruct (x_forwarded_for request) as [f|], (x_real_ip request) as [r|],
    (ip request) as [i|]; cbn [default];
    repeat case_bool_decide; cbn [negb]; split;
    try (intros [Hf (r' & Hr & Hne & Ht)]; simplify_eq;
         try (by specialize (Hf _ eq_refl)));
    try (intros Hempty; simplify_eq);
    try done;
    try (split; [intros ? ?; by simplify_eq|by eexists]).
  all: try (split; [intros ? ?; simplify_eq; by rewrite ?Hempty|]; by eexists).
Qed.

(** ** Rate limiting across requests *)

Section ServingFacts.
Context `{RT : Runtime}.

Lemma serve_all_cons (env : Env) (request : Request) (rest : list (Env * Request))
    (w : World) :
  serve_all ((env, request) :: rest) w
  = ((POST env request w).1 :: (serve_all rest (POST env request w).2).1,
     (serve_all rest (POST env request w).2).2).
Proof.
  simpl. destruct (POST env request w) as [resp w1]. simpl.
  by destruct (serve_all rest w1).
Qed.

(** Serving requests moves the rate-limit map as the admission calls of the
    requests do, and a response is 429 exactly where the admission call was
    denied. *)
Lemma serve_all_admit_all (requests : list (Env * Request)) :
  ∀ w : World,
  rateLimitStore (serve_all requests w).2
  = (admit_all (admission_call <$> requests) (rateLimitStore w)).2
  ∧ Forall2 (λ resp r, status resp = 429 ↔ limited r = true)
            (serve_all requests w).1
            (admit_all (admission_call <$> requests) (rateLimitStore w)).1.
Proof.
  induction requests as [|[env request] rest IH]; intros w.
  - split; [done|constructor].
  - rewrite serve_all_cons, fmap_cons. unfold admission_call at 1 3.
    cbn [fst snd]. rewrite admit_all_cons. cbn [fst snd].
    rewrite <- POST_rateLimitStore.
    destruct (IH (POST env request w).2) as [Hst Hall].
    split; [exact Hst|]. constructor; [apply POST_status_429|exact Hall].
Qed.

End ServingFacts.

(** X11.  Requests served one after the other, by whichever clients: let a
    client's window be empty or stale at the start and let its requests all
    lie within 60,000 ms.  Then its request is answered 429 exactly when the
    client has made five or more requests before it, whatever became of
    those: a request that was rejected as invalid, or failed at the AI or at
    the database, counts like a successful one. *)
Theorem sixth_request_limited `{RT : Runtime} (requests : list (Env * Request))
    (w : World) (client : string) :
  Forall (λ h, Forall (λ t, RATE_LIMIT_WINDOW_MS ≤ t - h)
                 (times_of client (admission_call <$> requests)))
         (history (rateLimitStore w) client) →
  within_one_window (times_of client (admission_call <$> requests)) →
  ∀ (i : nat) (env : Env) (request : Request) (resp : Response),
    requests !! i = Some (env, request) →
    getClientIp request = client →
    (serve_all requests w).1 !! i = Some resp →
    (status resp = 429
     ↔ (5 ≤ length (times_of client (admission_call <$> take i requests)))%nat).
Proof.
  intros Hstale Hwin i env request resp Hi Hclient Hresp.
  destruct (serve_all_admit_all requests w) as [_ Hall].
  destruct (Forall2_lookup_l _ _ _ _ _ Hall Hresp) as (r & Hr & Hiff).
  destruct (admit_all_window client (admission_call <$> requests) (rateLimitStore w)
              (history (rateLimitStore w) client) [])
    with (i := i) (now := now_admission env) (r := r) as [Hl _]; try done.
  - by rewrite app_nil_r.
  - rewrite list_lookup_fmap, Hi. unfold admission_call. simpl. by rewrite Hclient.
  - rewrite Hiff, Hl, fmap_take. simpl. apply bool_decide_eq_true.
Qed.

(** Six requests of the sample client, a second apart: two invalid, one with
    an unreadable body, three with an empty reply.  The sixth is answered
    429. *)
Lemma sixth_request_limited_witness :
  status <$> (serve_all (RT := test_runtime test_table) six_requests empty_world).1 !! 5%nat
  = Some 429.
Proof.
  assert (H1 : Forall (λ h, Forall (λ t, RATE_LIMIT_WINDOW_MS ≤ t - h)
                         (times_of sample_ip (admission_call <$> six_requests)))
                 (history (rateLimitStore empty_world) sample_ip)) by constructor.
  assert (Ht : times_of sample_ip (admission_call <$> six_requests)
               = [1000; 2000; 3000; 4000; 5000; 6000]) by (vm_compute; reflexivity).
  assert (H2 : within_one_window (times_of sample_ip (admission_call <$> six_requests))).
  { rewrite Ht. cbn [within_one_window]. unfold RATE_LIMIT_WINDOW_MS.
    split_and!; repeat (constructor; [lia|]); constructor. }
  assert (Hresp : ∃ resp,
            (serve_all (RT := test_runtime test_table) six_requests empty_world).1 !! 5%nat
            = Some resp) by (vm_compute; eexists; reflexivity).
  destruct Hresp as [resp Hresp]. rewrite Hresp.
  pose proof (sixth_request_limited (RT := test_runtime test_table) six_requests empty_world
                sample_ip H1 H2 5%nat (env_at 6000) sample_request resp
                eq_refl ltac:(vm_compute; reflexivity) Hresp) as Hiff.
  simpl. f_equal. apply Hiff.
  assert (Hk : times_of sample_ip (admission_call <$> take 5 six_requests)
               = [1000; 2000; 3000; 4000; 5000]) by (vm_compute; reflexivity).
  rewrite Hk. simpl. lia.
Defined.

(** ** The form schema: bodies that are no objects, and the messages *)

(** X13.  When the body of an admitted request is JSON but not an object
    (null, a number, a string, an array), the response is 400 with a single
    message at the level of the form, which names the type received, and no
    message under any field; the AI service is not called. *)
Theorem non_object_body_rejected `{RT : Runtime} (env : Env) (request : Request)
    (w : World) (bdy : json) :
  admitted env request w →
  json_body request = inr bdy →
  (∀ fields, bdy ≠ JObj fields) →
  (POST env request w).1
  = {| status := 400; headers := [];
       body := [ ("success", VBool false);
                 ("error", VStr "Invalid input");
                 ("details", VFlattened
                    {| formErrors :=
                         [DefaultMessage
                            (invalid_type (ExpType t_object) (getParsedType (Some bdy)))];
                       fieldErrors := [] |}) ] |}
  ∧ ai_calls (POST env request w).2 = ai_calls w.
Proof.
  intros Hadm Hbody Hno. unfold POST.
  rewrite POST_try_unlimited by done. cbv zeta. rewrite Hbody.
  destruct bdy as [| | | | |fields]; try done.
  by destruct (Hno fields).
Qed.

Lemma non_object_body_rejected_witness :
  status (POST (RT := test_runtime test_table) (env_with (inr None))
            (request_with (inr (JArr []))) empty_world).1 = 400.
Proof.
  assert (Hadm : admitted (env_with (inr None)) (request_with (inr (JArr []))) empty_world)
    by reflexivity.
  destruct (non_object_body_rejected (RT := test_runtime test_table) _ _ _ (JArr [])
              Hadm eq_refl ltac:(discriminate)) as [Hresp _].
  by rewrite Hresp.
Defined.

Lemma Qle_bool_false_lt (x y : Q) : Qle_bool x y = false ↔ (y < x)%Q.
Proof.
  split.
  - intros H. apply Qnot_le_lt. intros Hle.
    apply Qle_bool_iff in Hle. congruence.
  - intros H. apply Qlt_not_le in H.
    destruct (Qle_bool x y) eqn:Hb; [|done].
    apply Qle_bool_iff in Hb. contradiction.
Qed.

(** X14.  For a body with a numeric rating and a string review, what the form
    reports is fixed by the two values: under [rating], "Rating must be at
    least 1" below 1 and "Rating must be at most 5" above 5; under [review],
    "Review must be at least 5 characters" below 5 characters and "Review
    must be at most 1000 characters" above 1000; a field within its bounds
    has no entry, [rating] comes before [review], and there is no message at
    the level of the form. *)
Theorem form_messages (fields : list (string * json)) (q : Q) (s : string)
    (issues : list Issue) :
  assoc "rating" fields = Some (JNum (Finite q)) →
  assoc "review" fields = Some (JStr s) →
  ReviewFormSchema (Some (JObj fields)) = ZFail issues →
  flatten issues
  = {| formErrors := [];
       fieldErrors := group "rating" (rating_messages q)
                      ++ group "review" (review_messages s) |}.
Proof.
  intros Hr Hs. unfold ReviewFormSchema, z_object, field, z_number, z_string.
  rewrite Hr, Hs. unfold rating_messages, review_messages.
  cbn [omap list_omap number_check string_check num_lt num_gt].
  destruct (Qlt_le_dec q 1) as [Hlo|Hlo]; [|destruct (Qlt_le_dec 5 q) as [Hhi|Hhi]].
  - assert (E1 : Qle_bool (inject_Z 1) q = false) by by apply Qle_bool_false_lt.
    assert (E2 : Qle_bool q (inject_Z 5) = true).
    { apply Qle_bool_iff. apply Qlt_le_weak. by apply Qlt_trans with 1%Q. }
    rewrite E1, E2. cbn [negb].
    repeat case_decide; try lia; cbn; intros Hfail; injection Hfail as <-; reflexivity.
  - assert (E1 : Qle_bool (inject_Z 1) q = true) by by apply Qle_bool_iff.
    assert (E2 : Qle_bool q (inject_Z 5) = false) by by apply Qle_bool_false_lt.
    rewrite E1, E2. cbn [negb].
    repeat case_decide; try lia; cbn; intros Hfail; injection Hfail as <-; reflexivity.
  - assert (E1 : Qle_bool (inject_Z 1) q = true) by by apply Qle_bool_iff.
    assert (E2 : Qle_bool q (inject_Z 5) = true) by by apply Qle_bool_iff.
    rewrite E1, E2. cbn [negb].
    repeat case_decide; try lia; cbn; intros Hfail; try discriminate;
      injection Hfail as <-; reflexivity.
Qed.

Lemma form_messages_witness :
  (POST (RT := test_runtime test_table) (env_with (inr None)) (request_with (inr long_body))
     empty_world).1
  = {| status := 400; headers := [];
       body := [ ("success", VBool false);
                 ("error", VStr "Invalid input");
                 ("details", VFlattened
                    {| formErrors := [];
                       fieldErrors :=
                         [ (PKey "rating", [CustomMessage "Rating must be at most 5"]);
                           (PKey "review",
                            [CustomMessage "Review must be at most 1000 characters"]) ] |}) ] |}.
Proof.
  destruct (ReviewFormSchema (Some long_body)) as [d|issues] eqn:Hform;
    [vm_compute in Hform; discriminate Hform|].
  pose proof (form_messages
                [ ("rating", JNum (Finite 7));
                  ("review", JStr (String.concat "" (replicate 1001 "x"))) ]
                (Qmake 7 1) (String.concat "" (replicate 1001 "x")) issues
                eq_refl eq_refl Hform) as Hflat.
  assert (Hpost : (POST (RT := test_runtime test_table) (env_with (inr None))
                     (request_with (inr long_body)) empty_world).1
                  = invalid_input_response issues).
  { unfold POST. rewrite POST_try_unlimited by reflexivity. cbv zeta.
    change (json_body (request_with (inr long_body))) with (@inr Thrown json long_body).
    cbv iota. by rewrite Hform. }
  rewrite Hpost. unfold invalid_input_response. rewrite Hflat. reflexivity.
Defined.

(** ** The report route, path by path *)

(** Every path through the report handler: database handle throws; read
    throws; no record; a record without a usable date; AI call throws; AI
    call returns. *)
Ltac report_paths env w :=
  unfold report_POST, report_try;
  destruct (getAdminDatabase_throws env) as [?e|] eqn:?Hdb;
  [| destruct (once_throws env) as [?e|] eqn:?Honce;
     [| destruct (limitToLast 50 (reviews w)) as [|?r ?rs] eqn:?Hlast;
        [| destruct (simplify_all (_ :: _)) as [?e|?reviewsList] eqn:?Hsimp;
           [| destruct (generateContent env (report_request _)) as [?e|?text] eqn:?Hai ] ] ] ].

Section ReportPaths.
Context `{RT : Runtime}.

Lemma simplify_all_length (rs : list (list (string * json))) (entries : list ReportEntry) :
  simplify_all rs = inr entries → length entries = length rs.
Proof. intros H. apply simplify_all_each, Forall2_length in H. done. Qed.

(** One record whose date cannot be made fails the whole list. *)
Lemma simplify_all_fails (rs : list (list (string * json))) (r : list (string * json))
    (e : Thrown) :
  r ∈ rs → simplify_review r = inl e → ∃ e', simplify_all rs = inl e'.
Proof.
  intros Hin Hr. destruct (simplify_all rs) as [e'|entries] eqn:Hall; [by exists e'|].
  apply simplify_all_each in Hall.
  apply list_elem_of_lookup in Hin as [i Hi].
  destruct (Forall2_lookup_l _ _ _ _ _ Hall Hi) as (entry & _ & Hentry).
  congruence.
Qed.

End ReportPaths.

(** X15.  The report route only reads: whatever the database and the AI
    service do, the stored reviews and the rate-limit map are as before; the
    status is 200, 404 or 500; and the AI service is called at most once,
    with between 1 and 50 entries. *)
Theorem report_read_only `{RT : Runtime} (env : Env) (w : World) :
  reviews (report_POST env w).2 = reviews w
  ∧ rateLimitStore (report_POST env w).2 = rateLimitStore w
  ∧ status (report_POST env w).1 ∈ [200; 404; 500]
  ∧ (ai_calls (report_POST env w).2 = ai_calls w
     ∨ ∃ entries, ai_calls (report_POST env w).2 = ai_calls w ++ [report_request entries]
                  ∧ (1 ≤ length entries ≤ 50)%nat).
Proof.
  report_paths env w; path_simpl; split_and!; try done; try set_solver; try (by left).
  all: right; eexists; split; [reflexivity|];
    apply simplify_all_length in Hsimp; rewrite Hsimp, <- Hlast, limitToLast_length;
    pose proof (f_equal length Hlast) as Hlen; rewrite limitToLast_length in Hlen;
    cbn [length] in Hlen; lia.
Qed.

(** X16.  A failure of the report route never shows in the response what
    went wrong: with status 500 the body is the fixed text "Internal Server
    Error" and the exception goes to the console; with any other status
    nothing is logged. *)
Theorem report_failure_generic `{RT : Runtime} (env : Env) (w : World) :
  if decide (status (report_POST env w).1 = 500)
  then (report_POST env w).1
       = {| status := 500; headers := [];
            body := [ ("error", VStr "Internal Server Error") ] |}
       ∧ ∃ e, console (report_POST env w).2 = console w ++ [LogReportError e]
  else console (report_POST env w).2 = console w.
Proof.
  report_paths env w; path_simpl; cbn [status report_error_response no_reviews_response
    report_response]; case_decide; try done; split; try done; by eexists.
Qed.

(** X17.  One stored record among the last 50 that has neither [createdAt]
    nor [timestamp], for which no date can be made, fails the whole report:
    the response is the 500, and the AI service is not called, although the
    other records are in order. *)
Theorem undated_record_fails_report `{RT : Runtime} (env : Env) (w : World)
    (r : list (string * json)) (e : Thrown) :
  getAdminDatabase_throws env = None →
  once_throws env = None →
  r ∈ limitToLast 50 (reviews w) →
  assoc "createdAt" r = None →
  assoc "timestamp" r = None →
  Date_toISOString None = inl e →
  (report_POST env w).1 = report_error_response
  ∧ ai_calls (report_POST env w).2 = ai_calls w.
Proof.
  intros Hdb Honce Hin Hc Ht Hdate.
  assert (Hr : simplify_review r = inl e).
  { unfold simplify_review, js_or. rewrite Hc, Ht. cbn [truthy]. by rewrite Hdate. }
  destruct (simplify_all_fails _ _ _ Hin Hr) as [e' Hall].
  unfold report_POST, report_try. rewrite Hdb, Honce, Hall.
  destruct (limitToLast 50 (reviews w)); [by apply elem_of_nil in Hin|done].
Qed.

Lemma undated_record_fails_report_witness :
  (report_POST (RT := test_runtime test_table) (env_with (inr (Some "report")))
     undated_world).1
  = report_error_response.
Proof.
  refine (proj1 (undated_record_fails_report (RT := test_runtime test_table)
                   (env_with (inr (Some "report"))) undated_world
                   [ ("rating", JNum (Finite 2)); ("reviewText", JStr "Late delivery") ]
                   (ErrorObject "Invalid time value" None)
                   eq_refl eq_refl _ eq_refl eq_refl eq_refl)).
  vm_compute. apply list_elem_of_further, list_elem_of_here.
Defined.

(** What is found under each key of a stored document, and that the legacy
    keys are not there. *)
Lemma document_fields_lookup (d : ReviewDocument) :
  assoc "rating" (document_fields d) = Some (JNum (rating d))
  ∧ assoc "reviewText" (document_fields d) = Some (JStr (reviewText d))
  ∧ assoc "ai_response" (document_fields d) = Some (JStr (ai_response d))
  ∧ assoc "ai_summary" (document_fields d) = Some (JStr (ai_summary d))
  ∧ assoc "ai_action" (document_fields d) = Some (JStr (ai_action d))
  ∧ assoc "ai_sentiment" (document_fields d) = Some (JNum (ai_sentiment d))
  ∧ assoc "ai_tags" (document_fields d) = Some (JArr (JStr <$> ai_tags d))
  ∧ assoc "latency_ms" (document_fields d)
    = Some (JNum (Finite (inject_Z (latency_ms d))))
  ∧ assoc "createdAt" (document_fields d)
    = Some (JNum (Finite (inject_Z (createdAt d))))
  ∧ assoc "review" (document_fields d) = None
  ∧ assoc "timestamp" (document_fields d) = None.
Proof. split_and!; reflexivity. Qed.

(** X18.  From the submission route to the report route.  A well-formed
    document stored with a clock reading other than 0 is read back by the
    report route with its own rating, review text and sentiment, and with
    the date made from its [createdAt]; the legacy keys are not consulted.
    Its tags come back as stored when there are any.  When there are none,
    the entry has the empty array if the store kept it, and no tags at all
    ([undefined]) if the store, keeping no empty arrays, dropped the key. *)
Theorem stored_document_in_report `{RT : Runtime} (d : ReviewDocument) (iso : string) :
  well_formed_document d →
  createdAt d ≠ 0 →
  Date_toISOString (Some (JNum (Finite (inject_Z (createdAt d))))) = inr iso →
  let entry_with tags :=
    {| entry_rating := Some (JNum (rating d));
       entry_text := Some (JStr (reviewText d));
       entry_date := split_head "T"%char iso;
       entry_sentiment := Some (JNum (ai_sentiment d));
       entry_tags := tags |} in
  (ai_tags d ≠ [] →
     simplify_review (document_fields d)
     = inr (entry_with (Some (JArr (JStr <$> ai_tags d)))))
  ∧ (ai_tags d = [] →
       simplify_review (document_fields d) = inr (entry_with (Some (JArr [])))
       ∧ simplify_review (filter (λ kv, kv.1 ≠ "ai_tags") (document_fields d))
         = inr (entry_with None)).
Proof.
  intros (_ & Hlen & _) Hnow Hdate entry_with.
  assert (Ht : truthy (Some (JNum (Finite (inject_Z (createdAt d))))) = true).
  { cbn [truthy]. destruct (Qeq_bool (inject_Z (createdAt d)) 0) eqn:Hq; [|done].
    apply Qeq_bool_eq in Hq. unfold Qeq in Hq. simpl in Hq. lia. }
  assert (Hs : truthy (Some (JStr (reviewText d))) = true).
  { cbn [truthy]. rewrite bool_decide_eq_false_2; [done|].
    intros Hnil. rewrite Hnil in Hlen. simpl in Hlen. lia. }
  assert (Hkept : simplify_review (document_fields d)
                  = inr (entry_with (Some (JArr (JStr <$> ai_tags d))))).
  { destruct (document_fields_lookup d)
      as (Hr & Htext & _ & _ & _ & Hsent & Htags & _ & Hcreated & _ & _).
    unfold simplify_review, js_or. rewrite Hr, Htext, Hsent, Htags, Hcreated.
    by rewrite Ht, Hdate, Hs. }
  split; [done|]. intros Hnone. split; [by rewrite Hkept, Hnone|].
  unfold simplify_review, js_or, document_fields.
  change (assoc "createdAt" _) with (Some (JNum (Finite (inject_Z (createdAt d))))).
  change (assoc "reviewText" _) with (Some (JStr (reviewText d))).
  change (assoc "rating" _) with (Some (JNum (rating d))).
  change (assoc "ai_sentiment" _) with (Some (JNum (ai_sentiment d))).
  change (assoc "ai_tags" _) with (@None json).
  by rewrite Ht, Hdate, Hs.
Qed.

(** The sample document, stored at 6,300 ms after the epoch with one tag. *)
Lemma stored_document_in_report_witness :
  simplify_review (RT := test_runtime test_table) (document_fields sample_document)
  = inr {| entry_rating := Some (JNum (Finite 5));
           entry_text := Some (JStr "Great service, very happy!");
           entry_date := "1970-01-01";
           entry_sentiment := Some (JNum (Finite 92));
           entry_tags := Some (JArr [JStr "Service"]) |}.
Proof.
  refine (proj1 (stored_document_in_report (RT := test_runtime test_table) sample_document
                   "1970-01-01T00:00:06.300Z" _ ltac:(discriminate) eq_refl)
            ltac:(discriminate)).
  unfold well_formed_document, sample_document. cbn.
  split_and!; try discriminate; try lia.
  - exists 5%Q. split_and!; [done|discriminate|discriminate].
  - exists 92. split; [done|lia].
  - repeat constructor.
Defined.

(** ** The admin page reads what the route stores *)

Lemma getStringArray_strings (l : list string) :
  Admin.getStringArray (Some (JArr (JStr <$> l))) = l.
Proof.
  unfold Admin.getStringArray. induction l as [|s l IH]; [done|].
  rewrite fmap_cons. cbn [omap list_omap]. by rewrite IH.
Qed.

(** X19.  Round trip from the submission route to the admin page: a document
    with a finite rating and sentiment, stored by the route under some key,
    is read by the page as the same rating, texts, sentiment, tags, latency
    and time, with that key as its id.  The same holds when a store that
    keeps no empty arrays has dropped an empty [ai_tags]. *)
Theorem stored_document_on_admin_page (key : string) (d : ReviewDocument) (q s : Q) :
  rating d = Finite q →
  ai_sentiment d = Finite s →
  Admin.toReview key (JObj (document_fields d))
  = {| Admin.id := key;
       Admin.rating := q;
       Admin.reviewText := reviewText d;
       Admin.ai_response := ai_response d;
       Admin.ai_summary := ai_summary d;
       Admin.ai_action := ai_action d;
       Admin.ai_sentiment := s;
       Admin.ai_tags := ai_tags d;
       Admin.latency_ms := inject_Z (latency_ms d);
       Admin.createdAt := inject_Z (createdAt d) |}
  ∧ (ai_tags d = [] →
     Admin.toReview key
       (JObj (filter (λ kv, kv.1 ≠ "ai_tags") (document_fields d)))
     = Admin.toReview key (JObj (document_fields d))).
Proof.
  intros Hq Hs. split.
  - destruct (document_fields_lookup d)
      as (Hr & Htext & Hresp & Hsum & Hact & Hsent & Htags & Hlat & Hcreated & _ & _).
    unfold Admin.toReview. cbn [Admin.toRecord Admin.get].
    rewrite Hr, Htext, Hresp, Hsum, Hact, Hsent, Htags, Hlat, Hcreated, Hq, Hs.
    cbn [Admin.getNumber Admin.getString].
    by rewrite getStringArray_strings.
  - intros Htags. unfold Admin.toReview, document_fields. rewrite Htags.
    reflexivity.
Qed.

Lemma stored_document_on_admin_page_witness :
  Admin.ai_sentiment (Admin.toReview "-Nabc" (JObj (document_fields sample_document)))
  = 92%Q
  ∧ Admin.ai_tags (Admin.toReview "-Nabc" (JObj (document_fields sample_document)))
    = ["Service"].
Proof.
  destruct (stored_document_on_admin_page "-Nabc" sample_document 5 92 eq_refl eq_refl)
    as [H _].
  rewrite H. by split.
Defined.

(** ** The database handle *)

Lemma strip_prefix_Some (p s rest : string) :
  FirebaseAdmin.strip_prefix p s = Some rest ↔ s = p +:+ rest.
Proof.
  revert s. induction p as [|a p IH]; intros s; simpl.
  - split; [by intros [= ->]|by intros ->].
  - destruct s as [|b s]; [done|].
    destruct (decide (a = b)) as [->|Hne].
    + rewrite IH. split; [by intros ->|by intros [= ->]].
    + split; [done|]. intros [= ? ?]. done.
Qed.

Section HandleFacts.
Context `{RT : Runtime} `{SDK : FirebaseAdmin.AdminSDK}.
Import FirebaseAdmin.

(** What the key variable is read as: the trimmed text as JSON, or, when
    that does not parse, the base64 decoding of the trimmed text, or of what
    follows a leading "base64:" in it, trimmed again. *)
Lemma parseServiceAccount_ok (raw : string) (account : json) :
  parseServiceAccount raw = inr account
  ↔ JSON_parse (trim raw) = inr account
    ∨ ((∃ e, JSON_parse (trim raw) = inl e)
       ∧ ∃ b64,
           ((∃ rest, trim raw = "base64:" +:+ rest ∧ b64 = trim rest)
            ∨ ((∀ rest, trim raw ≠ "base64:" +:+ rest) ∧ b64 = trim raw))
           ∧ JSON_parse (base64_to_utf8 b64) = inr account).
Proof.
  unfold parseServiceAccount, base64_payload. cbv zeta.
  destruct (JSON_parse (trim raw)) as [e|first] eqn:Hfirst.
  - destruct (strip_prefix "base64:" (trim raw)) as [rest|] eqn:Hprefix.
    + apply strip_prefix_Some in Hprefix.
      destruct (JSON_parse (base64_to_utf8 (trim rest))) as [e2|second] eqn:Hsecond.
      * split; [done|]. intros [?|(_ & b64 & [(rest' & Hrest & ->)|(Hno & _)] & Hp)]; [done| |].
        -- rewrite Hprefix in Hrest. apply (inj (String.app "base64:")) in Hrest as <-.
           congruence.
        -- by destruct (Hno rest).
      * split.
        -- intros [= <-]. right. split; [by exists e|].
           exists (trim rest). split; [left; by exists rest|done].
        -- intros [?|(_ & b64 & [(rest' & Hrest & ->)|(Hno & _)] & Hp)]; [done| |].
           ++ rewrite Hprefix in Hrest. apply (inj (String.app "base64:")) in Hrest as <-.
              congruence.
           ++ by destruct (Hno rest).
    + assert (Hno : ∀ rest, trim raw ≠ "base64:" +:+ rest).
      { intros rest Hrest. apply strip_prefix_Some in Hrest. congruence. }
      destruct (JSON_parse (base64_to_utf8 (trim raw))) as [e2|second] eqn:Hsecond.
      * split; [done|]. intros [?|(_ & b64 & [(rest' & Hrest & _)|(_ & ->)] & Hp)]; [done| |].
        -- by destruct (Hno rest').
        -- congruence.
      * split.
        -- intros [= <-]. right. split; [by exists e|].
           exists (trim raw). split; [by right|done].
        -- intros [?|(_ & b64 & [(rest' & Hrest & _)|(_ & ->)] & Hp)]; [done| |].
           ++ by destruct (Hno rest').
           ++ congruence.
  - split; [intros [= <-]; by left|].
    intros [[= <-]|((e & ?) & _)]; [done|done].
Qed.

Lemma parseServiceAccount_fails (raw : string) (f : Failure) :
  parseServiceAccount raw = inl f
  ↔ f = InvalidServiceAccountKey
    ∧ (∃ e, JSON_parse (trim raw) = inl e)
    ∧ ∃ e, JSON_parse (base64_to_utf8 (base64_payload (trim raw))) = inl e.
Proof.
  unfold parseServiceAccount. cbv zeta.
  destruct (JSON_parse (trim raw)) as [e|first].
  - destruct (JSON_parse (base64_to_utf8 (base64_payload (trim raw)))) as [e2|second].
    + split; [intros [= <-]; split_and!; by eauto|by intros (-> & _)].
    + split; [done|]. by intros (_ & _ & ? & ?).
  - split; [done|]. by intros (_ & (? & ?) & _).
Qed.

(** The run from an empty registry, by its outcome: an error with the
    registry as it was, an error of [getDatabase] with the new app
    registered, or the new app. *)
Lemma getFirebaseAdmin_fresh (h : Host) :
  apps h = [] →
  (∃ f, getFirebaseAdmin h = (inl f, h)
        ∧ (str_truthy (FIREBASE_DATABASE_URL h) = false ∧ f = DatabaseUrlNotSet
           ∨ str_truthy (FIREBASE_DATABASE_URL h) = true
             ∧ (load_serviceAccount h = inl f
                ∨ ∃ account e,
                    load_serviceAccount h = inr account ∧ f = Raised e
                    ∧ (cert_throws account = Some e
                       ∨ cert_throws account = None
                         ∧ initializeApp_throws
                             {| credential := account;
                                databaseURL := default "" (FIREBASE_DATABASE_URL h) |}
                           = Some e))))
  ∨ (∃ account,
       str_truthy (FIREBASE_DATABASE_URL h) = true
       ∧ load_serviceAccount h = inr account
       ∧ cert_throws account = None
       ∧ let app := {| credential := account;
                       databaseURL := default "" (FIREBASE_DATABASE_URL h) |} in
         initializeApp_throws app = None
         ∧ match getDatabase_throws app with
           | Some e => getFirebaseAdmin h = (inl (Raised e), register app h)
           | None => getFirebaseAdmin h = (inr (app, {| database_of := app |}), register app h)
           end).
Proof.
  intros Happs. unfold getFirebaseAdmin. rewrite Happs.
  destruct (str_truthy (FIREBASE_DATABASE_URL h)) eqn:Hurl; cbn [negb].
  2: { left. eexists. split; [done|]. by left. }
  destruct (load_serviceAccount h) as [f|account] eqn:Hload.
  { left. exists f. split; [done|]. right. split; [done|]. by left. }
  destruct (cert_throws account) as [e|] eqn:Hcert.
  { left. eexists. split; [done|]. right. split; [done|]. right.
    exists account, e. split_and!; try done. by left. }
  cbv zeta.
  destruct (initializeApp_throws _) as [e|] eqn:Hinit.
  { left. eexists. split; [done|]. right. split; [done|]. right.
    exists account, e. split_and!; try done. by right. }
  right. exists account. do 3 (split; [done|]). cbv zeta. split; [done|].
  by destruct (getDatabase_throws _).
Qed.

End HandleFacts.

(** X20.  The handle is a singleton.  When [getFirebaseAdmin] succeeds, a
    second call right after it returns the same app and database and changes
    nothing; a call that finds an app registered returns the first one
    without reading the environment or the file; and a call that starts from
    an empty registry and succeeds leaves exactly one app registered. *)
Theorem handle_is_singleton `{RT : Runtime} `{SDK : FirebaseAdmin.AdminSDK}
    (h h' : FirebaseAdmin.Host) (app : FirebaseAdmin.App)
    (database : FirebaseAdmin.Database) :
  FirebaseAdmin.getFirebaseAdmin h = (inr (app, database), h') →
  FirebaseAdmin.getFirebaseAdmin h' = (inr (app, database), h')
  ∧ database = {| FirebaseAdmin.database_of := app |}
  ∧ (FirebaseAdmin.apps h ≠ [] → h' = h ∧ head (FirebaseAdmin.apps h) = Some app)
  ∧ (FirebaseAdmin.apps h = [] → FirebaseAdmin.apps h' = [app]).
Proof.
  destruct (FirebaseAdmin.apps h) as [|a rest] eqn:Happs.
  - intros Hcall.
    destruct (getFirebaseAdmin_fresh h Happs)
      as [(f & Hfail & _)|(account & _ & _ & _ & _ & Hrun)]; [congruence|].
    cbv zeta in Hrun.
    destruct (FirebaseAdmin.getDatabase_throws _) as [e|] eqn:Hdb; [congruence|].
    rewrite Hrun in Hcall. injection Hcall as <- <- <-.
    split_and!; [|done|done|intros _; cbn; by rewrite Happs].
    unfold FirebaseAdmin.getFirebaseAdmin.
    cbn [FirebaseAdmin.apps FirebaseAdmin.register]. rewrite Happs. cbn [app].
    by rewrite Hdb.
  - unfold FirebaseAdmin.getFirebaseAdmin. rewrite Happs.
    destruct (FirebaseAdmin.getDatabase_throws a) as [e|] eqn:Hdb; [done|].
    intros Hcall. injection Hcall as <- <- <-.
    rewrite Happs, Hdb. by split_and!.
Qed.

(** With the account given as JSON text in the key variable. *)
Lemma handle_is_singleton_witness :
  ∃ app database h',
    FirebaseAdmin.getFirebaseAdmin (RT := test_runtime account_table) (SDK := test_sdk)
      (host_with None (Some (account_text "from-env"))) = (inr (app, database), h')
    ∧ FirebaseAdmin.getFirebaseAdmin (RT := test_runtime account_table) (SDK := test_sdk) h'
      = (inr (app, database), h')
    ∧ FirebaseAdmin.apps h' = [app].
Proof.
  eexists _, _, _. split; [vm_compute; reflexivity|].
  destruct (handle_is_singleton (RT := test_runtime account_table) (SDK := test_sdk)
              (host_with None (Some (account_text "from-env"))) _ _ _
              ltac:(vm_compute; reflexivity))
    as (Hagain & _ & _ & Hone).
  split; [exact Hagain | exact (Hone eq_refl)].
Defined.

(** X21.  Starting from an empty registry, [getFirebaseAdmin] returns an
    app exactly when the database URL is set and not empty, a service
    account is found, and [cert], [initializeApp] and [getDatabase] do not
    throw; the app then carries that account and that URL.  The account is
    what the file [serviceAccountKey.json] parses to if the file exists.
    Otherwise it comes from the key variable, which must be set and not
    empty: it is what the trimmed text parses to as JSON or, when that does
    not parse, what its base64 decoding parses to, a leading "base64:" and
    the white space after it being left out of the decoding. *)
Theorem first_initialisation `{RT : Runtime} `{SDK : FirebaseAdmin.AdminSDK}
    (h : FirebaseAdmin.Host) (app : FirebaseAdmin.App) :
  FirebaseAdmin.apps h = [] →
  (∃ database h', FirebaseAdmin.getFirebaseAdmin h = (inr (app, database), h'))
  ↔ ∃ url,
      FirebaseAdmin.FIREBASE_DATABASE_URL h = Some url ∧ url ≠ ""
      ∧ FirebaseAdmin.databaseURL app = url
      ∧ ((∃ text, FirebaseAdmin.serviceAccountKey_json h = Some (inr text)
                  ∧ JSON_parse text = inr (FirebaseAdmin.credential app))
         ∨ (FirebaseAdmin.serviceAccountKey_json h = None
            ∧ ∃ key,
                FirebaseAdmin.FIREBASE_SERVICE_ACCOUNT_KEY h = Some key ∧ key ≠ ""
                ∧ (JSON_parse (trim key) = inr (FirebaseAdmin.credential app)
                   ∨ ((∃ e, JSON_parse (trim key) = inl e)
                      ∧ ∃ b64,
                          ((∃ rest, trim key = "base64:" +:+ rest ∧ b64 = trim rest)
                           ∨ ((∀ rest, trim key ≠ "base64:" +:+ rest) ∧ b64 = trim key))
                          ∧ JSON_parse (FirebaseAdmin.base64_to_utf8 b64)
                            = inr (FirebaseAdmin.credential app)))))
      ∧ FirebaseAdmin.cert_throws (FirebaseAdmin.credential app) = None
      ∧ FirebaseAdmin.initializeApp_throws app = None
      ∧ FirebaseAdmin.getDatabase_throws app = None.
Proof.
  intros Happs.
  assert (Hload : ∀ account,
            FirebaseAdmin.load_serviceAccount h = inr account
            ↔ (∃ text, FirebaseAdmin.serviceAccountKey_json h = Some (inr text)
                       ∧ JSON_parse text = inr account)
              ∨ (FirebaseAdmin.serviceAccountKey_json h = None
                 ∧ ∃ key,
                     FirebaseAdmin.FIREBASE_SERVICE_ACCOUNT_KEY h = Some key ∧ key ≠ ""
                     ∧ FirebaseAdmin.parseServiceAccount key = inr account)).
  { intros account. unfold FirebaseAdmin.load_serviceAccount, str_truthy.
    destruct (FirebaseAdmin.serviceAccountKey_json h) as [[e|text]|].
    - split; [done|]. by intros [(? & ? & _)|(? & _)].
    - destruct (JSON_parse text) as [e|parsed] eqn:Hp.
      + split; [done|]. intros [(? & [= <-] & ?)|(? & _)]; [congruence|done].
      + split.
        * intros [= <-]. left. by exists text.
        * intros [(? & [= <-] & ?)|(? & _)]; [congruence|done].
    - destruct (FirebaseAdmin.FIREBASE_SERVICE_ACCOUNT_KEY h) as [key|].
      + case_bool_decide as Hkey; cbn [negb from_option id].
        * split; [done|]. intros [(? & ? & _)|(_ & ? & [= <-] & ? & _)]; done.
        * split.
          -- intros Hparse. right. split; [done|]. by exists key.
          -- intros [(? & ? & _)|(_ & ? & [= <-] & _ & ?)]; done.
      + split; [done|]. intros [(? & ? & _)|(_ & ? & ? & _)]; done. }
  destruct (getFirebaseAdmin_fresh h Happs)
    as [(f & Hfail & Hwhy)|(account & Hurl & Haccount & Hcert & Hinit & Hrun)].
  - split; [intros (? & ? & ?); congruence|].
    intros (url & Hu & Hne & Happ & Hsrc & Hc & Hi & Hd). exfalso.
    assert (Hacc : FirebaseAdmin.load_serviceAccount h
                   = inr (FirebaseAdmin.credential app)).
    { apply Hload. destruct Hsrc as [?|(? & key & ? & ? & Hkey)]; [by left|].
      right. split; [done|]. exists key. split_and!; [done..|].
      by apply parseServiceAccount_ok. }
    assert (Hsame : {| FirebaseAdmin.credential := FirebaseAdmin.credential app;
                       FirebaseAdmin.databaseURL :=
                         default "" (FirebaseAdmin.FIREBASE_DATABASE_URL h) |} = app).
    { rewrite Hu. destruct app. simpl in *. by subst. }
    destruct Hwhy as [[Hno _]|(_ & [Hl|(account & e & Hl & _ & [Hce|[_ Hie]])])].
    + rewrite Hu in Hno. unfold str_truthy in Hno.
      by rewrite bool_decide_eq_false_2 in Hno.
    + congruence.
    + rewrite Hacc in Hl. injection Hl as <-. congruence.
    + rewrite Hacc in Hl. injection Hl as <-. rewrite Hsame in Hie. congruence.
  - cbv zeta in Hinit, Hrun.
    set (made := {| FirebaseAdmin.credential := account;
                    FirebaseAdmin.databaseURL :=
                      default "" (FirebaseAdmin.FIREBASE_DATABASE_URL h) |}) in *.
    destruct (FirebaseAdmin.FIREBASE_DATABASE_URL h) as [url|] eqn:Hu; [|done].
    assert (Hne : url ≠ "").
    { intros ->. done. }
    split.
    + intros (database & h' & Hcall).
      destruct (FirebaseAdmin.getDatabase_throws made) as [e|] eqn:Hdb; [congruence|].
      rewrite Hrun in Hcall. injection Hcall as <- _ _.
      exists url. split_and!; try done.
      apply Hload in Haccount as [?|(? & key & ? & ? & Hkey)]; [by left|].
      right. split; [done|]. exists key. split_and!; [done..|].
      by apply parseServiceAccount_ok.
    + intros (url' & [= <-] & _ & Happ & Hsrc & Hc & Hi & Hd).
      assert (Hacc : FirebaseAdmin.load_serviceAccount h
                     = inr (FirebaseAdmin.credential app)).
      { apply Hload. destruct Hsrc as [?|(? & key & ? & ? & Hkey)]; [by left|].
        right. split; [done|]. exists key. split_and!; [done..|].
        by apply parseServiceAccount_ok. }
      rewrite Hacc in Haccount. injection Haccount as <-.
      assert (Hsame : made = app).
      { subst made. destruct app. simpl in *. by subst. }
      rewrite Hsame in *. rewrite Hd in Hrun. by eexists _, _.
Qed.

(** The key variable holding the account in base64, after "base64:" and
    with blanks around it, and no file. *)
Lemma first_initialisation_witness :
  ∃ database h',
    FirebaseAdmin.getFirebaseAdmin (RT := test_runtime account_table) (SDK := test_sdk)
      (host_with None (Some "  base64: eyJwcm9qZWN0X2lkIjoiZnJvbS1lbnYifQ==  "))
    = (inr ({| FirebaseAdmin.credential := JObj [ ("project_id", JStr "from-env") ];
               FirebaseAdmin.databaseURL := "https://example.firebaseio.com" |},
            database), h').
Proof.
  apply (first_initialisation (RT := test_runtime account_table) (SDK := test_sdk)
           (host_with None (Some "  base64: eyJwcm9qZWN0X2lkIjoiZnJvbS1lbnYifQ==  "))
           _ eq_refl).
  exists "https://example.firebaseio.com".
  split_and!; try reflexivity; try discriminate.
  right. split; [reflexivity|]. eexists. split_and!; [reflexivity|discriminate|].
  right. split; [eexists; vm_compute; reflexivity|].
  exists "eyJwcm9qZWN0X2lkIjoiZnJvbS1lbnYifQ==". split; [|vm_compute; reflexivity].
  left. exists " eyJwcm9qZWN0X2lkIjoiZnJvbS1lbnYifQ==". split; vm_compute; reflexivity.
Defined.

(** X22.  How [getFirebaseAdmin] fails.  A failed call leaves the registry
    as it was, with one exception: when [getDatabase] throws on the app just
    initialised, that app stays registered, and every later call throws the
    same error without looking at the environment or the file again.
    Starting from an empty registry: a database URL that is unset or empty
    is reported before anything else is looked at; a missing file together
    with an unset or empty key variable is reported as a missing service
    account; a key variable that parses neither as JSON nor as base64 JSON
    is reported as an invalid key, whatever the parser threw; and a file that
    exists but does not parse is an error even if the key variable holds a
    good account, since the variable is consulted only when there is no
    file. *)
Theorem failed_initialisation `{RT : Runtime} `{SDK : FirebaseAdmin.AdminSDK}
    (h h' : FirebaseAdmin.Host) (f : FirebaseAdmin.Failure) :
  FirebaseAdmin.getFirebaseAdmin h = (inl f, h') →
  (h' = h
   ∨ ∃ app e,
       FirebaseAdmin.apps h = [] ∧ h' = FirebaseAdmin.register app h
       ∧ f = FirebaseAdmin.Raised e
       ∧ FirebaseAdmin.getDatabase_throws app = Some e
       ∧ FirebaseAdmin.getFirebaseAdmin h' = (inl f, h'))
  ∧ (FirebaseAdmin.apps h = [] →
     (f = FirebaseAdmin.DatabaseUrlNotSet
      ↔ str_truthy (FirebaseAdmin.FIREBASE_DATABASE_URL h) = false)
     ∧ (f = FirebaseAdmin.ServiceAccountNotFound
        ↔ str_truthy (FirebaseAdmin.FIREBASE_DATABASE_URL h) = true
          ∧ FirebaseAdmin.serviceAccountKey_json h = None
          ∧ str_truthy (FirebaseAdmin.FIREBASE_SERVICE_ACCOUNT_KEY h) = false)
     ∧ (f = FirebaseAdmin.InvalidServiceAccountKey
        ↔ str_truthy (FirebaseAdmin.FIREBASE_DATABASE_URL h) = true
          ∧ FirebaseAdmin.serviceAccountKey_json h = None
          ∧ ∃ key,
              FirebaseAdmin.FIREBASE_SERVICE_ACCOUNT_KEY h = Some key ∧ key ≠ ""
              ∧ (∃ e, JSON_parse (trim key) = inl e)
              ∧ ∃ e, JSON_parse (FirebaseAdmin.base64_to_utf8
                                   (FirebaseAdmin.base64_payload (trim key))) = inl e)
     ∧ (∀ text e,
          str_truthy (FirebaseAdmin.FIREBASE_DATABASE_URL h) = true →
          FirebaseAdmin.serviceAccountKey_json h = Some (inr text) →
          JSON_parse text = inl e →
          f = FirebaseAdmin.Raised e)).
Proof.
  intros Hcall.
  destruct (FirebaseAdmin.apps h) as [|a rest] eqn:Happs.
  2: { revert Hcall. unfold FirebaseAdmin.getFirebaseAdmin. rewrite Happs.
       destruct (FirebaseAdmin.getDatabase_throws a) as [e|] eqn:Hdb; [|done].
       intros [= <- <-]. split; [by left|done]. }
  assert (Hsticky : ∀ app e,
            FirebaseAdmin.getDatabase_throws app = Some e →
            FirebaseAdmin.getFirebaseAdmin (FirebaseAdmin.register app h)
            = (inl (FirebaseAdmin.Raised e), FirebaseAdmin.register app h)).
  { intros made e Hdb. unfold FirebaseAdmin.getFirebaseAdmin.
    cbn [FirebaseAdmin.apps FirebaseAdmin.register]. rewrite Happs. cbn [app].
    by rewrite Hdb. }
  assert (Hkinds : ∀ g,
            FirebaseAdmin.load_serviceAccount h = inl g →
            (g = FirebaseAdmin.ServiceAccountNotFound
             ↔ FirebaseAdmin.serviceAccountKey_json h = None
               ∧ str_truthy (FirebaseAdmin.FIREBASE_SERVICE_ACCOUNT_KEY h) = false)
            ∧ (g = FirebaseAdmin.InvalidServiceAccountKey
               ↔ FirebaseAdmin.serviceAccountKey_json h = None
                 ∧ ∃ key,
                     FirebaseAdmin.FIREBASE_SERVICE_ACCOUNT_KEY h = Some key ∧ key ≠ ""
                     ∧ (∃ e, JSON_parse (trim key) = inl e)
                     ∧ ∃ e, JSON_parse (FirebaseAdmin.base64_to_utf8
                                          (FirebaseAdmin.base64_payload (trim key)))
                            = inl e)
            ∧ (∀ text e, FirebaseAdmin.serviceAccountKey_json h = Some (inr text) →
                         JSON_parse text = inl e → g = FirebaseAdmin.Raised e)
            ∧ g ≠ FirebaseAdmin.DatabaseUrlNotSet).
  { intros g. unfold FirebaseAdmin.load_serviceAccount, str_truthy.
    destruct (FirebaseAdmin.serviceAccountKey_json h) as [[e|text]|].
    - intros [= <-]. split_and!; try done; try (split; [done|by intros (? & _)]).
    - destruct (JSON_parse text) as [e|parsed] eqn:Hp; [|done].
      intros [= <-]. split_and!; try done; try (split; [done|by intros (? & _)]).
      intros text' e' [= <-] He'. congruence.
    - destruct (FirebaseAdmin.FIREBASE_SERVICE_ACCOUNT_KEY h) as [key|].
      + case_bool_decide as Hkey; cbn [negb from_option id].
        * intros [= <-]. split_and!; try done.
          split; [done|]. intros (_ & key' & [= <-] & ? & _). done.
        * intros Hparse. apply parseServiceAccount_fails in Hparse as (-> & H1 & H2).
          split_and!; try done.
          -- split; [done|]. by intros (_ & ?).
          -- split; [|done]. intros _. split; [done|]. by exists key.
      + intros [= <-]. split_and!; try done.
        split; [done|]. intros (_ & key' & ? & _). done. }
  destruct (getFirebaseAdmin_fresh h Happs)
    as [(g & Hfail & Hwhy)|(account & Hurl & Haccount & Hcert & Hinit & Hrun)].
  - rewrite Hfail in Hcall. injection Hcall as <- <-.
    split; [by left|]. intros _.
    destruct Hwhy as [[Hno ->]|(Hyes & [Hl|(account & e & Hl & -> & _)])].
    + rewrite Hno. split_and!; try done; try (split; [done|by intros (? & _)]).
    + rewrite Hyes. destruct (Hkinds _ Hl) as (Hnf & Hinv & Hfile & Hnot).
      split_and!.
      * split; [done|done].
      * rewrite Hnf. split; [by intros ?|by intros (_ & ?)].
      * rewrite Hinv. split; [by intros ?|by intros (_ & ?)].
      * intros text e _. apply Hfile.
    + rewrite Hyes. split_and!; try done; try (split; [done|]).
      * intros (_ & Hnone & Hkey). revert Hl.
        unfold FirebaseAdmin.load_serviceAccount. by rewrite Hnone, Hkey.
      * intros (_ & Hnone & key & Hk & Hne & (e1 & H1) & (e2 & H2)). revert Hl.
        unfold FirebaseAdmin.load_serviceAccount, FirebaseAdmin.parseServiceAccount.
        rewrite Hnone, Hk. unfold str_truthy. rewrite bool_decide_eq_false_2 by done.
        cbn [negb from_option id]. by rewrite H1, H2.
      * intros text e' _ Hfile Hparse. revert Hl.
        unfold FirebaseAdmin.load_serviceAccount. by rewrite Hfile, Hparse.
  - cbv zeta in Hinit, Hrun.
    destruct (FirebaseAdmin.getDatabase_throws _) as [e|] eqn:Hdb; [|congruence].
    rewrite Hrun in Hcall. injection Hcall as <- <-.
    split; [right; eexists _, e; split_and!; try done; by apply Hsticky|].
    intros _. rewrite Hurl. split_and!; try done; try (split; [done|]).
    + intros (_ & Hnone & Hkey). revert Haccount.
      unfold FirebaseAdmin.load_serviceAccount. by rewrite Hnone, Hkey.
    + intros (_ & Hnone & key & Hk & Hne & (e1 & H1) & (e2 & H2)). revert Haccount.
      unfold FirebaseAdmin.load_serviceAccount, FirebaseAdmin.parseServiceAccount.
      rewrite Hnone, Hk. unfold str_truthy. rewrite bool_decide_eq_false_2 by done.
      cbn [negb from_option id]. by rewrite H1, H2.
    + intros text e' _ Hfile Hparse. revert Haccount.
      unfold FirebaseAdmin.load_serviceAccount. by rewrite Hfile, Hparse.
Qed.

(** A key variable that is neither JSON nor base64 JSON, and no file. *)
Lemma failed_initialisation_witness :
  (FirebaseAdmin.getFirebaseAdmin (RT := test_runtime account_table) (SDK := test_sdk)
     (host_with None (Some "not an account"))).1
  = inl FirebaseAdmin.InvalidServiceAccountKey.
Proof.
  destruct (FirebaseAdmin.getFirebaseAdmin (RT := test_runtime account_table)
              (SDK := test_sdk) (host_with None (Some "not an account")))
    as [[f|ok] h'] eqn:Hcall; [|vm_compute in Hcall; discriminate Hcall].
  destruct (failed_initialisation (RT := test_runtime account_table) (SDK := test_sdk)
              _ _ _ Hcall) as (_ & Hkinds).
  destruct (Hkinds eq_refl) as (_ & _ & Hinvalid & _).
  simpl. f_equal. apply Hinvalid.
  split; [reflexivity|]. split; [reflexivity|].
  exists "not an account". split_and!; [reflexivity|discriminate|..];
    eexists; vm_compute; reflexivity.
Defined.

(** ** The limit over any history of calls *)

Lemma Math_ceil_Z (n : Z) : Math_ceil (inject_Z n / inject_Z 1000) = - ((- n) / 1000).
Proof.
  unfold Math_ceil, Qceiling, Qfloor, Qdiv, Qmult, Qinv, Qopp, inject_Z. simpl.
  rewrite Z.mul_1_r. reflexivity.
Qed.

Lemma Math_ceil_bounds (n : Z) :
  n ≤ 1000 * Math_ceil (inject_Z n / inject_Z 1000)
  ∧ 1000 * Math_ceil (inject_Z n / inject_Z 1000) < n + 1000.
Proof.
  rewrite Math_ceil_Z.
  pose proof (Z.div_mod (- n) 1000 ltac:(lia)).
  pose proof (Z.mod_pos_bound (- n) 1000 ltac:(lia)). lia.
Qed.

Lemma admitted_times_cons (client ip : string) (now : Z) (rest : list (string * Z))
    (store : gmap string (list Z)) :
  admitted_times client ((ip, now) :: rest) store
  = (if decide (ip = client) then
       if limited (isRateLimited ip now store).1 then [] else [now]
     else [])
    ++ admitted_times client rest (isRateLimited ip now store).2.
Proof.
  simpl. destruct (isRateLimited ip now store) as [r store1]. simpl.
  case_decide; [|done]. by destruct (limited r).
Qed.

(** What is fresh at a later time was fresh at an earlier one. *)
Lemma fresh_of_later (now later : Z) (l : list Z) :
  now ≤ later → fresh_of later (fresh_of now l) = fresh_of later l.
Proof.
  intros Hle. unfold fresh_of. induction l as [|t l IH]; [done|].
  rewrite (filter_cons (λ t, now - t < RATE_LIMIT_WINDOW_MS)).
  rewrite (filter_cons (λ t, later - t < RATE_LIMIT_WINDOW_MS) t l).
  destruct (decide (now - t < RATE_LIMIT_WINDOW_MS)) as [Hn|Hn].
  - rewrite filter_cons. destruct (decide (later - t < RATE_LIMIT_WINDOW_MS)); by rewrite IH.
  - rewrite decide_False by lia. exact IH.
Qed.

(** The invariant behind the limit: at every later call of the client, the
    attempts admitted so far and the stored history have the same fresh
    part. *)
Lemma admitted_in_window (client : string) (calls : list (string * Z)) :
  ∀ (store : gmap string (list Z)) (before : list Z),
  Forall (λ now, fresh_of now before = fresh_of now (history store client))
         (times_of client calls) →
  nondecreasing (times_of client calls) →
  ∀ (i : nat) (now : Z),
    calls !! i = Some (client, now) →
    limited <$> (admit_all calls store).1 !! i = Some false →
    (length (fresh_of now (before ++ admitted_times client (take (S i) calls) store))
     ≤ RATE_LIMIT_MAX)%nat.
Proof.
  induction calls as [|[ip now1] rest IH]; intros store before Hsame Hmono i now Hi Hr.
  { by rewrite lookup_nil in Hi. }
  rewrite admit_all_cons in Hr. cbn [fst] in Hr.
  change (take (S i) ((ip, now1) :: rest)) with ((ip, now1) :: take i rest).
  rewrite admitted_times_cons.
  destruct (decide (ip = client)) as [->|Hne].
  - rewrite times_of_cons_eq in Hsame, Hmono.
    apply Forall_cons_1 in Hsame as [Hnow1 Hsame]. destruct Hmono as [Hle Hmono].
    destruct i as [|j].
    + simpl in Hi, Hr. injection Hi as ->. injection Hr as Hr.
      rewrite Hr. rewrite take_0. cbn [admitted_times]. rewrite app_nil_r.
      rewrite fresh_of_app, Hnow1, length_app.
      rewrite isRateLimited_limited_iff in Hr. apply bool_decide_eq_false in Hr.
      pose proof (fresh_of_length now [now]). simpl in *. lia.
    + simpl in Hi, Hr. rewrite app_assoc.
      apply (IH _ _) with (now := now); [|done|done|done].
      apply Forall_forall. intros later Hlater.
      rewrite Forall_forall in Hsame, Hle.
      specialize (Hsame _ Hlater). specialize (Hle _ Hlater).
      unfold isRateLimited. case_decide; cbn [limited fst snd].
      * by rewrite app_nil_r.
      * rewrite history_insert_eq, !fresh_of_app, Hsame. f_equal.
        by rewrite fresh_of_later.
  - rewrite times_of_cons_ne in Hsame, Hmono by done.
    destruct i as [|j]; simpl in Hi, Hr; [simplify_eq|].
    cbn [app]. apply (IH _ _) with (now := now); [|done|done|done].
    by rewrite isRateLimited_history_other.
Qed.

(** X23.  The limit itself.  From the start of the process, over any
    sequence of calls by any clients: if the clock readings of a client's
    calls never decrease, then whenever an attempt of that client is
    admitted, at most 5 of its admitted attempts so far, this one included,
    lie within the 60,000 ms ending at it. *)
Theorem never_more_than_five (client : string) (calls : list (string * Z))
    (i : nat) (now : Z) :
  nondecreasing (times_of client calls) →
  calls !! i = Some (client, now) →
  limited <$> (admit_all calls ∅).1 !! i = Some false →
  (length (filter (λ t : Z, (now - t < 60000)%Z)
             (admitted_times client (take (S i) calls) ∅))
   ≤ 5)%nat.
Proof.
  intros Hmono Hi Hr.
  apply (admitted_in_window client calls ∅ [] ) with (i := i) (now := now); try done.
  apply Forall_forall. intros later _. unfold history. by rewrite lookup_empty.
Qed.

(** The sample client's attempts at 0, 10, 20, 30, 40 s are admitted, the
    one at 50 s is denied, the one at 65 s is admitted again: with it, five
    admitted attempts lie within the last minute. *)
Lemma never_more_than_five_witness :
  admitted_times sample_ip (take 8 spread_calls) ∅ = [0; 10000; 20000; 30000; 40000; 65000]
  ∧ (length (filter (λ t : Z, (65000 - t < 60000)%Z)
               (admitted_times sample_ip (take 8 spread_calls) ∅)) ≤ 5)%nat.
Proof.
  split; [vm_compute; reflexivity|].
  assert (Ht : times_of sample_ip spread_calls
               = [0; 10000; 20000; 30000; 40000; 50000; 65000; 119000])
    by (vm_compute; reflexivity).
  apply (never_more_than_five sample_ip spread_calls 7 65000).
  - rewrite Ht. cbn [nondecreasing].
    split_and!; repeat (constructor; [lia|]); constructor.
  - reflexivity.
  - vm_compute. reflexivity.
Defined.

(** X24.  The wait that a denial announces is honest.  In any store the
    process can reach, when a client is denied at [now] with a wait of [s]
    seconds, then [s] is at least 1, it is at most 60 if none of the
    client's stored timestamps lies after [now], and a call of the client at
    any time from [now + 1000 s] on is admitted, if the client made no other
    admitted attempt in between. *)
Theorem retry_after_suffices (calls : list (string * Z)) (client : string) (now : Z) :
  limited (isRateLimited client now (admit_all calls ∅).2).1 = true →
  1 ≤ retryAfterSec (isRateLimited client now (admit_all calls ∅).2).1
  ∧ (Forall (λ t, t ≤ now) (history (admit_all calls ∅).2 client) →
     retryAfterSec (isRateLimited client now (admit_all calls ∅).2).1 ≤ 60)
  ∧ (∀ later,
       now + 1000 * retryAfterSec (isRateLimited client now (admit_all calls ∅).2).1 ≤ later →
       (isRateLimited client later (admit_all calls ∅).2).1
       = {| limited := false; retryAfterSec := 0 |}).
Proof.
  set (store := (admit_all calls ∅).2). intros Hdenied.
  assert (Hlen : (length (history store client) ≤ RATE_LIMIT_MAX)%nat).
  { apply admit_all_length. unfold history. rewrite lookup_empty. simpl. lia. }
  pose proof (isRateLimited_retry_pos _ _ _ Hdenied) as Hpos.
  rewrite isRateLimited_limited_iff in Hdenied. apply bool_decide_eq_true in Hdenied.
  assert (Hall : Forall (λ t, now - t < RATE_LIMIT_WINDOW_MS) (history store client)).
  { apply (filter_full_length (λ t, now - t < RATE_LIMIT_WINDOW_MS)).
    unfold fresh_of in Hdenied. lia. }
  rewrite isRateLimited_denied in * by done. cbn [fst retryAfterSec] in *.
  rewrite (fresh_of_all_fresh _ _ Hall) in *.
  destruct (history store client) as [|oldest rest] eqn:Hhist.
  { simpl in Hdenied. unfold RATE_LIMIT_MAX in Hdenied. lia. }
  cbn [head from_option id] in *. apply Forall_cons_1 in Hall as [Hold _].
  unfold RATE_LIMIT_WINDOW_MS in *.
  pose proof (Math_ceil_bounds (0 `max` (60000 - (now - oldest)))) as [Hlow Hhigh].
  split; [lia|]. split.
  - intros Hpast. apply Forall_cons_1 in Hpast as [Hpast _]. lia.
  - intros later Hlater.
    rewrite isRateLimited_allowed; [done|].
    rewrite Hhist. unfold fresh_of, RATE_LIMIT_WINDOW_MS.
    rewrite filter_cons_False by lia.
    pose proof (length_filter (λ t, later - t < 60000) rest).
    simpl in Hlen. lia.
Qed.

(** Denied at 6 s with five attempts from 1 s to 5 s stored, the sample
    client is told to wait 55 s, and is admitted at 61 s. *)
Lemma retry_after_suffices_witness :
  limited (isRateLimited sample_ip 6000 (admit_all (take 6 sample_calls) ∅).2).1 = true
  ∧ retryAfterSec (isRateLimited sample_ip 6000 (admit_all (take 6 sample_calls) ∅).2).1 = 55
  ∧ (isRateLimited sample_ip 61000 (admit_all (take 6 sample_calls) ∅).2).1
    = {| limited := false; retryAfterSec := 0 |}.
Proof.
  assert (Hd : limited (isRateLimited sample_ip 6000 (admit_all (take 6 sample_calls) ∅).2).1
               = true) by (vm_compute; reflexivity).
  split; [exact Hd|].
  destruct (retry_after_suffices (take 6 sample_calls) sample_ip 6000 Hd) as (_ & _ & Hlater).
  assert (Hs : retryAfterSec
                 (isRateLimited sample_ip 6000 (admit_all (take 6 sample_calls) ∅).2).1 = 55)
    by (vm_compute; reflexivity).
  split; [exact Hs|]. apply Hlater. rewrite Hs. lia.
Defined.

(** ** The admin page *)

Lemma rev_app_app (s1 s2 s3 : string) :
  String.rev_app s1 (s2 +:+ s3) = String.rev_app s1 s2 +:+ s3.
Proof.
  revert s2. induction s1 as [|c s1 IH]; intros s2; [done|].
  simpl. by rewrite <-IH.
Qed.

Lemma rev_String (c : Ascii.ascii) (s : string) :
  String.rev (String c s) = String.rev s +:+ String c "".
Proof. unfold String.rev. simpl. by rewrite <-rev_app_app. Qed.

Lemma rev_app_end (s : string) (c : Ascii.ascii) :
  String.rev (s +:+ String c "") = String c (String.rev s).
Proof.
  unfold String.rev. generalize EmptyString at 2 3.
  induction s as [|d s IH]; intros acc; [done|]. simpl. by rewrite IH.
Qed.

Lemma rev_involutive (s : string) : String.rev (String.rev s) = s.
Proof.
  induction s as [|c s IH]; [done|]. by rewrite rev_String, rev_app_end, IH.
Qed.

Lemma trim_start_clean (s : string) : clean_start (trim_start s).
Proof.
  induction s as [|c s IH]; [done|]. simpl.
  destruct (is_white_space c) eqn:Hc; [done|]. exact Hc.
Qed.

Lemma trim_start_id (s : string) : clean_start s → trim_start s = s.
Proof. destruct s as [|c s]; [done|]. simpl. by intros ->. Qed.

(** Dropping white space at the start keeps the end of a string that starts
    clean when reversed. *)
Lemma trim_start_keeps_end (s : string) :
  clean_start (String.rev s) → clean_start (String.rev (trim_start s)).
Proof.
  induction s as [|c s IH]; [done|]. simpl.
  destruct (is_white_space c) eqn:Hc; [|done].
  rewrite rev_String. intros Hclean. apply IH.
  destruct (String.rev s); [|done]. simpl in Hclean. congruence.
Qed.

Lemma trim_idemp (s : string) : trim (trim s) = trim s.
Proof.
  unfold trim.
  set (b := trim_start (String.rev (trim_start s))).
  assert (Hb : clean_start (String.rev b)).
  { apply trim_start_keeps_end. rewrite rev_involutive. apply trim_start_clean. }
  rewrite (trim_start_id _ Hb), rev_involutive.
  by rewrite (trim_start_id b) by apply trim_start_clean.
Qed.

Section TagCounts.
Import Dashboard.

Lemma bump_same (tag : string) (counts : list (string * nat)) :
  assoc tag (bump tag counts) = Some (S (count_at tag counts)).
Proof.
  unfold count_at. induction counts as [|[k n] rest IH]; simpl.
  - by rewrite decide_True.
  - destruct (decide (k = tag)) as [->|Hne]; simpl.
    + by rewrite decide_True.
    + by rewrite decide_False.
Qed.

Lemma bump_other (tag k : string) (counts : list (string * nat)) :
  k ≠ tag → assoc k (bump tag counts) = assoc k counts.
Proof.
  intros Hne. induction counts as [|[k1 n] rest IH]; simpl.
  - by rewrite decide_False.
  - destruct (decide (k1 = tag)) as [->|Hne1]; simpl.
    + by rewrite !decide_False by done.
    + by rewrite IH.
Qed.

Lemma bump_keys (tag k : string) (counts : list (string * nat)) :
  k ∈ (bump tag counts).*1 ↔ k = tag ∨ k ∈ counts.*1.
Proof.
  induction counts as [|[k1 n] rest IH]; simpl.
  - rewrite elem_of_cons. split; [tauto|]. by intros [?|?%elem_of_nil]; [left|].
  - destruct (decide (k1 = tag)) as [->|Hne1]; simpl; rewrite !elem_of_cons.
    + tauto.
    + rewrite IH. tauto.
Qed.

Lemma bump_NoDup (tag : string) (counts : list (string * nat)) :
  NoDup counts.*1 → NoDup (bump tag counts).*1.
Proof.
  induction counts as [|[k1 n] rest IH]; simpl.
  - intros _. apply NoDup_singleton.
  - rewrite NoDup_cons. intros [Hk Hrest].
    destruct (decide (k1 = tag)) as [->|Hne1]; simpl.
    + by apply NoDup_cons.
    + apply NoDup_cons. split; [|by apply IH].
      rewrite bump_keys. by intros [->|?].
Qed.


Lemma bump_ok (tag : string) (counts : list (string * nat)) :
  tag ≠ "" → trim tag = tag → counts_ok counts → counts_ok (bump tag counts).
Proof.
  intros Hne Htrim [Hdup Hall]. split; [by apply bump_NoDup|].
  clear Hdup. induction counts as [|[k n] rest IH]; simpl.
  - constructor; [|constructor]. simpl. split_and!; [done|done|lia].
  - apply Forall_cons_1 in Hall as [(H1 & H2 & H3) Hall]. simpl in *.
    destruct (decide (k = tag)) as [->|Hk].
    + constructor; [|done]. simpl. split_and!; [done|done|lia].
    + constructor; [done|]. by apply IH.
Qed.

Lemma count_tag_ok (counts : list (string * nat)) (t : string) :
  counts_ok counts → counts_ok (count_tag counts t).
Proof.
  intros Hok. unfold count_tag, str_truthy. cbv zeta.
  case_bool_decide as Ht; simpl; [done|].
  apply bump_ok; [done|apply trim_idemp|done].
Qed.

Lemma count_tag_at (tag : string) (counts : list (string * nat)) (t : string) :
  tag ≠ "" →
  count_at tag (count_tag counts t)
  = (count_at tag counts + (if decide (trim t = tag) then 1 else 0))%nat.
Proof.
  intros Hne. unfold count_tag, str_truthy. cbv zeta.
  case_bool_decide as Ht; simpl.
  - rewrite decide_False by congruence. lia.
  - destruct (decide (trim t = tag)) as [<-|Hother].
    + unfold count_at at 1. rewrite bump_same. simpl. lia.
    + unfold count_at. rewrite bump_other by done. lia.
Qed.

Lemma count_tags_ok (tags : list string) (counts : list (string * nat)) :
  counts_ok counts → counts_ok (foldl count_tag counts tags).
Proof.
  revert counts. induction tags as [|t tags IH]; intros counts Hok; [done|].
  simpl. apply IH. by apply count_tag_ok.
Qed.

Lemma count_tags_at (tag : string) (tags : list string) (counts : list (string * nat)) :
  tag ≠ "" →
  count_at tag (foldl count_tag counts tags)
  = (count_at tag counts + length (filter (λ t, trim t = tag) tags))%nat.
Proof.
  intros Hne. revert counts. induction tags as [|t tags IH]; intros counts.
  { simpl. lia. }
  simpl. rewrite IH, count_tag_at by done. rewrite filter_cons.
  destruct (decide (trim t = tag)); simpl; lia.
Qed.

Lemma tag_counts_from (tag : string) (reviews : list Admin.ReviewWithId)
    (counts : list (string * nat)) :
  tag ≠ "" →
  counts_ok counts →
  let final := foldl (λ counts review, foldl count_tag counts (Admin.ai_tags review))
                 counts reviews in
  counts_ok final
  ∧ count_at tag final = (count_at tag counts + occurrences tag reviews)%nat.
Proof.
  intros Hne. revert counts. unfold occurrences.
  induction reviews as [|r reviews IH]; intros counts Hok; cbv zeta.
  { simpl. split; [done|lia]. }
  simpl. destruct (IH (foldl count_tag counts (Admin.ai_tags r))) as [Hok' Hat].
  { by apply count_tags_ok. }
  split; [exact Hok'|].
  cbv zeta in Hat. rewrite Hat, count_tags_at by done.
  rewrite filter_app, length_app, Nat.add_assoc. reflexivity.
Qed.

Lemma tag_counts_ok (reviews : list Admin.ReviewWithId) : counts_ok (tag_counts reviews).
Proof.
  destruct (tag_counts_from "x" reviews []) as [Hok _]; [done| |exact Hok].
  split; [apply NoDup_nil_2|constructor].
Qed.

Lemma tag_counts_at (tag : string) (reviews : list Admin.ReviewWithId) :
  tag ≠ "" → count_at tag (tag_counts reviews) = occurrences tag reviews.
Proof.
  intros Hne. destruct (tag_counts_from tag reviews []) as [_ Hat]; [done| |exact Hat].
  split; [apply NoDup_nil_2|constructor].
Qed.

(** In a map without repeated keys, an entry is what a lookup finds. *)
Lemma assoc_elem_of (k : string) (n : nat) (counts : list (string * nat)) :
  NoDup counts.*1 → (k, n) ∈ counts ↔ assoc k counts = Some n.
Proof.
  induction counts as [|[k1 n1] rest IH]; simpl.
  - intros _. split; [by intros ?%elem_of_nil|done].
  - rewrite NoDup_cons. intros [Hk1 Hrest]. rewrite elem_of_cons, (IH Hrest).
    destruct (decide (k1 = k)) as [->|Hne].
    + split.
      * intros [[= ->]|Hin]; [done|].
        exfalso. apply Hk1. apply (IH Hrest) in Hin.
        apply list_elem_of_fmap. by exists (k, n).
      * intros [= ->]. by left.
    + split; [|by right]. intros [[= ? ?]|?]; [done|done].
Qed.

Lemma assoc_None (k : string) (counts : list (string * nat)) :
  k ∉ counts.*1 → assoc k counts = None.
Proof.
  induction counts as [|[k1 n1] rest IH]; simpl; [done|].
  rewrite not_elem_of_cons. intros [Hne Hrest]. by rewrite decide_False, IH.
Qed.

Lemma insert_sorted_Permutation {A : Type} (compare : A → A → Z) (a : A) (l : list A) :
  insert_sorted compare a l ≡ₚ a :: l.
Proof.
  induction l as [|b rest IH]; simpl; [done|].
  case_decide; [|done]. rewrite IH. apply Permutation_swap.
Qed.

Lemma sort_Permutation {A : Type} (compare : A → A → Z) (l : list A) :
  sort compare l ≡ₚ l.
Proof.
  induction l as [|a l IH]; simpl; [done|].
  by rewrite insert_sorted_Permutation, IH.
Qed.

Lemma insert_sorted_by_count (a : string * nat) (l : list (string * nat)) :
  StronglySorted count_ge l → StronglySorted count_ge (insert_sorted by_count a l).
Proof.
  induction l as [|b rest IH]; simpl; intros Hsorted.
  { repeat constructor. }
  apply StronglySorted_inv in Hsorted as [Hrest Hb].
  unfold by_count at 1. case_decide as Hcmp.
  - constructor; [by apply IH|].
    rewrite insert_sorted_Permutation. constructor; [|done].
    unfold count_ge. lia.
  - constructor; [by constructor|].
    constructor; [unfold count_ge; lia|].
    eapply Forall_impl; [exact Hb|]. unfold count_ge. intros x Hx. lia.
Qed.

Lemma sort_by_count_sorted (l : list (string * nat)) :
  StronglySorted count_ge (sort by_count l).
Proof.
  induction l as [|a l IH]; simpl; [constructor|]. by apply insert_sorted_by_count.
Qed.

(** An entry of the top tags is an entry of the map. *)
Lemma topTags_elem_of (reviews : list Admin.ReviewWithId) (e : string * nat) :
  e ∈ topTags reviews → e ∈ tag_counts reviews.
Proof.
  unfold topTags. intros Hin.
  pose proof (elem_of_sublist _ _ _ Hin (sublist_take _ _)) as Hsorted.
  by rewrite sort_Permutation in Hsorted.
Qed.

Lemma tag_counts_entry (reviews : list Admin.ReviewWithId) (tag : string) (n : nat) :
  (tag, n) ∈ tag_counts reviews →
  tag ≠ "" ∧ trim tag = tag ∧ (1 ≤ n)%nat ∧ n = occurrences tag reviews.
Proof.
  intros Hin. destruct (tag_counts_ok reviews) as [Hdup Hall].
  rewrite Forall_forall in Hall. destruct (Hall _ Hin) as (Hne & Htrim & Hpos).
  split_and!; [done..|].
  apply (assoc_elem_of _ _ _ Hdup) in Hin.
  rewrite <-(tag_counts_at tag reviews Hne). unfold count_at. by rewrite Hin.
Qed.

(** X25.  The top tags of the admin page.  At most five tags are listed, no
    tag twice, by decreasing count.  Every listed tag is not empty and
    carries no white space around it, and its count is the number of times
    it occurs among the tags of all the reviews, white space around a tag
    not counting.  A tag that occurs but is not listed is left out only
    because five tags are listed that occur at least as often. *)
Theorem topTags_counts (reviews : list Admin.ReviewWithId) :
  (length (topTags reviews) ≤ 5)%nat
  ∧ NoDup (topTags reviews).*1
  ∧ StronglySorted count_ge (topTags reviews)
  ∧ (∀ tag n, (tag, n) ∈ topTags reviews →
       tag ≠ "" ∧ trim tag = tag ∧ (1 ≤ n)%nat ∧ n = occurrences tag reviews)
  ∧ (∀ tag, tag ≠ "" → (0 < occurrences tag reviews)%nat →
       tag ∉ (topTags reviews).*1 →
       length (topTags reviews) = 5%nat
       ∧ ∀ e, e ∈ topTags reviews → (occurrences tag reviews ≤ e.2)%nat).
Proof.
  pose proof (sort_by_count_sorted (tag_counts reviews)) as Hsorted.
  pose proof (sort_Permutation by_count (tag_counts reviews)) as Hperm.
  destruct (tag_counts_ok reviews) as [Hdup _].
  unfold topTags. set (sorted := sort by_count (tag_counts reviews)) in *.
  split_and!.
  - rewrite length_take. lia.
  - rewrite fmap_take. eapply sublist_NoDup; [|apply sublist_take].
    by rewrite Hperm.
  - rewrite <-(take_drop 5 sorted) in Hsorted.
    by apply StronglySorted_app_1_l in Hsorted.
  - intros tag n Hin. apply tag_counts_entry. by apply topTags_elem_of.
  - intros tag Hne Hocc Hout.
    rewrite <-(tag_counts_at tag reviews Hne) in *. unfold count_at in *.
    destruct (assoc tag (tag_counts reviews)) as [m|] eqn:Hm; simpl in *; [|lia].
    apply (assoc_elem_of _ _ _ Hdup) in Hm. rewrite <-Hperm in Hm.
    rewrite <-(take_drop 5 sorted), elem_of_app in Hm.
    destruct Hm as [Hm|Hm].
    { exfalso. apply Hout. apply list_elem_of_fmap. by exists (tag, m). }
    split.
    + rewrite length_take. apply list_elem_of_lookup in Hm as [i Hi].
      apply lookup_lt_Some in Hi. rewrite length_drop in Hi. lia.
    + intros e He. rewrite <-(take_drop 5 sorted) in Hsorted.
      apply (StronglySorted_app_1_elem_of _ _ _ _ _ Hsorted He Hm).
Qed.

(** With a tag selected, a review is shown only if it has that very tag. *)
Lemma shown_has_tag (tag : string) (filterRating : option Q) (review : Admin.ReviewWithId) :
  tag ≠ "" → shown (Some tag) filterRating review = true → tag ∈ Admin.ai_tags review.
Proof.
  intros Hne. unfold shown, str_truthy. cbn [from_option id].
  rewrite bool_decide_eq_false_2 by done. cbn [negb andb].
  case_bool_decide; [done|]. by cbn [negb].
Qed.

Lemma shown_by_tag (tag : string) (review : Admin.ReviewWithId) :
  tag ≠ "" → shown (Some tag) None review = bool_decide (tag ∈ Admin.ai_tags review).
Proof.
  intros Hne. unfold shown, str_truthy. cbn [from_option id].
  rewrite bool_decide_eq_false_2 by done. cbn [negb andb].
  by case_bool_decide.
Qed.

Lemma tag_once (tag : string) (tags : list string) :
  NoDup tags → (∀ t, t ∈ tags → trim t = t) →
  length (filter (λ t, trim t = tag) tags) = if decide (tag ∈ tags) then 1%nat else 0%nat.
Proof.
  induction tags as [|t tags IH]; intros Hdup Htrim.
  { by rewrite decide_False by apply not_elem_of_nil. }
  apply NoDup_cons in Hdup as [Hnew Hdup].
  rewrite filter_cons, (Htrim t) by apply list_elem_of_here.
  specialize (IH Hdup (λ t1 Ht1, Htrim t1 (list_elem_of_further _ _ _ Ht1))).
  destruct (decide (t = tag)) as [->|Hother]; cbn [length]; rewrite IH.
  - rewrite (decide_False (P := tag ∈ tags)) by done.
    by rewrite decide_True by apply list_elem_of_here.
  - destruct (decide (tag ∈ tags)) as [Hin|Hout].
    + by rewrite decide_True by by apply list_elem_of_further.
    + rewrite decide_False; [done|]. rewrite elem_of_cons. by intros [->|?].
Qed.

(** X26.  From the top tags to the tag filter.  Selecting a listed tag shows
    at most as many reviews as the count displayed beside it, whatever the
    rating filter; with no rating filter it shows exactly that many when no
    review repeats a tag and no tag carries white space around it. *)
Theorem filter_by_top_tag (reviews : list Admin.ReviewWithId) (tag : string) (n : nat)
    (filterRating : option Q) :
  (tag, n) ∈ topTags reviews →
  (length (filteredReviews (Some tag) filterRating reviews) ≤ n)%nat
  ∧ ((∀ review, review ∈ reviews →
        NoDup (Admin.ai_tags review) ∧ ∀ t, t ∈ Admin.ai_tags review → trim t = t) →
     length (filteredReviews (Some tag) None reviews) = n).
Proof.
  intros Hin. apply topTags_elem_of, tag_counts_entry in Hin as (Hne & Htrim & _ & ->).
  unfold occurrences, filteredReviews. split.
  - induction reviews as [|r reviews IH]; [done|].
    rewrite fmap_cons. cbn [concat]. rewrite filter_app, length_app, filter_cons.
    case_decide as Hshown; [|lia]. cbn [length].
    apply shown_has_tag in Hshown; [|done].
    assert (Hr : (0 < length (filter (λ t, trim t = tag) (Admin.ai_tags r)))%nat); [|lia].
    assert (Hf : tag ∈ filter (λ t, trim t = tag) (Admin.ai_tags r))
      by by apply list_elem_of_filter.
    destruct (filter (λ t, trim t = tag) (Admin.ai_tags r)); [|simpl; lia].
    by apply elem_of_nil in Hf.
  - induction reviews as [|r reviews IH]; intros Hclean; [done|].
    rewrite fmap_cons. cbn [concat]. rewrite filter_app, length_app, filter_cons.
    destruct (Hclean r) as [Hdup Htrimmed]; [apply list_elem_of_here|].
    rewrite (tag_once tag _ Hdup Htrimmed), <-IH
      by by intros r1 Hr1; apply Hclean, list_elem_of_further.
    rewrite shown_by_tag by done.
    destruct (decide (tag ∈ Admin.ai_tags r)) as [Hin|Hout].
    + rewrite decide_True by by apply bool_decide_eq_true. done.
    + rewrite decide_False; [done|]. by rewrite bool_decide_eq_true.
Qed.

(** Among the sample reviews, "Service" is listed with 3, one of them for a
    tag stored in white space: selecting it shows the two other reviews. *)
Lemma filter_by_top_tag_witness :
  ("Service", 3%nat) ∈ topTags page_reviews
  ∧ Admin.id <$> filteredReviews (Some "Service") None page_reviews = ["-Na"; "-Nc"]
  ∧ (length (filteredReviews (Some "Service") None page_reviews) ≤ 3)%nat.
Proof.
  assert (Hin : ("Service", 3%nat) ∈ topTags page_reviews).
  { assert (Htop : topTags page_reviews
                   = [("Service", 3%nat); ("Quality", 2%nat); ("Price", 1%nat);
                      ("Delivery", 1%nat)]) by (vm_compute; reflexivity).
    rewrite Htop. apply list_elem_of_here. }
  split; [exact Hin|]. split; [vm_compute; reflexivity|].
  exact (proj1 (filter_by_top_tag page_reviews "Service" 3 None Hin)).
Defined.

(** X27.  The filters of the admin page.  The reviews shown are some of the
    reviews, in their order.  A tag filter that is not set or empty and a
    rating filter that is not set or 0 show every review; a tag filter that
    is set shows only reviews with that tag, and a rating filter that is set
    only reviews of that rating. *)
Theorem filters_show (filterTag : option string) (filterRating : option Q)
    (reviews : list Admin.ReviewWithId) :
  filteredReviews filterTag filterRating reviews `sublist_of` reviews
  ∧ (str_truthy filterTag = false →
     (∀ r, filterRating = Some r → r == 0)%Q →
     filteredReviews filterTag filterRating reviews = reviews)
  ∧ (∀ review, review ∈ filteredReviews filterTag filterRating reviews →
       (∀ tag, filterTag = Some tag → tag ≠ "" → tag ∈ Admin.ai_tags review)
       ∧ (∀ r, filterRating = Some r → ¬ (r == 0)%Q → (Admin.rating review == r)%Q)).
Proof.
  unfold filteredReviews. split_and!.
  - apply sublist_filter.
  - intros Htag Hrating. induction reviews as [|r reviews IH]; [done|].
    rewrite filter_cons, IH. rewrite decide_True; [done|].
    unfold shown. rewrite Htag. cbn [andb].
    destruct filterRating as [q|]; [|done].
    by rewrite (proj2 (Qeq_bool_iff q 0) (Hrating q eq_refl)).
  - intros review [Hshown _]%list_elem_of_filter. split.
    + intros tag -> Hne. by apply (shown_has_tag tag filterRating).
    + intros q -> Hq. unfold shown in Hshown.
      destruct (str_truthy filterTag && _); [done|].
      destruct (Qeq_bool q 0) eqn:Hzero.
      { by apply Qeq_bool_iff in Hzero. }
      cbn [negb andb] in Hshown.
      destruct (Qeq_bool (Admin.rating review) q) eqn:Heq; [|done].
      by apply Qeq_bool_iff.
Qed.

End TagCounts.

(** ** The feedback form *)

(** What the form schema makes of a numeric rating and a string review: the
    data, or issues with the messages of the two fields, the rating's
    first. *)
Lemma form_outcome (q : Q) (s : string) :
  match ReviewFormSchema (Some (JObj [ ("rating", JNum (Finite q)); ("review", JStr s) ])) with
  | ZOk data =>
      rating_messages q ++ review_messages s = []
      ∧ data = {| form_rating := Finite q; form_review := s |}
  | ZFail issues =>
      issue_message <$> issues = rating_messages q ++ review_messages s ∧ issues ≠ []
  end.
Proof.
  unfold ReviewFormSchema, z_object, field, z_number, z_string.
  change (assoc "rating" _) with (Some (JNum (Finite q))).
  change (assoc "review" _) with (Some (JStr s)).
  unfold rating_messages, review_messages.
  cbn [omap list_omap number_check string_check num_lt num_gt].
  destruct (Qlt_le_dec q 1) as [Hlo|Hlo]; [|destruct (Qlt_le_dec 5 q) as [Hhi|Hhi]].
  - assert (E1 : Qle_bool (inject_Z 1) q = false) by by apply Qle_bool_false_lt.
    assert (E2 : Qle_bool q (inject_Z 5) = true).
    { apply Qle_bool_iff. apply Qlt_le_weak. by apply Qlt_trans with 1%Q. }
    rewrite E1, E2. cbn [negb].
    repeat case_decide; try lia; cbn; by split.
  - assert (E1 : Qle_bool (inject_Z 1) q = true) by by apply Qle_bool_iff.
    assert (E2 : Qle_bool q (inject_Z 5) = false) by by apply Qle_bool_false_lt.
    rewrite E1, E2. cbn [negb].
    repeat case_decide; try lia; cbn; by split.
  - assert (E1 : Qle_bool (inject_Z 1) q = true) by by apply Qle_bool_iff.
    assert (E2 : Qle_bool q (inject_Z 5) = true) by by apply Qle_bool_iff.
    rewrite E1, E2. cbn [negb].
    repeat case_decide; try lia; cbn; by split.
Qed.

Lemma no_messages_iff (s : UserPage.State) :
  rating_messages (UserPage.rating s) ++ review_messages (UserPage.review s) = []
  ↔ UserPage.in_bounds s.
Proof.
  unfold rating_messages, review_messages, UserPage.in_bounds.
  destruct (Qlt_le_dec (UserPage.rating s) 1) as [Hlo|Hlo];
    [|destruct (Qlt_le_dec 5 (UserPage.rating s)) as [Hhi|Hhi]].
  - split; [done|]. intros (H1 & _). by apply Qlt_not_le in Hlo.
  - split; [done|]. intros (_ & H5 & _). by apply Qlt_not_le in Hhi.
  - repeat case_decide; (split; [try done|]).
    + intros (_ & _ & ?). lia.
    + intros (_ & _ & ?). lia.
    + intros _. split_and!; [done|done|lia|lia].
    + done.
Qed.

Section FormFacts.
Import UserPage.

(** X28.  The feedback form.  [handleSubmit] never throws.  It sends a
    request exactly when the rating is from 1 to 5 and the review has 5 to
    1000 characters, and the body is that rating and review.  Otherwise
    nothing is sent, the form is left as it is and the error shown is the
    first message of the schema, the rating's before the review's.  After a
    request the page is no longer loading and shows either success or an
    error, never both; on success the form is cleared, on an error it is
    kept. *)
Theorem form_submission (fetch : json → option json) (s : State) :
  ∃ s' sent,
    handleSubmit fetch s = Some (s', sent)
    ∧ (in_bounds s →
         sent = Some (formData s)
         ∧ isLoading s' = false
         ∧ isSuccess s' = negb (isError s')
         ∧ (isSuccess s' = true → rating s' = 0%Q ∧ review s' = "")
         ∧ (isError s' = true → rating s' = rating s ∧ review s' = review s))
    ∧ (¬ in_bounds s →
         sent = None
         ∧ isSuccess s' = false ∧ isError s' = true
         ∧ rating s' = rating s ∧ review s' = review s ∧ isLoading s' = isLoading s
         ∧ ∃ m, head (rating_messages (rating s) ++ review_messages (review s)) = Some m
                ∧ errorMessage s' = IssueMessage m).
Proof.
  unfold handleSubmit. cbv zeta.
  change (formData (reset s)) with (formData s).
  pose proof (form_outcome (rating s) (review s)) as Hform.
  pose proof (no_messages_iff s) as Hiff.
  unfold formData at 1.
  destruct (ReviewFormSchema _) as [data|issues].
  - destruct Hform as [Hnone _]. apply Hiff in Hnone.
    eexists _, _. split; [done|]. split; [|done]. intros _.
    destruct (fetch (formData s)) as [answer|]; cbn [mbind option_bind];
      [destruct answer; cbn [on_answer];
       try destruct (truthy (property _ "success"))|];
      cbn; by split_and!.
  - destruct Hform as [Hmsgs Hne]. destruct issues as [|first rest]; [done|].
    eexists _, _. split; [done|]. split.
    + intros Hin. apply Hiff in Hin. by rewrite Hin in Hmsgs.
    + intros _. split_and!; try done.
      exists (issue_message first). by rewrite <-Hmsgs.
Qed.

(** X29.  From the form to the route.  A body the form has sent is never
    turned down as invalid input: when the request that carries it is
    admitted, the route calls the AI service once, with the rating and the
    review of the form, and the status of its response is not 400. *)
Theorem form_reaches_ai `{RT : Runtime} (fetch : json → option json) (s s' : State)
    (sent : json) (env : Env) (request : Request) (w : World) :
  handleSubmit fetch s = Some (s', Some sent) →
  admitted env request w →
  json_body request = inr sent →
  ai_calls (POST env request w).2
  = ai_calls w
    ++ [ analysis_request {| form_rating := Finite (rating s); form_review := review s |} ]
  ∧ status (POST env request w).1 ≠ 400.
Proof.
  intros Hsubmit Hadm Hsent.
  assert (Hok : sent = formData s
                ∧ ReviewFormSchema (Some (formData s))
                  = ZOk {| form_rating := Finite (rating s); form_review := review s |}).
  { revert Hsubmit. unfold handleSubmit. cbv zeta.
    change (formData (reset s)) with (formData s).
    pose proof (form_outcome (rating s) (review s)) as Hform.
    unfold formData at 1 2 4.
    destruct (ReviewFormSchema _) as [data|issues]; [|destruct issues; discriminate].
    destruct Hform as [_ ->]. by intros [= _ <-]. }
  destruct Hok as [-> Hok].
  unfold POST. rewrite POST_try_unlimited by done. cbv zeta. rewrite Hsent, Hok.
  set (call := analysis_request _).
  destruct (generateContent env call) as [e|reply]; [by split|].
  unfold after_reply.
  match goal with
  | |- context [parse_ai_text reply ?w0] =>
      pose proof (parse_ai_text_reviews reply w0) as (_ & Hcalls & _);
      destruct (parse_ai_text reply w0) as [aiJson w3]
  end.
  cbn [snd] in Hcalls.
  destruct (truthy aiJson); cbn [negb];
    [destruct (AIResponseSchema aiJson);
     [destruct (getAdminDatabase_throws env); [|destruct (push_throws env)]|]|];
    path_simpl; rewrite ?Hcalls; by split.
Qed.

End FormFacts.

(** The form with five stars and a review of 26 characters, sent to the
    route. *)
Lemma form_reaches_ai_witness :
  ai_calls (POST (RT := test_runtime test_table) (env_with (inr None))
              (request_with (inr (UserPage.formData (form_state 5 "Great service, very happy!"))))
              empty_world).2
  = [ analysis_request
        {| form_rating := Finite 5; form_review := "Great service, very happy!" |} ].
Proof.
  refine (proj1 (form_reaches_ai (RT := test_runtime test_table) test_fetch
                   (form_state 5 "Great service, very happy!") _ _
                   (env_with (inr None)) (request_with (inr _)) empty_world
                   _ _ eq_refl)).
  - vm_compute. reflexivity.
  - reflexivity.
Defined.
